(** * An Enigma machine: plugboard, rotors, reflector and stepping

    Shallow embedding of [enigma.py], [errorHandling.py] and [tools.py].
    Python values are modelled as follows:
    - [int] is [Z]; [%] with a positive right operand is [Z.modulo]
      (both round towards minus infinity);
    - [str] is [string]; a letter is a string of length one, and a
      [list] of letters is a [list string];
    - [None] in a slot that otherwise holds an [int] is [option Z];
    - a raised exception is the [Raise] branch of [result];
    - an object mutated in place is passed in and returned; when a call
      raises, the model keeps the exception and not the object;
    - [printStatus] and the print flags only write to the terminal and are
      left out. *)

From Stdlib Require Import ZArith List String Ascii Bool Lia.
From stdpp Require Import base decidable option list list_numbers sorting
  strings gmap.

Local Open Scope string_scope.
Local Open Scope list_scope.
Local Open Scope Z_scope.

(** ** Exceptions and the error monad *)

(** The exceptions the three modules can raise.  [InputError] and
    [PlugboardError] are the classes of [errorHandling.py]; they carry the
    offending value and the message.  Messages are the source's format
    strings, before [format] fills them in. *)
Inductive exn : Type :=
| InputError (char : string) (message : string)
| PlugboardError (char : string) (message : string)
| ValueError (message : string)
| IndexError
| TypeError
| AttributeError.

Inductive result (A : Type) : Type :=
| OK (a : A)
| Raise (e : exn).

Arguments OK {A} a.
Arguments Raise {A} e.

Global Instance result_ret : MRet result := fun A a => OK a.
Global Instance result_bind : MBind result := fun A B f m =>
  match m with
  | OK a => f a
  | Raise e => Raise e
  end.

Global Instance exn_eq_dec : EqDecision exn.
Proof. solve_decision. Defined.
Global Instance result_eq_dec {A} `{EqDecision A} : EqDecision (result A).
Proof. solve_decision. Defined.

Definition succeeds {A} (m : result A) : Prop :=
  match m with OK _ => True | Raise _ => False end.

(** ** Python built-ins used by the program *)

Module Py.

(** [l[i]]: a negative index counts from the end, anything outside
    [-len(l) .. len(l)-1] raises [IndexError]. *)
Definition norm_index (len i : Z) : Z := if i <? 0 then i + len else i.

Definition getitem {A} (l : list A) (i : Z) : result A :=
  let j := norm_index (Z.of_nat (length l)) i in
  if j <? 0 then Raise IndexError
  else match l !! Z.to_nat j with
       | Some x => OK x
       | None => Raise IndexError
       end.

(** [l[i] = x], same index rule. *)
Definition setitem {A} (l : list A) (i : Z) (x : A) : result (list A) :=
  let j := norm_index (Z.of_nat (length l)) i in
  if (j <? 0) || (Z.of_nat (length l) <=? j) then Raise IndexError
  else OK (<[Z.to_nat j := x]> l).

(** [l.index(x)]: position of the first occurrence, [ValueError] if
    there is none. *)
Fixpoint index_from (x : string) (l : list string) (k : Z) : result Z :=
  match l with
  | [] => Raise (ValueError "is not in list")
  | y :: l' => if decide (y = x) then OK k else index_from x l' (k + 1)
  end.

Definition index (l : list string) (x : string) : result Z :=
  index_from x l 0.

(** [l.insert(i, x)]: never raises; the index is clamped to the list. *)
Definition insert {A} (l : list A) (i : Z) (x : A) : list A :=
  let len := Z.of_nat (length l) in
  let j := Z.min len (Z.max 0 (norm_index len i)) in
  take (Z.to_nat j) l ++ x :: drop (Z.to_nat j) l.

(** [range(a, b)] *)
Definition range (a b : Z) : list Z := seqZ a (b - a).

(** [[x for x in s]]: the characters of a string, each a string. *)
Fixpoint chars (s : string) : list string :=
  match s with
  | EmptyString => []
  | String c s' => String c EmptyString :: chars s'
  end.

Definition len (s : string) : Z := Z.of_nat (String.length s).

(** ASCII letters, [str.upper] and [str.lower] on them. *)
Definition is_upper (c : ascii) : bool :=
  let n := nat_of_ascii c in (65 <=? n)%nat && (n <=? 90)%nat.
Definition is_lower (c : ascii) : bool :=
  let n := nat_of_ascii c in (97 <=? n)%nat && (n <=? 122)%nat.
Definition is_letter (c : ascii) : bool := is_upper c || is_lower c.

Definition upper_char (c : ascii) : ascii :=
  if is_lower c then ascii_of_nat (nat_of_ascii c - 32) else c.
Definition lower_char (c : ascii) : ascii :=
  if is_upper c then ascii_of_nat (nat_of_ascii c + 32) else c.

Fixpoint smap (f : ascii -> ascii) (s : string) : string :=
  match s with
  | EmptyString => EmptyString
  | String c s' => String (f c) (smap f s')
  end.

Definition upper : string -> string := smap upper_char.
Definition lower : string -> string := smap lower_char.

(** ["".join(l)] *)
Definition join (l : list string) : string := foldr String.append "" l.

(** [s.split(' ')]: split at every single space; consecutive spaces
    give empty pieces. *)
Fixpoint split_go (cur : string) (s : string) : list string :=
  match s with
  | EmptyString => [String.rev cur]
  | String c s' =>
      if Ascii.eqb c " "%char then String.rev cur :: split_go "" s'
      else split_go (String c cur) s'
  end.
Definition split (s : string) : list string := split_go "" s.

(** ["".join(re.findall("[a-zA-Z]+", s))]: [s] without its non-letters. *)
Fixpoint letters_only (s : string) : string :=
  match s with
  | EmptyString => EmptyString
  | String c s' =>
      if is_letter c then String c (letters_only s') else letters_only s'
  end.

End Py.

(** ** tools.py *)

(** [positionLooper(inputNumber, base)].  Every call in the program passes
    [base = 25]. *)
Definition positionLooper (inputNumber base : Z) : Z :=
  if (0 <=? inputNumber) && (inputNumber <=? base) then inputNumber
  else if inputNumber <? 0 then (inputNumber mod base) + 1
  else (inputNumber mod base) - 1.

(** ** errorHandling.py *)

(** The [inputValidator] decorator has three instances in the program.
    The two that clean letters are told apart by [component]; the one for
    ring settings is [inputValidator_ringSetting] below.  The decorated
    function receives the cleaned value, so each instance is modelled as
    the function from the raw argument to the cleaned one. *)
Inductive component : Type := inputElement | encodingElement.

Definition inputValidator (c : component) (element currentInput : string)
  : result string :=
  let lettersClean := Py.letters_only currentInput in
  let amountLettersInput := Py.len currentInput in
  let amountLettersClean := Py.len lettersClean in
  if amountLettersInput >? amountLettersClean then
    Raise (InputError currentInput
             ("[" +:+ element +:+ "] Input can only take letters [a-zA-Z]."))
  else
    match c with
    | inputElement =>
        if negb (amountLettersClean =? 2) then
          Raise (InputError currentInput
                   ("[" +:+ element +:+ "] Input must cointain TWO letters."))
        else if bool_decide (String.get 0 lettersClean = String.get 1 lettersClean) then
          Raise (InputError currentInput
                   ("[" +:+ element +:+ "] Input letters must be different."))
        else OK (Py.lower lettersClean)
    | encodingElement =>
        if negb (amountLettersClean =? 1) then
          Raise (InputError currentInput
                   ("[" +:+ element +:+ "] Input must cointain ONE letter."))
        else OK (Py.lower lettersClean)
    end.

(** The [ringSetting] instance, for an [int] argument: [str] of a
    non-negative [int] is its digits, so [inputClean] is the number itself
    and the two lengths agree; [str] of a negative one starts with a minus
    sign, so [inputClean] is its absolute value and the input is one
    character longer.  The [InputError] carries the number, which is not
    kept here. *)
Definition inputValidator_ringSetting (element : string) (currentInput : Z)
  : result Z :=
  let inputClean := Z.abs currentInput in
  let longer := currentInput <? 0 in
  if (inputClean <? 1) || (inputClean >? 26) || longer then
    Raise (InputError "" ("[" +:+ element +:+ "] Input can only take numbers between 1-26."))
  else OK inputClean.

(** ** enigma.py: PlugLead *)

Record PlugLead : Type := mkPlugLead { lettersList : list string }.

Definition PlugLead_init (letters : string) : result PlugLead :=
  letters ← inputValidator inputElement "PlugLead" letters;
  OK (mkPlugLead (Py.lower <$> Py.chars letters)).

Definition PlugLead_encode (self : PlugLead) (letterInput : string) : result string :=
  letterInput ← inputValidator encodingElement "PlugLead" letterInput;
  if bool_decide (letterInput ∉ lettersList self) then
    OK (Py.upper letterInput)
  else
    other ← Py.getitem
      (filter (fun x => x ≠ letterInput) (lettersList self)) (-1);
    OK (Py.upper other).

(** ** enigma.py: Plugboard *)

Record Plugboard : Type := mkPlugboard {
  plugLeadsLetters : list string;
  plugLeads : list PlugLead;
  numPlugLeads : Z
}.

Definition Plugboard_init (numPlugLeads : Z) : result Plugboard :=
  if numPlugLeads >? 13 then
    Raise (ValueError "{} - > [Plugboad] Number of PlugLeads cannot be greater than 13")
  else OK (mkPlugboard [] [] numPlugLeads).

(** The [for] loop of [add]: every letter of the lead is looked up in
    the letters the board held before the call. *)
Fixpoint add_letters (taken : list string) (letters currentPlugLeads : list string)
  : result (list string) :=
  match letters with
  | [] => OK currentPlugLeads
  | x :: rest =>
      if bool_decide (x ∈ taken) then
        Raise (PlugboardError (Py.upper x)
                 "Already assigned to another PlugLead.Please restart your Enigma Machine for including it.")
      else add_letters taken rest (currentPlugLeads ++ [x])
  end.

Definition Plugboard_add (self : Plugboard) (lead : PlugLead) : result Plugboard :=
  if Z.of_nat (length (plugLeads self)) =? numPlugLeads self then
    Raise (PlugboardError (Py.join (Py.upper <$> lettersList lead))
             "Cannot add. Max number of PlugLeads has been reached ({}).")
  else
    currentPlugLeads ← add_letters (plugLeadsLetters self) (lettersList lead) [];
    OK (mkPlugboard (plugLeadsLetters self ++ currentPlugLeads)
                    (plugLeads self ++ [lead])
                    (numPlugLeads self)).

Definition Plugboard_encode (self : Plugboard) (letterInput : string) : result string :=
  letterInput ← inputValidator encodingElement "Plugboard" letterInput;
  if bool_decide (letterInput ∈ plugLeadsLetters self) then
    i ← Py.index (plugLeadsLetters self) letterInput;
    plugBoard ← Py.getitem (plugLeads self) (i / 2);
    PlugLead_encode plugBoard letterInput
  else OK (Py.upper letterInput).


(** ** enigma.py: Rotor *)

(** An element of a rotor's [notch] list: a letter, or the [False] the
    notch-less rotors and the reflectors store. *)
Inductive notch_item : Type :=
| NotchFalse
| NotchLetter (letter : string).

Global Instance notch_item_eq_dec : EqDecision notch_item.
Proof. solve_decision. Defined.

Record Rotor : Type := mkRotor {
  rotorType : string;
  name : string;
  mapping : list string;
  ringSetting : option Z;
  initialPos : option Z;
  currentPos : option Z;
  notch : list notch_item
}.

Definition set_currentPos (r : Rotor) (p : Z) : Rotor :=
  mkRotor (rotorType r) (name r) (mapping r) (ringSetting r) (initialPos r)
          (Some p) (notch r).

Definition set_notch_mapping (r : Rotor) (n : list notch_item) (m : list string)
  : Rotor :=
  mkRotor (rotorType r) (name r) m (ringSetting r) (initialPos r)
          (currentPos r) n.

(** [self.genericMapping] is the same list in every rotor. *)
Definition genericMapping : list string :=
  ["A"; "B"; "C"; "D"; "E"; "F"; "G"; "H"; "I"; "J"; "K"; "L"; "M";
   "N"; "O"; "P"; "Q"; "R"; "S"; "T"; "U"; "V"; "W"; "X"; "Y"; "Z"].

(** An [int] read from a slot that may hold [None]: arithmetic and
    indexing with [None] raise [TypeError]. *)
Definition int_of (v : option Z) : result Z :=
  match v with
  | Some z => OK z
  | None => Raise TypeError
  end.

Definition set_ring_setting (ringSetting : Z) : result Z :=
  ringSetting ← inputValidator_ringSetting "Ring Settings" ringSetting;
  OK (ringSetting - 1).

Definition set_initial_pos (initialPos : string) : result Z :=
  initialPos ← inputValidator encodingElement "Initial Position" initialPos;
  Py.index genericMapping (Py.upper initialPos).

(** [Rotor.__init__] for a [rotorType] other than ['reflector'].  The
    subclass assigns [notch] and [mapping] afterwards. *)
Definition Rotor_init (ringSetting : Z) (initialPos rotorType name : string)
  : result Rotor :=
  rs ← set_ring_setting ringSetting;
  ip ← set_initial_pos initialPos;
  cp ← set_initial_pos initialPos;
  OK (mkRotor rotorType name [] (Some rs) (Some ip) (Some cp) []).

(** [Rotor.__init__] with [rotorType='reflector']: the three slots keep
    the [None] every reflector class passes. *)
Definition Rotor_init_reflector (name : string) : Rotor :=
  mkRotor "reflector" name [] None None None [].

Definition Rotor_encode (self : Rotor) (letterInput direction : string)
  : result string :=
  letterInput ← inputValidator encodingElement "" letterInput;
  if bool_decide (rotorType self = "reflector") then
    i ← Py.index genericMapping (Py.upper letterInput);
    x ← Py.getitem (mapping self) i;
    OK (Py.lower x)
  else
    pos ← int_of (currentPos self);
    letterPos ← Py.getitem genericMapping pos;
    ring ← int_of (ringSetting self);
    let offset := pos - ring in
    inputIndex ← Py.index genericMapping (Py.upper letterInput);
    let inputIndexOffset := positionLooper (inputIndex + offset) 25 in
    letterInputOffset ← Py.getitem genericMapping inputIndexOffset;
    letter ←
      (if bool_decide (direction = "right") then
         index ← Py.index genericMapping letterInputOffset;
         Py.getitem (mapping self) index
       else
         index ← Py.index (mapping self) letterInputOffset;
         Py.getitem genericMapping index);
    outIndex ← Py.index genericMapping letter;
    let outputIndexOffset := positionLooper (outIndex - offset) 25 in
    returnLetter ← Py.getitem genericMapping outputIndexOffset;
    OK (Py.upper returnLetter).

(** *** The rotor classes *)

Definition stock (rotorType name : string) (notch : list notch_item)
  (mapping : string) (ringSetting : Z) (initialPos : string) : result Rotor :=
  self ← Rotor_init ringSetting initialPos rotorType name;
  OK (set_notch_mapping self notch (Py.chars mapping)).

Definition RotorI := stock "notchrotor" "I" [NotchLetter "Q"] "EKMFLGDQVZNTOWYHXUSPAIBRCJ".
Definition RotorII := stock "notchrotor" "II" [NotchLetter "E"] "AJDKSIRUXBLHWTMCQGZNPYFVOE".
Definition RotorIII := stock "notchrotor" "III" [NotchLetter "V"] "BDFHJLCPRTXVZNYEIWGAKMUSQO".
Definition RotorIV := stock "notchrotor" "IV" [NotchLetter "J"] "ESOVPZJAYQUIRHXLNFTGKDCMWB".
Definition RotorV := stock "notchrotor" "V" [NotchLetter "Z"] "VZBRGITYUPSDNHLXAWMJQOFECK".
Definition RotorBeta := stock "notchlessrotor" "beta" [NotchFalse] "LEYJVCNIXWPBQMDRTAKZGFUHOS".
Definition RotorGamma := stock "notchlessrotor" "gamma" [NotchFalse] "FSOKANUERHMBTIYCWLQPZXVGJD".
Definition RotorVI := stock "notchrotor" "VI" [NotchLetter "Z"; NotchLetter "M"] "JPGVOUMFYQBENHZRDKASXLICTW".
Definition RotorVII := stock "notchrotor" "VII" [NotchLetter "Z"; NotchLetter "M"] "NZJHGRCXMYSWBOUFAIVLPEKQDT".
Definition RotorVIII := stock "notchrotor" "VIII" [NotchLetter "Z"; NotchLetter "M"] "FKQHTLXOCBJSPDZRAMEWNIUYGV".

(** The check both custom classes make on a string of letters:
    [[
      elementsCount = dict.fromkeys(items, 0)
      for i in items: elementsCount[i] += 1
      sorted(elementsCount.values())[-1] > 1
    ]]
    Every key the loop updates was put there by [fromkeys]. *)
Definition fromkeys (keys : list string) (v : Z) : gmap string Z :=
  foldl (fun d k => <[k := v]> d) ∅ keys.

Definition count_elements (items : list string) : gmap string Z :=
  foldl (fun d i => alter (fun n => n + 1) i d) (fromkeys items 0) items.

Definition repeats_letters (items : list string) : result bool :=
  let elementsCount := count_elements items in
  top ← Py.getitem (merge_sort Z.le (snd <$> map_to_list elementsCount)) (-1);
  OK (top >? 1).

Definition RotorCustom (ringSetting : Z) (initialPos mapping : string)
  (notches : option string) : result Rotor :=
  kind ←
    match notches with
    | None => OK ("notchlessrotor", [NotchFalse])
    | Some notches =>
        let itsNotch := Py.chars notches in
        rep ← repeats_letters itsNotch;
        if (rep : bool) then Raise (ValueError "Notches cannot repeat letters.")
        else if Z.of_nat (length itsNotch) >? 26 then
          Raise (ValueError "Amount of notches cannot be greater than 26.")
        else OK ("notchrotor", NotchLetter <$> itsNotch)
    end;
  self ← Rotor_init ringSetting initialPos (fst kind) "custom";
  rep ← repeats_letters (Py.chars mapping);
  if (rep : bool) then Raise (ValueError "Mapping cannot repeat letters.")
  else OK (set_notch_mapping self (snd kind) (Py.chars mapping)).

Definition stock_reflector (name mapping : string) : Rotor :=
  set_notch_mapping (Rotor_init_reflector name) [NotchFalse] (Py.chars mapping).

Definition ReflectorA := stock_reflector "A" "EJMZALYXVBWFCRQUONTSPIKHGD".
Definition ReflectorB := stock_reflector "B" "YRUHQSLDPXNGOKMIEBFZCWVJAT".
Definition ReflectorC := stock_reflector "C" "FVPJIAOYEDRZXWGCTKUQSBNMHL".
Definition ReflectorBThin := stock_reflector "BThin" "ENKQAUYWJICOPBLMDXZVFTHRGS".
Definition ReflectorCThin := stock_reflector "BThin" "ENKQAUYWJICOPBLMDXZVFTHRGS".

Definition ReflectorCustom (mapping : string) : result Rotor :=
  let self := Rotor_init_reflector "custom" in
  rep ← repeats_letters (Py.chars mapping);
  if (rep : bool) then Raise (ValueError "Mapping cannot repeat letters.")
  else OK (set_notch_mapping self [NotchFalse] (Py.chars mapping)).

(** ** enigma.py: EnigmaMachine *)

(** A [for] loop over a list whose body updates a state or raises, and a
    list comprehension whose element expression may raise. *)
Fixpoint for_each {A S} (body : S -> A -> result S) (s : S) (l : list A)
  : result S :=
  match l with
  | [] => OK s
  | x :: l' => s' ← body s x; for_each body s' l'
  end.

Fixpoint comprehension {A B} (f : A -> result B) (l : list A)
  : result (list B) :=
  match l with
  | [] => OK []
  | x :: l' => y ← f x; ys ← comprehension f l'; OK (y :: ys)
  end.

(** [setup] builds one fresh rotor object per entry, so the machine's
    rotor stack is a list of rotor values: no two entries are the same
    object. *)
Record EnigmaMachine : Type := mkEnigmaMachine {
  rotorsList : list Rotor;
  plugBoard : option Plugboard;
  reflector : option Rotor
}.

Definition EnigmaMachine_init : EnigmaMachine := mkEnigmaMachine [] None None.

(** [order] is an [int] here, so the [type(order) != int] test is false. *)
Definition addRotor (self : EnigmaMachine) (rotorObject : Rotor) (order : Z)
  : result EnigmaMachine :=
  if order <? 1 then
    Raise (ValueError "Position {} is invalid for rotor {}")
  else if order - 1 >? Z.of_nat (length (rotorsList self)) then
    Raise (ValueError "Rotor {} out of order or yet not enough rotors for position {}.")
  else
    OK (mkEnigmaMachine (Py.insert (rotorsList self) (order - 1) rotorObject)
                        (plugBoard self) (reflector self)).

Definition addPlugBoard (self : EnigmaMachine) (plugBoardObject : Plugboard)
  : EnigmaMachine :=
  mkEnigmaMachine (rotorsList self) (Some plugBoardObject) (reflector self).

Definition addReflector (self : EnigmaMachine) (reflectorObject : Rotor)
  : EnigmaMachine :=
  mkEnigmaMachine (rotorsList self) (plugBoard self) (Some reflectorObject).

(** An attribute of a slot that may hold [None]. *)
Definition attr_of {A} (v : option A) : result A :=
  match v with
  | Some a => OK a
  | None => Raise AttributeError
  end.

(** *** Stepping: lines 254-309 of [fullEncode] *)

(** [positionLooper(rotorsList[i].currentPos+1, 25)] stored back into
    [rotorsList[i].currentPos]. *)
Definition turn (rotorsList : list Rotor) (i : Z) : result (list Rotor) :=
  rotor ← Py.getitem rotorsList i;
  pos ← int_of (currentPos rotor);
  let updatedPos := positionLooper (pos + 1) 25 in
  Py.setitem rotorsList i (set_currentPos rotor updatedPos).

Definition notchlessToTheRight (rotorsList : list Rotor) (numRotors : Z)
  : result (list bool) :=
  comprehension
    (fun x =>
       if x =? 1 then OK false
       else
         rotor ← Py.getitem rotorsList (- x + 1);
         OK (bool_decide (rotorType rotor = "notchless")))
    (Py.range 1 (numRotors + 1)).

(** The body of the loop [for r in range(1, numRotors+1)]; the state is
    the rotor stack and the [hasTurned] list. *)
Definition step_body (initialPositions : list (option Z))
  (notchlessToTheRight : list bool)
  (st : list Rotor * list bool) (r : Z) : result (list Rotor * list bool) :=
  let rotorsList := fst st in
  let hasTurned := snd st in
  currentPos ← Py.getitem initialPositions (- r);
  pos ← int_of currentPos;
  letterCurrentPos ← Py.getitem genericMapping pos;
  rotor ← Py.getitem rotorsList (- r);
  let notch := notch rotor in
  engaged ←
    (if bool_decide (NotchLetter letterCurrentPos ∈ notch)
        && bool_decide (r ∈ [1; 2])
     then b ← Py.getitem notchlessToTheRight (- r); OK (negb b)
     else OK false);
  if (engaged : bool) then
    st ←
      (turned ← Py.getitem hasTurned (- r);
       if negb turned then
         rotorsList ← turn rotorsList (- r);
         hasTurned ← Py.setitem hasTurned (- r) true;
         OK (rotorsList, hasTurned)
       else OK (rotorsList, hasTurned));
    if r <=? 2 then
      rotorsList ← turn (fst st) (- r - 1);
      hasTurned ← Py.setitem (snd st) (- r - 1) true;
      OK (rotorsList, hasTurned)
    else OK st
  else OK st.

Definition stepRotors (rotorsList : list Rotor) : result (list Rotor) :=
  let numRotors := Z.of_nat (length rotorsList) in
  let initialPositions := currentPos <$> rotorsList in
  let hasTurned := replicate (length rotorsList) false in
  notchless ← notchlessToTheRight rotorsList numRotors;
  (* the letters shown by [lettersPrint] are computed even when nothing
     is printed *)
  _ ← comprehension
        (fun x => pos ← int_of (currentPos x); Py.getitem genericMapping pos)
        rotorsList;
  st ← for_each (step_body initialPositions notchless)
         (rotorsList, hasTurned) (Py.range 1 (numRotors + 1));
  turned ← Py.getitem (snd st) (-1);
  if negb turned then turn (fst st) (-1) else OK (fst st).

(** *** The signal path *)

(** [fullEncode]: the plugboard, the stepping block, the rotors from right
    to left, the reflector, the rotors from left to right and the
    plugboard again.  The machine returned is [self] after the call. *)
Definition fullEncode (self : EnigmaMachine) (inputLetter : string)
  : result (EnigmaMachine * string) :=
  inputLetter ← inputValidator encodingElement "Element to encode" inputLetter;
  board ← attr_of (plugBoard self);
  encodedInput ← Plugboard_encode board inputLetter;
  rotors ← stepRotors (rotorsList self);
  encodedInput ←
    for_each (fun e r => Rotor_encode r e "right") encodedInput (reverse rotors);
  refl ← attr_of (reflector self);
  encodedInput ← Rotor_encode refl encodedInput "left";
  encodedInput ←
    for_each (fun e r => Rotor_encode r e "left") encodedInput rotors;
  encodedInput ← Plugboard_encode board encodedInput;
  OK (mkEnigmaMachine rotors (plugBoard self) (reflector self),
      Py.upper encodedInput).

(** [serialEncode]: one [fullEncode] per character of the message. *)
Definition serialEncode (self : EnigmaMachine) (inputString : string)
  : result (EnigmaMachine * string) :=
  st ← for_each
         (fun st s =>
            out ← fullEncode (fst st) s;
            OK (fst out, snd st +:+ snd out))
         (self, "") (Py.chars inputString);
  OK (fst st, Py.upper (snd st)).

(** *** setup *)

(** One entry of [setup]'s [rotors] argument,
    [[name, ringSetting, initialPos, order, *rest]]: the first four items
    are fields, so [len(i) < 4] cannot happen, and [rest] holds the items
    after them (the mapping and the notches of a custom rotor). *)
Record RotorSpec : Type := mkRotorSpec {
  spec_name : string;
  spec_ringSetting : Z;
  spec_initialPos : string;
  spec_order : Z;
  spec_rest : list string
}.

(** [setup]'s [reflector] argument: a name, or a list of strings. *)
Inductive ReflectorSpec : Type :=
| ReflectorName (name : string)
| ReflectorArgs (items : list string).

Definition validRotors : list string :=
  ["RotorI"; "RotorII"; "RotorIII"; "RotorIV"; "RotorV"; "RotorBeta";
   "RotorGamma"; "RotorVI"; "RotorVII"; "RotorVIII"; "RotorCustom"].

Definition validReflectors : list string :=
  ["ReflectorA"; "ReflectorB"; "ReflectorC"; "ReflectorBThin";
   "ReflectorCThin"; "ReflectorCustom"].

(** [globals()[name]] for the stock rotor classes, which take
    [(ringSetting, initialPos)]. *)
Definition stock_rotor_class (name : string)
  : option (Z -> string -> result Rotor) :=
  if bool_decide (name = "RotorI") then Some RotorI
  else if bool_decide (name = "RotorII") then Some RotorII
  else if bool_decide (name = "RotorIII") then Some RotorIII
  else if bool_decide (name = "RotorIV") then Some RotorIV
  else if bool_decide (name = "RotorV") then Some RotorV
  else if bool_decide (name = "RotorBeta") then Some RotorBeta
  else if bool_decide (name = "RotorGamma") then Some RotorGamma
  else if bool_decide (name = "RotorVI") then Some RotorVI
  else if bool_decide (name = "RotorVII") then Some RotorVII
  else if bool_decide (name = "RotorVIII") then Some RotorVIII
  else None.

(** [globals()[name]()] for the stock reflector classes. *)
Definition stock_reflector_class (name : string) : option Rotor :=
  if bool_decide (name = "ReflectorA") then Some ReflectorA
  else if bool_decide (name = "ReflectorB") then Some ReflectorB
  else if bool_decide (name = "ReflectorC") then Some ReflectorC
  else if bool_decide (name = "ReflectorBThin") then Some ReflectorBThin
  else if bool_decide (name = "ReflectorCThin") then Some ReflectorCThin
  else None.

Definition custom_args_error : exn :=
  ValueError ("Please enter valid arguments for rotor {}." +:+
    " Name, Ring Settings (1-26), Initial Position (A-X), relative" +:+
    " position between rotors and mapping (26 different letters). ").

(** The rotor object the body of [for i in rotors] builds, or the error
    it raises before it gets to [addRotor]. *)
Definition rotor_of_spec (i : RotorSpec) : result Rotor :=
  if bool_decide (spec_name i ∈ validRotors) then
    if bool_decide (spec_name i = "RotorCustom") then
      match spec_rest i with
      | [m] =>
          if Py.len m =? 26 then
            RotorCustom (spec_ringSetting i) (spec_initialPos i) m None
          else Raise custom_args_error
      | [m; n] =>
          if Py.len m =? 26 then
            RotorCustom (spec_ringSetting i) (spec_initialPos i) m (Some n)
          else Raise custom_args_error
      | _ => Raise custom_args_error
      end
    else
      match spec_rest i, stock_rotor_class (spec_name i) with
      | [], Some cls => cls (spec_ringSetting i) (spec_initialPos i)
      | _, _ =>
          Raise (ValueError "Please enter a valid number of arguments for rotor {}")
      end
  else Raise (ValueError "{} is not a valid rotor. Valid options are: {}").

(** The body of [for i in rotors]: every branch that does not raise
    builds the rotor and passes it to [addRotor] with [i[3]]. *)
Definition setup_rotor (self : EnigmaMachine) (i : RotorSpec)
  : result EnigmaMachine :=
  rotor ← rotor_of_spec i;
  addRotor self rotor (spec_order i).

(** The reflector part of [setup].  A stock reflector class called with a
    mapping, or [ReflectorCustom] called without one, is a [TypeError]. *)
Definition setup_reflector (reflector : ReflectorSpec) : result Rotor :=
  match reflector with
  | ReflectorArgs items =>
      match items with
      | [name; mapping] =>
          if bool_decide (name ∈ validReflectors) && (Py.len mapping =? 26) then
            if bool_decide (name = "ReflectorCustom") then ReflectorCustom mapping
            else Raise TypeError
          else
            Raise (ValueError ("Please enter valid arguments for reflector {}." +:+
                     " Valid reflector and mappgin with 26 letters"))
      | _ => Raise (ValueError "Please enter a valid number of arguments for Reflector")
      end
  | ReflectorName name =>
      if bool_decide (name ∈ validReflectors) then
        match stock_reflector_class name with
        | Some r => OK r
        | None => Raise TypeError
        end
      else Raise (ValueError "{} is not a valid rotor. Valid options are: {}")
  end.

(** The plugboard part of [setup]. *)
Definition setup_plugboard (numPlugLeads : Z) (plugleads : option string)
  : result Plugboard :=
  myPlugboard ← Plugboard_init numPlugLeads;
  match plugleads with
  | Some plugleads =>
      for_each (fun board i => lead ← PlugLead_init i; Plugboard_add board lead)
        myPlugboard (Py.split plugleads)
  | None => OK myPlugboard
  end.

Definition setup (self : EnigmaMachine) (rotors : list RotorSpec)
  (reflector : ReflectorSpec) (plugleads : option string) (numPlugLeads : Z)
  : result EnigmaMachine :=
  board ← setup_plugboard numPlugLeads plugleads;
  let self := addPlugBoard self board in
  if Z.of_nat (length rotors) <? 3 then
    Raise (ValueError "Minimum number of rotors is 3.")
  else
    self ← for_each setup_rotor self rotors;
    reflector ← setup_reflector reflector;
    OK (addReflector self reflector).

(** * Vocabulary of the properties *)

(** ** Positions and stepping *)

(** A slot that holds an index into the alphabet. *)
Definition in_range (v : option Z) : Prop :=
  exists z, v = Some z /\ 0 <= z <= 25.

(** The rotor after one turn. *)
Definition turned (r : Rotor) : Rotor :=
  match currentPos r with
  | Some p => set_currentPos r (positionLooper (p + 1) 25)
  | None => r
  end.

(** The letter a rotor shows is one of its notches. *)
Definition at_notch (r : Rotor) : bool :=
  match currentPos r with
  | Some p =>
      match genericMapping !! Z.to_nat p with
      | Some letter => bool_decide (NotchLetter letter ∈ notch r)
      | None => false
      end
  | None => false
  end.

(** The entry of [notchlessToTheRight] computed for [x], read off the
    stack listed from the right. *)
Definition notchless_flag (fromRight : list Rotor) (x : Z) : bool :=
  if x =? 1 then false
  else match fromRight !! Z.to_nat (x - 2) with
       | Some r => bool_decide (rotorType r = "notchless")
       | None => false
       end.

(** What one round of stepping does to the three rotors on the right,
    [c] rightmost; [gate1] and [gate2] are the entries of
    [notchlessToTheRight] the loop reads for them. *)
Definition step3 (gate1 gate2 : bool) (c b a : Rotor) : Rotor * Rotor * Rotor :=
  let engaged1 := at_notch c && negb gate1 in
  let engaged2 := at_notch b && negb gate2 in
  (turned c,
   if engaged1 || engaged2 then turned b else b,
   if engaged2 then turned a else a).

(** The stack, listed from the right, after one round of stepping (for
    a stack of three rotors or more). *)
Definition stepped (fromRight : list Rotor) : list Rotor :=
  match fromRight with
  | c :: b :: a :: rest =>
      let n := Z.of_nat (length fromRight) in
      let s := step3 (notchless_flag fromRight n)
                     (notchless_flag fromRight (n - 1)) c b a in
      s.1.1 :: s.1.2 :: s.2 :: rest
  | _ => fromRight
  end.

(** The position of the rightmost rotor of a stack. *)
Definition rightmost_position (rotors : list Rotor) : option Z :=
  r ← last rotors; currentPos r.

(** A rotor whose [rotorType] is one of the two the rotor classes
    assign. *)
Definition class_rotor (r : Rotor) : Prop :=
  rotorType r = "notchrotor" \/ rotorType r = "notchlessrotor".

(** ** The position wrap *)

(** The wrap rule in the words of the specification, which takes the
    remainder modulo 26. *)
Definition wrap_rule_modulo_26 (n : Z) : Prop :=
  (0 <= n <= 25 -> positionLooper n 25 = n)
  /\ (n < 0 -> positionLooper n 25 = n mod 26 + 1)
  /\ (n > 25 -> positionLooper n 25 = n mod 26 - 1).

(** ** Letters and the plugboard *)

(** The letters a caller can pass: the alphabet and its lower case. *)
Definition letters : list string := genericMapping ++ (Py.lower <$> genericMapping).

(** The lower-case letters, which is what a lead stores. *)
Definition lowers : list string := Py.lower <$> genericMapping.

(** The message of the capacity error of [Plugboard.add]. *)
Definition capacity_message : string :=
  "Cannot add. Max number of PlugLeads has been reached ({}).".

(** Leads with disjoint letters: no letter of a lead is among [taken] or
    among the letters of the leads before it. *)
Fixpoint fresh_leads (taken : list string) (leads : list PlugLead) : bool :=
  match leads with
  | [] => true
  | lead :: rest =>
      forallb (fun x => bool_decide (x ∉ taken)) (lettersList lead)
      && fresh_leads (taken ++ lettersList lead) rest
  end.

(** A lead with two different letters. *)
Definition proper_lead (lead : PlugLead) : Prop :=
  exists x y, lettersList lead = [x; y] /\ x <> y /\ x ∈ lowers /\ y ∈ lowers.

(** A board as [add] builds it from such leads. *)
Definition proper_board (board : Plugboard) : Prop :=
  Forall proper_lead (plugLeads board)
  /\ plugLeadsLetters board = concat (lettersList <$> plugLeads board)
  /\ NoDup (plugLeadsLetters board).

(** The letter [l] is plugged to, if any, else [l] itself. *)
Fixpoint partner (leads : list PlugLead) (l : string) : string :=
  match leads with
  | [] => l
  | lead :: rest =>
      match lettersList lead with
      | [x; y] =>
          if decide (l = x) then y
          else if decide (l = y) then x
          else partner rest l
      | _ => partner rest l
      end
  end.

(** ** Wirings *)

(** How often [k] occurs in [items]. *)
Definition occurrences (k : string) (items : list string) : Z :=
  Z.of_nat (count_occ string_dec items k).

(** The reflector property of the specification: read against the
    alphabet, the wiring [w] sends no letter to itself and sends [y] back
    to [x] whenever it sends [x] to [y]. *)
Definition wired_to (w : list string) (x y : string) : Prop :=
  exists i : nat, genericMapping !! i = Some x /\ w !! i = Some y.

Definition fixed_point_free_involution (w : list string) : Prop :=
  forall x y, wired_to w x y -> x <> y /\ wired_to w y x.

(** A rotor wired with the alphabet itself, as
    [RotorCustom(ring, pos, 'ABCDEFGHIJKLMNOPQRSTUVWXYZ')] builds it. *)
Definition identity_rotor (r : Rotor) : Prop :=
  rotorType r = "notchlessrotor" /\ notch r = [NotchFalse]
  /\ mapping r = genericMapping
  /\ in_range (currentPos r) /\ in_range (ringSetting r).

(** The identity rotor with the given ring setting and position. *)
Definition probe (ring pos : Z) : Rotor :=
  mkRotor "notchlessrotor" "custom" genericMapping (Some ring) (Some pos)
          (Some pos) [NotchFalse].

(** A rotor of the stack whose wiring is a permutation of the alphabet. *)
Definition wired_rotor (r : Rotor) : Prop :=
  class_rotor r /\ mapping r ≡ₚ genericMapping
  /\ in_range (currentPos r) /\ in_range (ringSetting r).

(** A reflector with 26 letters as its wiring. *)
Definition wired_reflector (r : Rotor) : Prop :=
  rotorType r = "reflector" /\ length (mapping r) = 26%nat
  /\ Forall (fun y => y ∈ letters) (mapping r).

(** ** Machines *)

(** A machine ready to encode. *)
Definition ready_machine (m : EnigmaMachine) : Prop :=
  (3 <= length (rotorsList m))%nat
  /\ Forall wired_rotor (rotorsList m)
  /\ (exists board, plugBoard m = Some board /\ proper_board board)
  /\ (exists refl, reflector m = Some refl /\ wired_reflector refl).

(** ** Inputs, offsets and pairings *)

(** Every character of [s] is an ASCII letter. *)
Fixpoint all_letters (s : string) : bool :=
  match s with
  | EmptyString => true
  | String c s' => Py.is_letter c && all_letters s'
  end.

(** The rotor's offset [currentPos - ringSetting] is one for which
    [positionLooper] wraps every index as the remainder modulo 26. *)
Definition within_wrap (r : Rotor) : Prop :=
  match currentPos r, ringSetting r with
  | Some pos, Some ring => -24 <= pos - ring <= 24
  | _, _ => False
  end.

(** A ring setting that keeps the offset within the wrap at every
    position: 2 to 25 as the caller gives it. *)
Definition middle_ring (r : Rotor) : Prop :=
  exists ring, ringSetting r = Some ring /\ 1 <= ring <= 24.

(** The check that a wiring pairs the letters: read against the alphabet,
    no entry is its own letter and every entry is sent back. *)
Definition pairs_letters (w : list string) : bool :=
  forallb
    (fun i =>
       match genericMapping !! i, w !! i with
       | Some x, Some y =>
           bool_decide (x <> y)
           && existsb
                (fun j => bool_decide (genericMapping !! j = Some y /\ w !! j = Some x))
                (seq 0 26)
       | _, _ => true
       end)
    (seq 0 26).

(** A [setup] entry for one of the stock rotors. *)
Definition stock_spec (i : RotorSpec) : Prop :=
  spec_name i ∈ validRotors /\ spec_name i <> "RotorCustom"
  /\ spec_rest i = []
  /\ 1 <= spec_ringSetting i <= 26 /\ spec_initialPos i ∈ letters.

(** A machine for the examples: rotors I, II and III with ring settings
    2, 5 and 11 at A, D and U, reflector B and three leads. *)
Definition sample_setup : result EnigmaMachine :=
  setup EnigmaMachine_init
    [mkRotorSpec "RotorI" 2 "A" 1 []; mkRotorSpec "RotorII" 5 "D" 2 [];
     mkRotorSpec "RotorIII" 11 "U" 3 []]
    (ReflectorName "ReflectorB") (Some "HL MO AJ") 10.

(** * Properties *)

(** ** Python indexing from the end *)

Section PyLists.
Context {A : Type}.
Implicit Types (l : list A) (k : nat).

(** [l[-(k+1)]] is the [k]-th element of the reversed list. *)
Lemma getitem_neg l k :
  Py.getitem l (- Z.of_nat (S k)) =
    match reverse l !! k with
    | Some x => OK x
    | None => Raise IndexError
    end.
Proof.
  unfold Py.getitem, Py.norm_index.
  destruct (Z.ltb_spec (- Z.of_nat (S k)) 0) as [_|]; [|lia].
  destruct (Z.ltb_spec (- Z.of_nat (S k) + Z.of_nat (length l)) 0) as [Hlt|Hge].
  - rewrite lookup_ge_None_2; [done|]. rewrite length_reverse. lia.
  - rewrite reverse_lookup by lia.
    replace (Z.to_nat (- Z.of_nat (S k) + Z.of_nat (length l)))
      with (length l - S k)%nat by lia.
    done.
Qed.

Lemma reverse_insert l k x :
  (k < length l)%nat ->
  reverse (<[k := x]> l) = <[(length l - S k)%nat := x]> (reverse l).
Proof.
  intros Hk. apply list_eq; intros i.
  destruct (decide (i < length l)%nat) as [Hi|Hi].
  - rewrite reverse_lookup by (rewrite length_insert; lia).
    rewrite length_insert.
    destruct (decide (i = length l - S k)%nat) as [->|Hne].
    + rewrite list_lookup_insert_eq by (rewrite length_reverse; lia).
      replace (length l - S (length l - S k))%nat with k by lia.
      by rewrite list_lookup_insert_eq.
    + rewrite !list_lookup_insert_ne by lia.
      by rewrite reverse_lookup.
  - rewrite !lookup_ge_None_2;
      rewrite ?length_insert, ?length_reverse, ?length_insert; [done|lia|lia].
Qed.

(** [l[-(k+1)] = x] updates the [k]-th element of the reversed list. *)
Lemma setitem_neg l k x :
  Py.setitem l (- Z.of_nat (S k)) x =
    if decide (k < length l)%nat
    then OK (reverse (<[k := x]> (reverse l)))
    else Raise IndexError.
Proof.
  unfold Py.setitem, Py.norm_index.
  destruct (Z.ltb_spec (- Z.of_nat (S k)) 0) as [_|]; [|lia].
  destruct (decide (k < length l)%nat) as [Hk|Hk].
  - destruct (Z.ltb_spec (- Z.of_nat (S k) + Z.of_nat (length l)) 0); [lia|].
    destruct (Z.leb_spec (Z.of_nat (length l))
                (- Z.of_nat (S k) + Z.of_nat (length l))); [lia|].
    simpl. f_equal.
    rewrite reverse_insert by (rewrite length_reverse; lia).
    rewrite reverse_involutive, length_reverse. f_equal. lia.
  - destruct (Z.ltb_spec (- Z.of_nat (S k) + Z.of_nat (length l)) 0); [done|lia].
Qed.

(** A non-negative index inside the list. *)
Lemma getitem_nonneg l (i : Z) x :
  0 <= i -> l !! Z.to_nat i = Some x -> Py.getitem l i = OK x.
Proof.
  intros Hi Hx. unfold Py.getitem, Py.norm_index.
  destruct (Z.ltb_spec i 0); [lia|].
  cbv zeta. destruct (Z.ltb_spec i 0); [lia|].
  by rewrite Hx.
Qed.

End PyLists.

Lemma getitem_last {A} (l : list A) :
  Py.getitem l (-1) = match last l with Some x => OK x | None => Raise IndexError end.
Proof.
  change (-1) with (- Z.of_nat 1). rewrite getitem_neg.
  by rewrite <- head_lookup, head_reverse.
Qed.

Lemma getitem_cons {A} (a : A) (l : list A) (j : Z) :
  0 <= j -> Py.getitem (a :: l) (1 + j) = Py.getitem l j.
Proof.
  intros Hj. unfold Py.getitem, Py.norm_index.
  destruct (Z.ltb_spec (1 + j) 0), (Z.ltb_spec j 0); try lia.
  cbv zeta. destruct (Z.ltb_spec (1 + j) 0), (Z.ltb_spec j 0); try lia.
  replace (Z.to_nat (1 + j)) with (S (Z.to_nat j)) by lia. done.
Qed.

Lemma index_from_shift (x : string) (l : list string) (k : Z) :
  Py.index_from x l k = (i ← Py.index_from x l 0; OK (k + i)).
Proof.
  revert k. induction l as [|y l IH]; intros k; simpl; [done|].
  destruct (decide (y = x)); simpl; [f_equal; lia|].
  rewrite IH, (IH (0 + 1)).
  destruct (Py.index_from x l 0); simpl; [f_equal; lia|done].
Qed.

Lemma index_in (l : list string) (x : string) :
  x ∈ l ->
  exists i : nat, Py.index l x = OK (Z.of_nat i) /\ l !! i = Some x.
Proof.
  unfold Py.index. induction l as [|y l IH]; intros Hx; [by apply elem_of_nil in Hx|].
  simpl. destruct (decide (y = x)) as [->|Hne].
  - by exists 0%nat.
  - apply elem_of_cons in Hx as [->|Hx]; [done|].
    destruct (IH Hx) as (i & Hi & Hl). exists (S i).
    rewrite index_from_shift, Hi. simpl. split; [f_equal; lia|done].
Qed.

Lemma index_bounds (l : list string) (x : string) :
  x ∈ l ->
  exists i, Py.index l x = OK i /\ 0 <= i < Z.of_nat (length l)
            /\ l !! Z.to_nat i = Some x.
Proof.
  intros Hx. destruct (index_in l x Hx) as (i & Hi & Hl).
  exists (Z.of_nat i). split; [done|]. rewrite Nat2Z.id. split; [|done].
  apply lookup_lt_Some in Hl. lia.
Qed.

Lemma insert_Forall {A} (P : A -> Prop) (l : list A) (i : Z) (x : A) :
  Forall P l -> P x -> Forall P (Py.insert l i x).
Proof.
  intros Hl Hx. unfold Py.insert. apply Forall_app. split.
  - by apply Forall_take.
  - apply Forall_cons. split; [done|by apply Forall_drop].
Qed.

Lemma insert_length {A} (l : list A) (i : Z) (x : A) :
  length (Py.insert l i x) = S (length l).
Proof.
  unfold Py.insert. rewrite length_app. cbn [length].
  rewrite length_take, length_drop. lia.
Qed.

Lemma chars_length (s : string) : Z.of_nat (length (Py.chars s)) = Py.len s.
Proof. unfold Py.len. f_equal. induction s; simpl; congruence. Qed.

(** ** The loops *)

Lemma for_each_idle {A S} (body : S -> A -> result S) (s : S) (l : list A) :
  Forall (fun x => body s x = OK s) l -> for_each body s l = OK s.
Proof.
  induction 1 as [|x l Hx _ IH]; simpl; [done|].
  rewrite Hx. exact IH.
Qed.

Lemma for_each_app {A S} (body : S -> A -> result S) (s : S) (l1 l2 : list A) :
  for_each body s (l1 ++ l2) = s' ← for_each body s l1; for_each body s' l2.
Proof.
  revert s. induction l1 as [|x l1 IH]; intros s; simpl; [done|].
  destruct (body s x); simpl; [apply IH|done].
Qed.

Lemma comprehension_fmap {A B} (f : A -> result B) (g : A -> B) (l : list A) :
  Forall (fun x => f x = OK (g x)) l -> comprehension f l = OK (g <$> l).
Proof.
  induction 1 as [|x l Hx _ IH]; simpl; [done|].
  by rewrite Hx, IH.
Qed.

Lemma comprehension_succeeds {A B} (f : A -> result B) (l : list A) :
  Forall (fun x => exists y, f x = OK y) l -> exists ys, comprehension f l = OK ys.
Proof.
  induction 1 as [|x l [y Hy] _ [ys IH]]; simpl; [by eexists|].
  rewrite Hy, IH. by eexists.
Qed.

(** ** The alphabet *)

Lemma genericMapping_lookup (p : Z) :
  0 <= p <= 25 -> exists letter, genericMapping !! Z.to_nat p = Some letter.
Proof.
  intros Hp. apply lookup_lt_is_Some_2. simpl. lia.
Qed.

Lemma genericMapping_getitem (p : Z) :
  0 <= p <= 25 ->
  exists letter, genericMapping !! Z.to_nat p = Some letter
                 /\ Py.getitem genericMapping p = OK letter.
Proof.
  intros Hp. destruct (genericMapping_lookup p Hp) as [letter Hl].
  exists letter. split; [done|]. apply getitem_nonneg; [lia|done].
Qed.

Lemma getitem_alphabet (j : Z) :
  -1 <= j <= 25 ->
  exists letter, Py.getitem genericMapping j = OK letter /\ letter ∈ genericMapping.
Proof.
  intros Hj. destruct (decide (j = -1)) as [->|Hne].
  - exists "Z". split; [done|]. by apply (bool_decide_unpack _).
  - destruct (genericMapping_getitem j) as (letter & Hl & Hg); [lia|].
    exists letter. split; [done|]. by eapply list_elem_of_lookup_2.
Qed.

Lemma alphabet_upper (x : string) : x ∈ genericMapping -> Py.upper x = x.
Proof.
  revert x. apply Forall_forall. apply (bool_decide_unpack _). vm_compute. exact I.
Qed.

Lemma alphabet_letters (x : string) : x ∈ genericMapping -> x ∈ letters.
Proof. intros Hx. unfold letters. apply elem_of_app. by left. Qed.

Lemma letters_validated (element x : string) :
  x ∈ letters ->
  inputValidator encodingElement element x = OK (Py.lower x)
  /\ Py.upper (Py.lower x) = Py.upper x
  /\ Py.lower (Py.upper x) = Py.lower x
  /\ Py.upper x ∈ genericMapping.
Proof.
  revert x. apply Forall_forall.
  apply (bool_decide_unpack _). vm_compute. exact I.
Qed.

Lemma upper_in_letters (x : string) : x ∈ letters -> Py.upper x ∈ letters.
Proof.
  intros Hx. destruct (letters_validated "" x Hx) as (_ & _ & _ & Hin).
  unfold letters. apply elem_of_app. by left.
Qed.

Lemma lower_letters (y : string) : y ∈ letters -> Py.lower y ∈ letters.
Proof.
  revert y. apply Forall_forall. apply (bool_decide_unpack _). vm_compute. exact I.
Qed.

Lemma lowers_validated (element l : string) :
  l ∈ lowers ->
  inputValidator encodingElement element l = OK l
  /\ Py.lower (Py.upper l) = l /\ Py.upper l ∈ genericMapping.
Proof.
  revert l. apply Forall_forall.
  apply (bool_decide_unpack _). vm_compute. exact I.
Qed.

Lemma letters_lowers (element x : string) :
  x ∈ letters ->
  Py.lower x ∈ lowers
  /\ inputValidator encodingElement element x = OK (Py.lower x)
  /\ Py.upper (Py.lower x) = Py.upper x.
Proof.
  revert x. apply Forall_forall.
  apply (bool_decide_unpack _). vm_compute. exact I.
Qed.

Lemma upper_lowers_in_letters (l : string) : l ∈ lowers -> Py.upper l ∈ letters.
Proof.
  intros Hl. destruct (lowers_validated "" l Hl) as (_ & _ & Hin).
  unfold letters. apply elem_of_app. by left.
Qed.

Lemma lower_letter_in_lowers (c : ascii) :
  Py.is_letter c = true -> Py.lower (Py.lower (String c "")) ∈ lowers.
Proof.
  assert (H : implb (Py.is_letter c)
                (bool_decide (Py.lower (Py.lower (String c "")) ∈ lowers)) = true).
  { destruct c as [[] [] [] [] [] [] [] []]; vm_compute; reflexivity. }
  intros Hc. rewrite Hc in H. by apply bool_decide_eq_true_1 in H.
Qed.

(** ** The position wrap *)

(** On the sums the program forms with indices in [0..25], except 50,
    [positionLooper] is the remainder modulo 26. *)
Lemma positionLooper_mod_26 (n : Z) :
  -25 <= n <= 49 -> positionLooper n 25 = n mod 26.
Proof.
  intros Hn. unfold positionLooper.
  destruct (Z.leb_spec 0 n), (Z.leb_spec n 25); simpl.
  - symmetry. apply Z.mod_small. lia.
  - destruct (Z.ltb_spec n 0); [lia|].
    rewrite (Z.mod_eq n 25), (Z.mod_eq n 26) by lia.
    replace (n / 25) with 1 by (apply Z.div_unique with (n - 25); lia).
    replace (n / 26) with 1 by (apply Z.div_unique with (n - 26); lia).
    lia.
  - destruct (Z.ltb_spec n 0); [|lia].
    destruct (decide (n = -25)) as [->|]; [done|].
    rewrite (Z.mod_eq n 25), (Z.mod_eq n 26) by lia.
    replace (n / 25) with (-1) by (apply Z.div_unique with (n + 25); lia).
    replace (n / 26) with (-1) by (apply Z.div_unique with (n + 26); lia).
    lia.
  - lia.
Qed.

Lemma positionLooper_range (n : Z) :
  -25 <= n <= 50 -> -1 <= positionLooper n 25 <= 25.
Proof.
  intros Hn. destruct (decide (n = 50)) as [->|Hne]; [done|].
  rewrite positionLooper_mod_26 by lia.
  pose proof (Z.mod_pos_bound n 26). lia.
Qed.

(** C3, as stated, fails: at [-1] the program returns 25, the rule with
    modulus 26 gives 26. *)
Lemma wrap_rule_modulo_26_fails : ~ wrap_rule_modulo_26 (-1).
Proof.
  intros (_ & Hneg & _). specialize (Hneg ltac:(lia)). vm_compute in Hneg.
  discriminate.
Qed.

(** C3, amended: for every [n] from -25 to 49, [positionLooper n 25] is
    [n] when [0 <= n <= 25], [(n mod 25) + 1] when [n < 0] and
    [(n mod 25) - 1] when [n > 25]; the modulus of the rule is the [base]
    argument, 25, and on this range the result is the remainder of [n]
    modulo 26, a position between 0 and 25. *)
Theorem positionLooper_modulo_25 (n : Z) :
  -25 <= n <= 49 ->
  positionLooper n 25 =
    (if decide (0 <= n <= 25) then n
     else if decide (n < 0) then n mod 25 + 1
     else n mod 25 - 1)
  /\ positionLooper n 25 = n mod 26
  /\ 0 <= positionLooper n 25 <= 25.
Proof.
  intros Hn. split; [|split].
  - unfold positionLooper.
    destruct (decide (0 <= n <= 25)) as [Hin|Hout].
    + destruct (Z.leb_spec 0 n), (Z.leb_spec n 25); simpl; lia.
    + destruct (Z.leb_spec 0 n), (Z.leb_spec n 25); simpl; try lia.
      * destruct (Z.ltb_spec n 0), (decide (n < 0)); lia.
      * destruct (Z.ltb_spec n 0), (decide (n < 0)); lia.
  - by apply positionLooper_mod_26.
  - rewrite positionLooper_mod_26 by done.
    pose proof (Z.mod_pos_bound n 26). lia.
Qed.

Lemma positionLooper_modulo_25_witness :
  positionLooper (-1) 25 = (-1) mod 25 + 1
  /\ positionLooper (-1) 25 = 25
  /\ positionLooper 49 25 = 49 mod 25 - 1
  /\ positionLooper 49 25 = 23.
Proof.
  destruct (positionLooper_modulo_25 (-1)) as (Hrule & Hmod & _); [lia|].
  destruct (positionLooper_modulo_25 49) as (Hrule' & Hmod' & _); [lia|].
  split; [exact Hrule|]. split; [rewrite Hmod; reflexivity|].
  split; [exact Hrule'|]. rewrite Hmod'. reflexivity.
Defined.

(** ** The plugboard's capacity *)

Lemma add_letters_fresh (taken letters current : list string) :
  (forall x, x ∈ letters -> x ∉ taken) ->
  add_letters taken letters current = OK (current ++ letters).
Proof.
  revert current. induction letters as [|x letters IH]; intros current Hfresh; simpl.
  - by rewrite app_nil_r.
  - rewrite bool_decide_eq_false_2 by (apply Hfresh; left).
    rewrite IH by (intros y Hy; apply Hfresh; by right).
    by rewrite <- app_assoc.
Qed.

Lemma add_letters_error (taken letters current : list string) (e : exn) :
  add_letters taken letters current = Raise e ->
  exists x, e = PlugboardError x
    "Already assigned to another PlugLead.Please restart your Enigma Machine for including it.".
Proof.
  revert current. induction letters as [|x letters IH]; intros current; simpl; [done|].
  destruct (bool_decide (x ∈ taken)); [|by apply IH].
  intros [= <-]. by eexists.
Qed.

Lemma add_letters_ok (taken letters current result : list string) :
  add_letters taken letters current = OK result ->
  result = current ++ letters /\ forall x, x ∈ letters -> x ∉ taken.
Proof.
  revert current. induction letters as [|x letters IH]; intros current; simpl.
  - intros [= <-]. split; [by rewrite app_nil_r|]. intros x Hx. by apply elem_of_nil in Hx.
  - destruct (bool_decide (x ∈ taken)) eqn:Hx; [done|].
    apply bool_decide_eq_false_1 in Hx.
    intros H. apply IH in H as [-> Hfresh]. split; [by rewrite <- app_assoc|].
    intros z Hz. apply elem_of_cons in Hz as [->|Hz]; [done|by apply Hfresh].
Qed.

Lemma Plugboard_add_fresh (board : Plugboard) (lead : PlugLead) :
  Z.of_nat (length (plugLeads board)) <> numPlugLeads board ->
  (forall x, x ∈ lettersList lead -> x ∉ plugLeadsLetters board) ->
  Plugboard_add board lead =
    OK (mkPlugboard (plugLeadsLetters board ++ lettersList lead)
                    (plugLeads board ++ [lead]) (numPlugLeads board)).
Proof.
  intros Hcap Hfresh. unfold Plugboard_add.
  destruct (Z.eqb_spec (Z.of_nat (length (plugLeads board))) (numPlugLeads board));
    [done|].
  by rewrite add_letters_fresh.
Qed.

Lemma add_fresh_leads (board : Plugboard) (leads : list PlugLead) :
  numPlugLeads board < 0 ->
  fresh_leads (plugLeadsLetters board) leads = true ->
  for_each Plugboard_add board leads =
    OK (mkPlugboard (plugLeadsLetters board ++ concat (lettersList <$> leads))
                    (plugLeads board ++ leads) (numPlugLeads board)).
Proof.
  revert board. induction leads as [|lead leads IH]; intros board Hneg Hfresh.
  - simpl. rewrite !app_nil_r. by destruct board.
  - simpl in Hfresh. apply andb_prop in Hfresh as [Hlead Hrest]. simpl.
    rewrite Plugboard_add_fresh.
    2:{ lia. }
    2:{ intros x Hx. rewrite forallb_forall in Hlead.
        apply list_elem_of_In, Hlead in Hx. by apply bool_decide_eq_true_1 in Hx. }
    cbn [mbind result_bind]. rewrite IH by done. simpl.
    by rewrite <- !app_assoc.
Qed.

(** C10: the constructor rejects a capacity exactly when it is greater
    than 13, so 0 and the negative capacities are accepted; on a board of
    negative capacity [add] never raises the capacity error, and any
    number of leads with disjoint letters can be added. *)
Theorem Plugboard_negative_capacity (n : Z) :
  Plugboard_init n =
    (if decide (n > 13)
     then Raise (ValueError "{} - > [Plugboad] Number of PlugLeads cannot be greater than 13")
     else OK (mkPlugboard [] [] n))
  /\ (n < 0 ->
      (forall board lead c,
          numPlugLeads board = n ->
          Plugboard_add board lead <> Raise (PlugboardError c capacity_message))
      /\ (forall leads,
            fresh_leads [] leads = true ->
            exists board,
              for_each Plugboard_add (mkPlugboard [] [] n) leads = OK board
              /\ plugLeads board = leads /\ numPlugLeads board = n)).
Proof.
  split.
  - unfold Plugboard_init. destruct (Z.gtb_spec n 13), (decide (n > 13)); done || lia.
  - intros Hneg. split.
    + intros board lead c Hcap. unfold Plugboard_add.
      destruct (Z.eqb_spec (Z.of_nat (length (plugLeads board))) (numPlugLeads board));
        [lia|].
      destruct (add_letters _ _ _) as [cur|e] eqn:Hadd; [done|].
      apply add_letters_error in Hadd as [x ->]. unfold capacity_message. by intros [=].
    + intros leads Hfresh. eexists. split; [|split].
      * by apply (add_fresh_leads (mkPlugboard [] [] n)).
      * done.
      * done.
Qed.

(** Thirteen leads go onto a board of capacity [-1]. *)
Lemma Plugboard_negative_capacity_witness :
  exists board,
    for_each Plugboard_add (mkPlugboard [] [] (-1))
      (mkPlugLead <$> [["a"; "b"]; ["c"; "d"]; ["e"; "f"]; ["g"; "h"];
                       ["i"; "j"]; ["k"; "l"]; ["m"; "n"]; ["o"; "p"];
                       ["q"; "r"]; ["s"; "t"]; ["u"; "v"]; ["w"; "x"];
                       ["y"; "z"]]) = OK board
    /\ Z.of_nat (length (plugLeads board)) = 13.
Proof.
  destruct (Plugboard_negative_capacity (-1)) as [_ H].
  destruct (H ltac:(lia)) as [_ Hleads].
  edestruct Hleads as (board & Hb & Hl & _); [|exists board; split; [exact Hb|]].
  - reflexivity.
  - rewrite Hl. reflexivity.
Defined.

(** ** The plugboard as a pairing *)

Lemma PlugLead_encode_proper (lead : PlugLead) (x y l : string) :
  lettersList lead = [x; y] -> x <> y -> l ∈ lowers ->
  PlugLead_encode lead l =
    OK (Py.upper (if decide (l = x) then y else if decide (l = y) then x else l)).
Proof.
  intros Hlead Hxy Hl. unfold PlugLead_encode.
  destruct (lowers_validated "PlugLead" l Hl) as (-> & _). cbn [mbind result_bind].
  rewrite Hlead.
  destruct (decide (l = x)) as [->|Hx]; [|destruct (decide (l = y)) as [->|Hy]].
  - rewrite bool_decide_eq_false_2 by (intros H; apply H; left).
    rewrite filter_cons_False by (by intros H; apply H).
    rewrite filter_cons_True by done. rewrite filter_nil. done.
  - rewrite bool_decide_eq_false_2 by (intros H; apply H; right; left).
    rewrite filter_cons_True by done.
    rewrite filter_cons_False by (by intros H; apply H). rewrite filter_nil. done.
  - rewrite bool_decide_eq_true_2; [done|].
    rewrite !elem_of_cons, elem_of_nil. by intros [?|[?|?]].
Qed.

Lemma partner_lookup (leads : list PlugLead) (l : string) :
  Forall proper_lead leads -> l ∈ lowers ->
  (if bool_decide (l ∈ concat (lettersList <$> leads)) then
     i ← Py.index (concat (lettersList <$> leads)) l;
     lead ← Py.getitem leads (i / 2);
     PlugLead_encode lead l
   else OK (Py.upper l))
  = OK (Py.upper (partner leads l)).
Proof.
  intros Hleads Hl. induction Hleads as [|lead rest Hlead _ IH].
  - cbn [fmap list_fmap concat partner].
    rewrite bool_decide_eq_false_2; [done|]. apply not_elem_of_nil.
  - destruct Hlead as (x & y & Hxy & Hne & Hx & Hy).
    cbn [fmap list_fmap concat partner]. rewrite Hxy. cbn [app].
    set (rest_letters := concat (lettersList <$> rest)) in *.
    destruct (decide (l = x)) as [->|Hlx]; [|destruct (decide (l = y)) as [->|Hly]].
    + rewrite bool_decide_eq_true_2 by left.
      unfold Py.index. cbn [Py.index_from]. rewrite decide_True by done.
      cbn [mbind result_bind]. change (0 / 2) with 0.
      rewrite (getitem_nonneg _ 0 lead) by done. cbn [mbind result_bind].
      rewrite (PlugLead_encode_proper lead x y) by done. by rewrite decide_True.
    + rewrite bool_decide_eq_true_2 by (right; left).
      unfold Py.index. cbn [Py.index_from].
      rewrite decide_False by done. rewrite decide_True by done.
      cbn [mbind result_bind]. change ((0 + 1) / 2) with 0.
      rewrite (getitem_nonneg _ 0 lead) by done. cbn [mbind result_bind].
      rewrite (PlugLead_encode_proper lead x y) by done.
      rewrite decide_False by done. by rewrite decide_True.
    + rewrite <- IH.
      destruct (decide (l ∈ rest_letters)) as [Hin|Hnin].
      * rewrite !bool_decide_eq_true_2; [|done|by do 2 right].
        destruct (index_in _ _ Hin) as (i & Hi & _). rewrite Hi.
        unfold Py.index in *. cbn [Py.index_from].
        rewrite !decide_False by done.
        rewrite index_from_shift, Hi. cbn [mbind result_bind].
        replace ((0 + 1 + 1 + Z.of_nat i) / 2) with (1 + Z.of_nat i / 2).
        2:{ replace (0 + 1 + 1 + Z.of_nat i) with (Z.of_nat i + 1 * 2) by lia.
            rewrite Z.div_add by lia. lia. }
        rewrite getitem_cons; [done|]. apply Z.div_pos; lia.
      * rewrite !bool_decide_eq_false_2; [done|done|].
        rewrite !elem_of_cons. by intros [?|[?|?]].
Qed.

Lemma Plugboard_encode_proper (board : Plugboard) (l : string) :
  proper_board board -> l ∈ lowers ->
  Plugboard_encode board l = OK (Py.upper (partner (plugLeads board) l)).
Proof.
  intros (Hleads & Hletters & _) Hl. unfold Plugboard_encode.
  destruct (lowers_validated "Plugboard" l Hl) as (-> & _). cbn [mbind result_bind].
  rewrite Hletters. by apply partner_lookup.
Qed.

Lemma partner_cases (leads : list PlugLead) (l : string) :
  Forall proper_lead leads ->
  (partner leads l = l /\ l ∉ concat (lettersList <$> leads))
  \/ (partner leads l ∈ concat (lettersList <$> leads)
      /\ l ∈ concat (lettersList <$> leads) /\ partner leads l <> l).
Proof.
  induction 1 as [|lead rest (x & y & Hxy & Hne & Hx & Hy) _ IH].
  - left. split; [done|apply not_elem_of_nil].
  - cbn [fmap list_fmap concat partner]. rewrite Hxy. cbn [app].
    destruct (decide (l = x)) as [->|Hlx]; [|destruct (decide (l = y)) as [->|Hly]].
    + right. split; [right; left|split; [left|done]].
    + right. split; [left|split; [right; left|done]].
    + destruct IH as [[-> Hnin]|(Hin & Hlin & Hp)].
      * left. split; [done|]. rewrite !elem_of_cons. by intros [?|[?|?]].
      * right. split; [by do 2 right|split; [by do 2 right|done]].
Qed.

Lemma partner_involutive (leads : list PlugLead) (l : string) :
  Forall proper_lead leads -> NoDup (concat (lettersList <$> leads)) ->
  partner leads (partner leads l) = l.
Proof.
  induction 1 as [|lead rest (x & y & Hxy & Hne & Hx & Hy) Hrest IH]; [done|].
  cbn [fmap list_fmap concat partner]. rewrite Hxy. cbn [app]. intros Hnd.
  apply NoDup_cons in Hnd as [Hxnin Hnd]. apply NoDup_cons in Hnd as [Hynin Hnd].
  destruct (decide (l = x)) as [->|Hlx]; [|destruct (decide (l = y)) as [->|Hly]].
  - rewrite decide_False by done. by rewrite decide_True.
  - by rewrite decide_True.
  - assert (partner rest l <> x /\ partner rest l <> y) as [Hpx Hpy].
    { destruct (partner_cases rest l Hrest) as [[-> _]|(Hin & _)]; [done|].
      split; intros Heq; rewrite Heq in Hin; [|done].
      apply Hxnin. by right. }
    rewrite !decide_False by done. by apply IH.
Qed.

Lemma partner_lower (leads : list PlugLead) (l : string) :
  Forall proper_lead leads -> l ∈ lowers -> partner leads l ∈ lowers.
Proof.
  induction 1 as [|lead rest (x & y & Hxy & Hne & Hx & Hy) _ IH]; [done|].
  intros Hl. cbn [partner]. rewrite Hxy.
  destruct (decide (l = x)); [done|]. destruct (decide (l = y)); [done|]. by apply IH.
Qed.

Lemma Plugboard_encode_lower (board : Plugboard) (x : string) :
  x ∈ letters -> Plugboard_encode board x = Plugboard_encode board (Py.lower x).
Proof.
  intros Hx. unfold Plugboard_encode.
  destruct (letters_lowers "Plugboard" x Hx) as (Hl & -> & _).
  by destruct (lowers_validated "Plugboard" _ Hl) as (-> & _).
Qed.

Lemma Plugboard_involution (board : Plugboard) (x : string) :
  proper_board board -> x ∈ letters ->
  exists y,
    Plugboard_encode board x = OK y
    /\ Plugboard_encode board y = OK (Py.upper x)
    /\ y = Py.upper (partner (plugLeads board) (Py.lower x))
    /\ (Py.lower x ∉ plugLeadsLetters board -> y = Py.upper x).
Proof.
  intros Hboard Hx.
  destruct (letters_lowers "" x Hx) as (Hl & _ & Hup).
  pose proof Hboard as (Hleads & Hletters & Hnd).
  set (p := partner (plugLeads board) (Py.lower x)).
  assert (Hp : p ∈ lowers) by (by apply partner_lower).
  exists (Py.upper p). split; [|split; [|split]].
  - rewrite Plugboard_encode_lower by done. by apply Plugboard_encode_proper.
  - rewrite Plugboard_encode_lower by (by apply upper_lowers_in_letters).
    destruct (lowers_validated "" p Hp) as (_ & -> & _).
    rewrite Plugboard_encode_proper by done. unfold p.
    rewrite partner_involutive; [by rewrite Hup|done|by rewrite <- Hletters].
  - done.
  - intros Hnin. rewrite Hletters in Hnin.
    destruct (partner_cases (plugLeads board) (Py.lower x) Hleads)
      as [[Heq _]|(_ & Hin & _)]; [|done].
    unfold p. by rewrite Heq, Hup.
Qed.

Lemma Plugboard_encode_total (board : Plugboard) (x : string) :
  proper_board board -> x ∈ letters ->
  exists y, Plugboard_encode board x = OK y /\ y ∈ genericMapping.
Proof.
  intros Hboard Hx.
  destruct (Plugboard_involution board x Hboard Hx) as (y & Hy & _ & -> & _).
  eexists. split; [exact Hy|].
  destruct (letters_lowers "" x Hx) as (Hl & _).
  destruct Hboard as (Hleads & _).
  pose proof (partner_lower _ _ Hleads Hl) as Hp.
  by destruct (lowers_validated "" _ Hp) as (_ & _ & ?).
Qed.

Lemma Plugboard_encode_unwired (board : Plugboard) (x : string) :
  plugLeadsLetters board = [] -> x ∈ ["A"; "B"; "a"; "b"] ->
  Plugboard_encode board x = OK (Py.upper x).
Proof.
  intros Hempty Hx. unfold Plugboard_encode. rewrite Hempty.
  repeat (apply elem_of_cons in Hx as [->|Hx]; [reflexivity|]).
  by apply elem_of_nil in Hx.
Qed.

Lemma Plugboard_init_proper (n : Z) (board : Plugboard) :
  Plugboard_init n = OK board -> proper_board board.
Proof.
  unfold Plugboard_init. destruct (n >? 13); [done|]. intros [= <-].
  repeat split; [apply Forall_nil_2|apply NoDup_nil_2].
Qed.

Lemma Plugboard_add_proper (board board' : Plugboard) (lead : PlugLead) :
  proper_board board -> proper_lead lead ->
  Plugboard_add board lead = OK board' -> proper_board board'.
Proof.
  intros (Hleads & Hletters & Hnd) Hlead. unfold Plugboard_add.
  destruct (_ =? _); [done|].
  destruct (add_letters _ _ _) as [current|] eqn:Hadd; [|done].
  apply add_letters_ok in Hadd as [-> Hfresh]. intros [= <-].
  destruct Hlead as (x & y & Hxy & Hne & Hx & Hy).
  split; [|split]; cbn [plugLeads plugLeadsLetters].
  - apply Forall_app. split; [done|]. apply Forall_singleton. by exists x, y.
  - rewrite fmap_app, concat_app, Hletters. simpl. by rewrite app_nil_r.
  - apply NoDup_app. split; [done|]. split.
    + intros z Hz Hz'. by apply (Hfresh z).
    + rewrite Hxy. apply NoDup_cons. split.
      * by intros ->%list_elem_of_singleton.
      * apply NoDup_singleton.
Qed.

Lemma PlugLead_init_letters (s : string) (lead : PlugLead) :
  PlugLead_init s = OK lead ->
  exists x y, lettersList lead = [x; y] /\ x ∈ lowers /\ y ∈ lowers.
Proof.
  unfold PlugLead_init, inputValidator.
  destruct (Z.gtb_spec (Py.len s) (Py.len (Py.letters_only s))) as [|Hle]; [done|].
  destruct (Z.eqb_spec (Py.len (Py.letters_only s)) 2) as [H2|]; [|done].
  cbn [negb]. destruct (bool_decide _); [done|]. cbn [mbind result_bind].
  intros [= <-]. cbn [lettersList].
  destruct s as [|c1 [|c2 [|c3 s]]].
  - done.
  - exfalso. revert H2. unfold Py.len. cbn. destruct (Py.is_letter c1); cbn; lia.
  - assert (Py.is_letter c1 = true /\ Py.is_letter c2 = true) as [H1 H2'].
    { revert Hle H2. unfold Py.len. cbn.
      destruct (Py.is_letter c1), (Py.is_letter c2); cbn; (done || lia). }
    cbn [Py.letters_only]. rewrite H1, H2'.
    eexists _, _. split; [reflexivity|].
    split; [apply (lower_letter_in_lowers c1 H1)|apply (lower_letter_in_lowers c2 H2')].
  - exfalso. revert Hle H2. unfold Py.len. cbn [String.length]. lia.
Qed.

Lemma PlugLead_init_proper (s : string) (lead : PlugLead) :
  PlugLead_init s = OK lead -> NoDup (lettersList lead) -> proper_lead lead.
Proof.
  intros Hinit Hnd. destruct (PlugLead_init_letters s lead Hinit) as (x & y & Hxy & Hx & Hy).
  exists x, y. repeat split; try done.
  rewrite Hxy in Hnd. apply NoDup_cons in Hnd as [Hnin _].
  intros ->. apply Hnin. left.
Qed.

(** C7 does not hold of the program: [PlugLead("Aa")] passes the
    different-letters test, which compares the letters before they are
    lowered, and holds [a] twice; [encode] of [a] on a board with that lead
    raises [IndexError]. *)
Lemma Plugboard_encode_same_letter_lead :
  (lead ← PlugLead_init "Aa";
   board ← Plugboard_init 10;
   board ← Plugboard_add board lead;
   OK (lettersList lead, plugLeadsLetters board, Plugboard_encode board "a"))
  = OK (["a"; "a"], ["a"; "a"], Raise IndexError).
Proof. vm_compute. reflexivity. Qed.

(** ** The repeated-letter check of the custom classes *)

Lemma fromkeys_lookup (keys : list string) (v : Z) (k : string) :
  fromkeys keys v !! k = if decide (k ∈ keys) then Some v else None.
Proof.
  unfold fromkeys.
  assert (H : forall d : gmap string Z,
    foldl (fun d k => <[k := v]> d) d keys !! k =
      if decide (k ∈ keys) then Some v else d !! k).
  { induction keys as [|x keys IH]; intros d.
    - destruct (decide (k ∈ [])) as [Hin|_]; [|done]. by apply elem_of_nil in Hin.
    - cbn [foldl]. rewrite IH.
      destruct (decide (k ∈ keys)) as [Hin|Hnin], (decide (k ∈ x :: keys)) as [Hin'|Hnin'];
        try done.
      + exfalso. apply Hnin'. by right.
      + apply elem_of_cons in Hin' as [->|]; [|done]. by rewrite lookup_insert_eq.
      + rewrite lookup_insert_ne; [done|]. intros ->. apply Hnin'. by left. }
  rewrite H. by rewrite lookup_empty.
Qed.

Lemma count_loop_lookup (items : list string) (d : gmap string Z) (k : string) :
  foldl (fun d i => alter (fun n => n + 1) i d) d items !! k =
    (fun n => n + occurrences k items) <$> d !! k.
Proof.
  unfold occurrences.
  revert d. induction items as [|x items IH]; intros d; simpl.
  - destruct (d !! k); simpl; [|done]. f_equal. lia.
  - rewrite IH. destruct (string_dec x k) as [->|Hne].
    + rewrite lookup_alter_eq. destruct (d !! k); simpl; [|done]. f_equal. lia.
    + rewrite lookup_alter_ne by done. done.
Qed.

Lemma count_elements_lookup (items : list string) (k : string) :
  count_elements items !! k =
    if decide (k ∈ items) then Some (occurrences k items) else None.
Proof.
  unfold count_elements. rewrite count_loop_lookup, fromkeys_lookup.
  destruct (decide (k ∈ items)); simpl; [|done]. done.
Qed.

Lemma count_values (items : list string) (v : Z) :
  v ∈ (snd <$> map_to_list (count_elements items)) <->
  exists k, k ∈ items /\ v = occurrences k items.
Proof.
  rewrite list_elem_of_fmap. split.
  - intros ([k v'] & -> & Hkv). apply elem_of_map_to_list in Hkv.
    rewrite count_elements_lookup in Hkv.
    destruct (decide (k ∈ items)); [|done]. exists k. split; [done|]. simpl. congruence.
  - intros (k & Hk & ->). exists (k, occurrences k items). split; [done|].
    apply elem_of_map_to_list. rewrite count_elements_lookup.
    by rewrite decide_True.
Qed.

Lemma sorted_last_max (l : list Z) (top : Z) :
  StronglySorted Z.le l -> last l = Some top -> forall v, v ∈ l -> v <= top.
Proof.
  induction 1 as [|x l Hl IH Hx]; [done|].
  intros Hlast v Hv. destruct l as [|y l'].
  - simpl in Hlast. injection Hlast as <-. apply list_elem_of_singleton in Hv. lia.
  - rewrite last_cons_cons in Hlast.
    apply elem_of_cons in Hv as [->|Hv]; [|by apply IH].
    assert (x <= y).
    { rewrite Forall_forall in Hx. apply Hx. left. }
    assert (y <= top) by (apply IH; [done|left]). lia.
Qed.

Lemma repeats_letters_spec (items : list string) :
  items <> [] ->
  repeats_letters items = OK (bool_decide (~ NoDup items)).
Proof.
  intros Hne. unfold repeats_letters.
  set (values := snd <$> map_to_list (count_elements items)).
  set (sorted := merge_sort Z.le values).
  assert (Hperm : sorted ≡ₚ values) by apply merge_sort_Permutation.
  assert (Hsorted : StronglySorted Z.le sorted).
  { apply StronglySorted_merge_sort; apply _. }
  rewrite getitem_last.
  destruct (last sorted) as [top|] eqn:Hlast.
  2:{ apply last_None in Hlast. exfalso.
      destruct items as [|k items]; [done|].
      assert (occurrences k (k :: items) ∈ values) as Hin.
      { apply count_values. exists k. split; [left|done]. }
      rewrite <- Hperm, Hlast in Hin. by apply elem_of_nil in Hin. }
  cbn [mbind result_bind]. f_equal.
  assert (Htop : top ∈ values).
  { rewrite <- Hperm. by apply last_Some_elem_of. }
  apply count_values in Htop as (k & Hk & Htop).
  destruct (Z.gtb_spec top 1) as [Hgt|Hle]; symmetry.
  - apply bool_decide_eq_true_2. intros Hnd.
    apply NoDup_ListNoDup in Hnd.
    pose proof (proj1 (NoDup_count_occ string_dec items) Hnd k) as Hk1.
    unfold occurrences in Htop. lia.
  - apply bool_decide_eq_false_2. intros Hnd. apply Hnd.
    apply NoDup_ListNoDup, (proj2 (NoDup_count_occ string_dec items)). intros x.
    destruct (decide (x ∈ items)) as [Hx|Hx].
    + assert (occurrences x items <= top).
      { apply (sorted_last_max sorted); [done..|].
        rewrite Hperm. apply count_values. by exists x. }
      unfold occurrences in *. lia.
    + rewrite (proj1 (count_occ_not_In string_dec items x)); [lia|].
      by rewrite <- list_elem_of_In.
Qed.

(** C8, as stated, fails: the alphabet itself, where every letter is a
    fixed point, is accepted as a reflector wiring. *)
Lemma ReflectorCustom_accepts_identity :
  Py.len "ABCDEFGHIJKLMNOPQRSTUVWXYZ" = 26
  /\ ~ fixed_point_free_involution (Py.chars "ABCDEFGHIJKLMNOPQRSTUVWXYZ")
  /\ exists r, ReflectorCustom "ABCDEFGHIJKLMNOPQRSTUVWXYZ" = OK r.
Proof.
  split; [reflexivity|]. split.
  - intros H. destruct (H "A" "A") as [Hne _]; [|done].
    exists 0%nat. split; reflexivity.
  - eexists. vm_compute. reflexivity.
Qed.

(** C8, amended: [ReflectorCustom] checks only that its wiring repeats no
    letter.  A 26-letter wiring with a repeated letter fails at
    construction with the repeated-letters error; every 26-letter wiring
    without one is accepted, whatever it maps the letters to. *)
Theorem ReflectorCustom_rejects_repeats (mapping : string) :
  Py.len mapping = 26 ->
  ReflectorCustom mapping =
    if decide (NoDup (Py.chars mapping))
    then OK (set_notch_mapping (Rotor_init_reflector "custom") [NotchFalse]
               (Py.chars mapping))
    else Raise (ValueError "Mapping cannot repeat letters.").
Proof.
  intros Hlen. unfold ReflectorCustom.
  rewrite repeats_letters_spec.
  2:{ intros Hnil. rewrite <- chars_length, Hnil in Hlen. done. }
  cbn [mbind result_bind].
  destruct (decide (NoDup (Py.chars mapping))) as [Hnd|Hnd].
  - rewrite bool_decide_eq_false_2; [done|]. by intros H.
  - by rewrite bool_decide_eq_true_2.
Qed.

Lemma ReflectorCustom_rejects_repeats_witness :
  Py.len "ABCDEFGHIJKLMNOPQRSTUVWXYA" = 26
  /\ ReflectorCustom "ABCDEFGHIJKLMNOPQRSTUVWXYA"
     = Raise (ValueError "Mapping cannot repeat letters.").
Proof.
  split; [reflexivity|].
  rewrite (ReflectorCustom_rejects_repeats "ABCDEFGHIJKLMNOPQRSTUVWXYA" eq_refl).
  reflexivity.
Defined.

(** ** One letter through a rotor *)

Lemma Rotor_encode_fields (r r' : Rotor) (x d : string) :
  rotorType r <> "reflector" -> rotorType r' <> "reflector" ->
  mapping r = mapping r' -> currentPos r = currentPos r' ->
  ringSetting r = ringSetting r' ->
  Rotor_encode r x d = Rotor_encode r' x d.
Proof.
  intros Hr Hr' Hm Hp Hg. unfold Rotor_encode.
  rewrite (bool_decide_eq_false_2 (rotorType r = "reflector")) by done.
  rewrite (bool_decide_eq_false_2 (rotorType r' = "reflector")) by done.
  by rewrite Hm, Hp, Hg.
Qed.

Lemma Rotor_encode_upper (r : Rotor) (x d : string) :
  x ∈ letters -> Rotor_encode r x d = Rotor_encode r (Py.upper x) d.
Proof.
  intros Hx. unfold Rotor_encode.
  destruct (letters_validated "" x Hx) as (-> & _ & Hlow & _).
  destruct (letters_validated "" (Py.upper x) (upper_in_letters x Hx)) as (-> & _).
  by rewrite Hlow.
Qed.

Lemma Rotor_encode_direction (r : Rotor) (x d : string) :
  d <> "right" -> Rotor_encode r x d = Rotor_encode r x "left".
Proof.
  intros Hd. unfold Rotor_encode.
  by rewrite (bool_decide_eq_false_2 (d = "right")) by done.
Qed.

(** Only the difference of position and ring setting matters. *)
Lemma probe_offset (ring pos : Z) (x d : string) :
  0 <= pos <= 25 -> 0 <= ring <= 25 ->
  Rotor_encode (probe ring pos) x d = Rotor_encode (probe 0 (pos - ring)) x d.
Proof.
  intros Hpos Hring. unfold Rotor_encode.
  destruct (inputValidator encodingElement "" x) as [letterInput|]; [|done].
  cbn [mbind result_bind probe rotorType currentPos ringSetting mapping int_of].
  rewrite !(bool_decide_eq_false_2 ("notchlessrotor" = "reflector")) by done.
  destruct (genericMapping_getitem pos Hpos) as (l1 & _ & ->).
  assert (exists l2, Py.getitem genericMapping (pos - ring) = OK l2) as [l2 ->].
  { destruct (Z.ltb_spec (pos - ring) 0) as [Hneg|Hnn].
    - replace (pos - ring) with (- Z.of_nat (S (Z.to_nat (ring - pos - 1)))) by lia.
      rewrite getitem_neg.
      destruct (lookup_lt_is_Some_2 (reverse genericMapping) (Z.to_nat (ring - pos - 1)))
        as [l2 ->]; [|by eexists].
      rewrite length_reverse. simpl. lia.
    - destruct (genericMapping_getitem (pos - ring)) as (l2 & _ & ->); [lia|by eexists]. }
  cbn [mbind result_bind]. by rewrite Z.sub_0_r.
Qed.

Lemma identity_rotor_transparent_elsewhere (r : Rotor) (pos ring : Z) (x d : string) :
  identity_rotor r -> currentPos r = Some pos -> ringSetting r = Some ring ->
  x ∈ letters ->
  (pos - ring, Py.upper x) ∉ [(25, "Z"); (-25, "Y")] ->
  Rotor_encode r x d = OK (Py.upper x).
Proof.
  intros (Htype & _ & Hmap & Hpos & Hring) Hp Hg Hx Hbad.
  assert (Hall : Forall (fun offset => Forall (fun x =>
            (offset, x) ∈ [(25, "Z"); (-25, "Y")]
            \/ (Rotor_encode (probe 0 offset) x "right" = OK x
                /\ Rotor_encode (probe 0 offset) x "left" = OK x))
            genericMapping) (seqZ (-25) 51)).
  { apply (bool_decide_unpack _). vm_compute. exact I. }
  destruct Hpos as (pos' & Hp' & Hpos). destruct Hring as (ring' & Hg' & Hring).
  assert (pos' = pos) as -> by congruence. assert (ring' = ring) as -> by congruence.
  rewrite Forall_seqZ in Hall. specialize (Hall (pos - ring) ltac:(lia)).
  destruct (letters_validated "" x Hx) as (_ & _ & _ & Hup).
  rewrite Forall_forall in Hall. destruct (Hall _ Hup) as [Hin|[Hright Hleft]]; [done|].
  rewrite Rotor_encode_upper by done.
  rewrite (Rotor_encode_fields r (probe ring pos)); try done.
  2:{ by rewrite Htype. }
  rewrite probe_offset by done.
  destruct (decide (d = "right")) as [->|Hd]; [done|].
  by rewrite Rotor_encode_direction.
Qed.

Lemma identity_rotor_passes_A_B (r : Rotor) (x d : string) :
  identity_rotor r ->
  x ∈ ["A"; "B"; "a"; "b"] ->
  Rotor_encode r x d = OK (Py.upper x).
Proof.
  intros Hid Hx.
  destruct Hid as (Htype & Hn & Hmap & (pos & Hp & Hpos) & (ring & Hg & Hring)).
  apply (identity_rotor_transparent_elsewhere r pos ring).
  - repeat split; try done; by eexists.
  - done.
  - done.
  - repeat (apply elem_of_cons in Hx as [->|Hx]; [by apply (bool_decide_unpack _)|]).
    by apply elem_of_nil in Hx.
  - repeat (apply elem_of_cons in Hx as [->|Hx];
            [intros Hin; repeat (apply elem_of_cons in Hin as [[= ]|Hin]);
             by apply elem_of_nil in Hin|]).
    by apply elem_of_nil in Hx.
Qed.

Lemma identity_rotors_pass (rotors : list Rotor) (x d : string) :
  Forall identity_rotor rotors ->
  x ∈ ["A"; "B"] ->
  for_each (fun e r => Rotor_encode r e d) x rotors = OK x.
Proof.
  intros Hall Hx.
  assert (Hx' : x ∈ ["A"; "B"; "a"; "b"] /\ Py.upper x = x).
  { apply elem_of_cons in Hx as [->|Hx]; [split; [left|done]|].
    apply list_elem_of_singleton in Hx as ->. split; [right; left|done]. }
  destruct Hx' as [Hx' Hup].
  induction Hall as [|r rotors Hr _ IH]; simpl; [done|].
  rewrite identity_rotor_passes_A_B by done.
  cbn [mbind result_bind]. by rewrite Hup.
Qed.

(** C4 does not hold of the program: [positionLooper 50 25] is [-1], and
    index [-1] of the alphabet is [Z].  An identity-wired rotor at position
    [Z] with ring setting 1 returns [A] for [Z], and at position [A] with
    ring setting 26 it returns [Z] for [Y], in both directions. *)
Lemma identity_rotor_shifts_Z_and_Y :
  (r ← RotorCustom 1 "Z" "ABCDEFGHIJKLMNOPQRSTUVWXYZ" None;
   right ← Rotor_encode r "Z" "right";
   left ← Rotor_encode r "Z" "left";
   OK (ringSetting r, currentPos r, right, left))
  = OK (Some 0, Some 25, "A", "A")
  /\ (r ← RotorCustom 26 "A" "ABCDEFGHIJKLMNOPQRSTUVWXYZ" None;
      right ← Rotor_encode r "Y" "right";
      left ← Rotor_encode r "Y" "left";
      OK (ringSetting r, currentPos r, right, left))
     = OK (Some 25, Some 0, "Z", "Z").
Proof. split; vm_compute; reflexivity. Qed.

Lemma Rotor_encode_total (r : Rotor) (x d : string) :
  wired_rotor r -> x ∈ letters ->
  exists y, Rotor_encode r x d = OK y /\ y ∈ genericMapping.
Proof.
  intros (Hclass & Hperm & (pos & Hp & Hpos) & (ring & Hg & Hring)) Hx.
  assert (Hlen : length (mapping r) = 26%nat) by (by rewrite Hperm).
  unfold Rotor_encode.
  destruct (letters_validated "" x Hx) as (-> & Hupl & _ & Hup).
  cbn [mbind result_bind]. rewrite Hupl.
  rewrite bool_decide_eq_false_2 by (by destruct Hclass as [-> | ->]).
  rewrite Hp, Hg. cbn [int_of mbind result_bind].
  destruct (genericMapping_getitem pos Hpos) as (l0 & _ & ->). cbn [mbind result_bind].
  destruct (index_bounds _ _ Hup) as (i & -> & Hi & _). cbn [mbind result_bind].
  simpl length in Hi.
  destruct (getitem_alphabet (positionLooper (i + (pos - ring)) 25))
    as (l1 & -> & Hl1); [apply positionLooper_range; lia|].
  cbn [mbind result_bind].
  assert (exists l2,
    (if bool_decide (d = "right")
     then index ← Py.index genericMapping l1; Py.getitem (mapping r) index
     else index ← Py.index (mapping r) l1; Py.getitem genericMapping index)
    = OK l2 /\ l2 ∈ genericMapping) as (l2 & -> & Hl2).
  { destruct (bool_decide (d = "right")).
    - destruct (index_bounds _ _ Hl1) as (k & -> & Hk & _). cbn [mbind result_bind].
      simpl length in Hk.
      destruct (lookup_lt_is_Some_2 (mapping r) (Z.to_nat k)) as [l2 Hl2]; [lia|].
      exists l2. split; [by apply getitem_nonneg; [lia|]|].
      rewrite <- Hperm. by eapply list_elem_of_lookup_2.
    - assert (Hin : l1 ∈ mapping r) by (by rewrite Hperm).
      destruct (index_bounds _ _ Hin) as (k & -> & Hk & _). cbn [mbind result_bind].
      destruct (genericMapping_getitem k) as (l2 & Hl2 & ->); [lia|].
      exists l2. split; [done|]. by eapply list_elem_of_lookup_2. }
  cbn [mbind result_bind].
  destruct (index_bounds _ _ Hl2) as (o & -> & Ho & _). cbn [mbind result_bind].
  simpl length in Ho.
  destruct (getitem_alphabet (positionLooper (o - (pos - ring)) 25))
    as (l3 & -> & Hl3); [apply positionLooper_range; lia|].
  cbn [mbind result_bind]. exists (Py.upper l3). split; [done|].
  by rewrite alphabet_upper.
Qed.

Lemma rotors_pass_total (rotors : list Rotor) (x d : string) :
  Forall wired_rotor rotors -> x ∈ letters ->
  exists y, for_each (fun e r => Rotor_encode r e d) x rotors = OK y /\ y ∈ letters.
Proof.
  intros Hall. revert x. induction Hall as [|r rotors Hr _ IH]; intros x Hx.
  - by exists x.
  - destruct (Rotor_encode_total r x d Hr Hx) as (y & Hy & Hin).
    cbn [for_each]. rewrite Hy. cbn [mbind result_bind].
    apply IH. by apply alphabet_letters.
Qed.

Lemma reflector_total (refl : Rotor) (x d : string) :
  wired_reflector refl -> x ∈ letters ->
  exists y, Rotor_encode refl x d = OK y /\ y ∈ letters.
Proof.
  intros (Htype & Hlen & Hall) Hx. unfold Rotor_encode.
  destruct (letters_validated "" x Hx) as (-> & Hupl & _ & Hup).
  cbn [mbind result_bind]. rewrite Hupl.
  rewrite bool_decide_eq_true_2 by done.
  destruct (index_bounds _ _ Hup) as (i & -> & Hi & _). cbn [mbind result_bind].
  simpl length in Hi.
  destruct (lookup_lt_is_Some_2 (mapping refl) (Z.to_nat i)) as [y Hy]; [lia|].
  rewrite (getitem_nonneg _ _ y) by (lia || done). cbn [mbind result_bind].
  exists (Py.lower y). split; [done|]. apply lower_letters.
  rewrite Forall_forall in Hall. apply Hall. by eapply list_elem_of_lookup_2.
Qed.

Lemma Rotor_init_spec (ring : Z) (pos type name : string) (r : Rotor) :
  Rotor_init ring pos type name = OK r ->
  rotorType r = type /\ in_range (currentPos r) /\ in_range (ringSetting r)
  /\ initialPos r = currentPos r.
Proof.
  unfold Rotor_init, set_ring_setting, set_initial_pos, inputValidator_ringSetting.
  destruct (Z.ltb_spec (Z.abs ring) 1), (Z.gtb_spec (Z.abs ring) 26),
    (Z.ltb_spec ring 0); try done.
  cbn [orb mbind result_bind].
  destruct (inputValidator encodingElement "Initial Position" pos) as [p|]; [|done].
  cbn [mbind result_bind].
  destruct (Py.index genericMapping (Py.upper p)) as [i|] eqn:Hi; [|done].
  cbn [mbind result_bind]. intros [= <-]. cbn.
  assert (0 <= i <= 25).
  { destruct (decide (Py.upper p ∈ genericMapping)) as [Hin|Hnin].
    - destruct (index_bounds _ _ Hin) as (i' & Hi' & Hb & _).
      rewrite Hi in Hi'. injection Hi' as <-. simpl length in Hb. lia.
    - exfalso. revert Hi. unfold Py.index. generalize 0.
      induction genericMapping as [|y l IH]; intros k; simpl; [done|].
      destruct (decide (y = Py.upper p)) as [->|Hne].
      + exfalso. apply Hnin. left.
      + apply IH. intros Hin. apply Hnin. by right. }
  repeat split; try done; eexists; (split; [reflexivity|lia]).
Qed.

Lemma stock_wired (type name : string) (notch : list notch_item)
  (wiring : string) (ring : Z) (pos : string) (r : Rotor) :
  stock type name notch wiring ring pos = OK r ->
  type = "notchrotor" \/ type = "notchlessrotor" ->
  Py.chars wiring ≡ₚ genericMapping ->
  wired_rotor r.
Proof.
  unfold stock. intros H Htype Hperm.
  destruct (Rotor_init ring pos type name) as [self|] eqn:Hinit; [|done].
  cbn [mbind result_bind] in H. injection H as <-.
  apply Rotor_init_spec in Hinit as (Ht & Hp & Hr & _).
  unfold wired_rotor, class_rotor. cbn. rewrite Ht. by repeat split.
Qed.

Lemma rotor_of_spec_stock_wired (i : RotorSpec) (r : Rotor) :
  spec_name i <> "RotorCustom" ->
  rotor_of_spec i = OK r -> wired_rotor r.
Proof.
  intros Hname. unfold rotor_of_spec.
  destruct (bool_decide (spec_name i ∈ validRotors)); [|done].
  rewrite bool_decide_eq_false_2 by done.
  destruct (spec_rest i); [|by destruct (stock_rotor_class (spec_name i))].
  unfold stock_rotor_class.
  repeat (destruct (bool_decide (spec_name i = _));
          [intros H; apply stock_wired in H;
           [done|(by left) || (by right)|
            apply (bool_decide_unpack _); vm_compute; exact I]|]).
  done.
Qed.

(** ** Stepping *)

Lemma turn_neg (fromRight : list Rotor) (k : nat) (r : Rotor) :
  fromRight !! k = Some r -> in_range (currentPos r) ->
  turn (reverse fromRight) (- Z.of_nat (S k)) =
    OK (reverse (<[k := turned r]> fromRight)).
Proof.
  intros Hr (p & Hp & _). unfold turn.
  rewrite getitem_neg, reverse_involutive, Hr. simpl.
  rewrite Hp. simpl.
  rewrite setitem_neg, length_reverse, reverse_involutive.
  rewrite decide_True by (by eapply lookup_lt_Some).
  unfold turned. by rewrite Hp.
Qed.

Lemma step_body_idle ips gates rotors hasTurned (r : Z) :
  3 <= r <= Z.of_nat (length ips) ->
  length rotors = length ips ->
  Forall in_range ips ->
  step_body ips gates (rotors, hasTurned) r = OK (rotors, hasTurned).
Proof.
  intros Hr Hlen Hips. unfold step_body.
  replace (- r) with (- Z.of_nat (S (Z.to_nat (r - 1)))) by lia.
  rewrite !getitem_neg.
  destruct (lookup_lt_is_Some_2 (reverse ips) (Z.to_nat (r - 1))) as [v Hv].
  { rewrite length_reverse. lia. }
  rewrite Hv. simpl.
  assert (in_range v) as (p & -> & Hp).
  { apply Forall_reverse in Hips. by eapply Forall_lookup_1 in Hips. }
  simpl. destruct (genericMapping_getitem p Hp) as (letter & _ & ->). simpl.
  destruct (lookup_lt_is_Some_2 (reverse rotors) (Z.to_nat (r - 1))) as [rotor Hrot].
  { rewrite length_reverse. lia. }
  rewrite Hrot. simpl.
  rewrite (bool_decide_eq_false_2 (r ∈ [1; 2])).
  { by rewrite andb_false_r. }
  rewrite !elem_of_cons, elem_of_nil. lia.
Qed.

Lemma notchlessToTheRight_spec (fromRight : list Rotor) :
  notchlessToTheRight (reverse fromRight) (Z.of_nat (length fromRight)) =
    OK (notchless_flag fromRight <$> seqZ 1 (Z.of_nat (length fromRight))).
Proof.
  unfold notchlessToTheRight, Py.range.
  replace (Z.of_nat (length fromRight) + 1 - 1) with (Z.of_nat (length fromRight)) by lia.
  apply comprehension_fmap, Forall_seqZ. intros x Hx.
  unfold notchless_flag. destruct (Z.eqb_spec x 1) as [|Hne]; [done|].
  replace (- x + 1) with (- Z.of_nat (S (Z.to_nat (x - 2)))) by lia.
  rewrite getitem_neg, reverse_involutive.
  destruct (lookup_lt_is_Some_2 fromRight (Z.to_nat (x - 2))) as [r Hr]; [lia|].
  by rewrite Hr.
Qed.

Lemma getitem_flags_neg {B} (g : Z -> B) (n : Z) (k : nat) :
  Z.of_nat (S k) <= n ->
  Py.getitem (g <$> seqZ 1 n) (- Z.of_nat (S k)) = OK (g (n - Z.of_nat k)).
Proof.
  intros Hk. rewrite getitem_neg.
  rewrite reverse_lookup by (rewrite length_fmap, length_seqZ; lia).
  rewrite length_fmap, length_seqZ, list_lookup_fmap.
  rewrite lookup_seqZ_lt by lia. simpl. do 2 f_equal. lia.
Qed.

Lemma turned_notch r : notch (turned r) = notch r.
Proof. unfold turned. by destruct (currentPos r). Qed.

Lemma turned_in_range r : in_range (currentPos r) -> in_range (currentPos (turned r)).
Proof.
  intros (p & Hp & Hr). unfold turned. rewrite Hp. simpl.
  eexists; split; [done|]. unfold positionLooper.
  destruct (Z.leb_spec 0 (p + 1)), (Z.leb_spec (p + 1) 25); simpl; try lia.
  destruct (Z.ltb_spec (p + 1) 0); [lia|].
  replace (p + 1) with 26 by lia. done.
Qed.

Lemma turned_wired (r : Rotor) : wired_rotor r -> wired_rotor (turned r).
Proof.
  intros (Hc & Hm & Hp & Hr). pose proof (turned_in_range r Hp) as Hp'.
  unfold wired_rotor, class_rotor, turned in *.
  destruct (currentPos r); by repeat split.
Qed.

Lemma turned_identity r : identity_rotor r -> identity_rotor (turned r).
Proof.
  intros (Ht & Hn & Hm & Hp & Hr). unfold identity_rotor.
  pose proof (turned_in_range r Hp) as Hp'. pose proof (turned_notch r) as Hn'.
  unfold turned in *. destruct (currentPos r); simpl in *; by repeat split.
Qed.

Lemma step_body_1 ips gates (c b : Rotor) rest h2 hrest g1 :
  reverse ips !! 0%nat = Some (currentPos c) ->
  in_range (currentPos c) -> in_range (currentPos b) ->
  Py.getitem gates (-1) = OK g1 ->
  step_body ips gates
    (reverse (c :: b :: rest), reverse (false :: h2 :: hrest)) 1 =
  OK (if at_notch c && negb g1
      then (reverse (turned c :: turned b :: rest), reverse (true :: true :: hrest))
      else (reverse (c :: b :: rest), reverse (false :: h2 :: hrest))).
Proof.
  intros Hips Hc Hb Hg. unfold step_body. cbn [fst snd].
  change (- (1)) with (-1). rewrite Hg.
  change (-1 - 1) with (- Z.of_nat 2). change (-1) with (- Z.of_nat 1).
  rewrite !getitem_neg, Hips, !reverse_involutive. cbn [lookup list_lookup mbind result_bind].
  unfold at_notch. destruct Hc as (p & Hpc & Hp). rewrite Hpc. cbn [int_of mbind result_bind].
  destruct (genericMapping_getitem p Hp) as (letter & -> & ->). cbn [mbind result_bind].
  destruct (bool_decide (NotchLetter letter ∈ notch c)); cbn [andb]; [|done].
  rewrite bool_decide_eq_true_2 by (apply list_elem_of_here).
  cbn [mbind result_bind].
  destruct g1; cbn [negb]; [done|].
  rewrite (turn_neg (c :: b :: rest) 0 c) by (done || by exists p).
  rewrite setitem_neg, length_reverse, reverse_involutive.
  rewrite decide_True by (cbn; lia).
  cbn [mbind result_bind fst snd]. change (1 <=? 2) with true. cbn iota.
  change (<[0%nat := turned c]> (c :: b :: rest)) with (turned c :: b :: rest).
  change (<[0%nat := true]> (false :: h2 :: hrest)) with (true :: h2 :: hrest).
  rewrite (turn_neg (turned c :: b :: rest) 1 b) by done.
  rewrite setitem_neg, length_reverse, reverse_involutive.
  rewrite decide_True by (cbn; lia).
  done.
Qed.

Lemma step_body_2 ips gates (c b b0 a : Rotor) rest h1 h2 h3 hrest g2 :
  reverse ips !! 1%nat = Some (currentPos b0) ->
  in_range (currentPos b0) -> notch b = notch b0 ->
  in_range (currentPos b) -> in_range (currentPos a) ->
  Py.getitem gates (-2) = OK g2 ->
  step_body ips gates
    (reverse (c :: b :: a :: rest), reverse (h1 :: h2 :: h3 :: hrest)) 2 =
  OK (if at_notch b0 && negb g2
      then (reverse (c :: (if h2 then b else turned b) :: turned a :: rest),
            reverse (h1 :: true :: true :: hrest))
      else (reverse (c :: b :: a :: rest), reverse (h1 :: h2 :: h3 :: hrest))).
Proof.
  intros Hips Hb0 Hnotch Hb Ha Hg. unfold step_body. cbn [fst snd].
  change (- (2)) with (-2). rewrite Hg.
  change (-2 - 1) with (- Z.of_nat 3). change (-2) with (- Z.of_nat 2).
  rewrite !getitem_neg, Hips, !reverse_involutive. cbn [lookup list_lookup mbind result_bind].
  unfold at_notch. destruct Hb0 as (p & Hpb & Hp). rewrite Hpb. cbn [int_of mbind result_bind].
  destruct (genericMapping_getitem p Hp) as (letter & -> & ->). cbn [mbind result_bind].
  rewrite Hnotch.
  destruct (bool_decide (NotchLetter letter ∈ notch b0)); cbn [andb]; [|done].
  rewrite bool_decide_eq_true_2 by (apply list_elem_of_further, list_elem_of_here).
  cbn [mbind result_bind].
  destruct g2; cbn [negb]; [done|].
  change (2 <=? 2) with true. cbn iota.
  destruct h2; cbn [negb mbind result_bind fst snd].
  - rewrite (turn_neg (c :: b :: a :: rest) 2 a) by done.
    rewrite setitem_neg, length_reverse, reverse_involutive.
    rewrite decide_True by (cbn; lia). done.
  - rewrite (turn_neg (c :: b :: a :: rest) 1 b) by done.
    rewrite setitem_neg, length_reverse, reverse_involutive.
    rewrite decide_True by (cbn; lia).
    cbn [mbind result_bind fst snd].
    change (<[1%nat := turned b]> (c :: b :: a :: rest)) with (c :: turned b :: a :: rest).
    rewrite (turn_neg (c :: turned b :: a :: rest) 2 a) by done.
    rewrite setitem_neg, length_reverse, reverse_involutive.
    rewrite decide_True by (cbn; lia). done.
Qed.

Lemma stepRotors_spec (c b a : Rotor) (rest : list Rotor) :
  Forall (fun r => in_range (currentPos r)) (c :: b :: a :: rest) ->
  stepRotors (reverse (c :: b :: a :: rest)) =
    OK (reverse (stepped (c :: b :: a :: rest))).
Proof.
  intros Hwf.
  assert (Hc : in_range (currentPos c)) by (by inversion Hwf).
  assert (Hb : in_range (currentPos b)) by (by inversion Hwf as [|? ? ? H]; inversion H).
  assert (Ha : in_range (currentPos a)).
  { inversion Hwf as [|? ? ? H]; inversion H as [|? ? ? H']; by inversion H'. }
  unfold stepRotors. rewrite length_reverse.
  rewrite notchlessToTheRight_spec.
  set (n := Z.of_nat (length (c :: b :: a :: rest))).
  set (gates := notchless_flag (c :: b :: a :: rest) <$> seqZ 1 n).
  assert (Hn : 3 <= n) by (subst n; simpl; lia).
  cbn [mbind result_bind].
  destruct (comprehension_succeeds
              (fun x => pos ← int_of (currentPos x); Py.getitem genericMapping pos)
              (reverse (c :: b :: a :: rest))) as [letters ->].
  { apply Forall_reverse. eapply Forall_impl; [exact Hwf|].
    intros r (p & -> & Hp). simpl.
    destruct (genericMapping_getitem p Hp) as (letter & _ & ->). by eexists. }
  cbn [mbind result_bind].
  assert (Hg1 : Py.getitem gates (-1) = OK (notchless_flag (c :: b :: a :: rest) n)).
  { change (-1) with (- Z.of_nat 1). unfold gates.
    rewrite getitem_flags_neg by lia; do 2 f_equal; lia. }
  assert (Hg2 : Py.getitem gates (-2) = OK (notchless_flag (c :: b :: a :: rest) (n - 1))).
  { change (-2) with (- Z.of_nat 2). unfold gates.
    rewrite getitem_flags_neg by lia; do 2 f_equal; lia. }
  unfold Py.range. rewrite (seqZ_cons 1) by lia. rewrite (seqZ_cons (Z.succ 1)) by lia.
  change (Z.succ 1) with 2. change (Z.succ 2) with 3.
  replace (replicate (length (c :: b :: a :: rest)) false)
    with (reverse (false :: false :: false :: replicate (length rest) false)).
  2:{ rewrite <- (reverse_replicate (length (c :: b :: a :: rest))). done. }
  set (ips := currentPos <$> reverse (c :: b :: a :: rest)).
  assert (Hips : reverse ips = currentPos <$> (c :: b :: a :: rest)).
  { unfold ips. by rewrite fmap_reverse, reverse_involutive. }
  cbn [for_each].
  rewrite (step_body_1 ips gates c b (a :: rest) false
             (false :: replicate (length rest) false)
             (notchless_flag (c :: b :: a :: rest) n)); try done.
  2:{ by rewrite Hips. }
  cbn [mbind result_bind].
  assert (Hidle : forall rotors hasTurned,
             length rotors = length ips ->
             for_each (step_body ips gates) (rotors, hasTurned)
               (seqZ 3 (Z.pred (Z.pred (n + 1 - 1)))) = OK (rotors, hasTurned)).
  { intros rotors hasTurned Hlen. apply for_each_idle, Forall_seqZ.
    intros r Hr. apply step_body_idle; [|done|].
    - unfold ips. rewrite length_fmap, length_reverse. fold n. lia.
    - unfold ips. apply Forall_fmap, Forall_reverse. exact Hwf. }
  assert (Hlen : forall x y z, length (reverse (x :: y :: z :: rest)) = length ips).
  { intros. unfold ips. by rewrite length_fmap, !length_reverse. }
  assert (Hfinal : forall c' b' a' h2 h3 hrest,
             in_range (currentPos c') ->
             (st ← OK (reverse (c' :: b' :: a' :: rest), reverse (false :: h2 :: h3 :: hrest));
              turned ← Py.getitem st.2 (-1);
              if negb turned then turn st.1 (-1) else OK st.1)
             = OK (reverse (turned c' :: b' :: a' :: rest))).
  { intros c' b' a' h2 h3 hrest Hc'. cbn [mbind result_bind fst snd].
    change (-1) with (- Z.of_nat 1).
    rewrite getitem_neg, reverse_involutive. cbn [lookup list_lookup negb].
    by rewrite (turn_neg (c' :: b' :: a' :: rest) 0 c'). }
  unfold stepped, step3. fold n. cbn [fst snd].
  destruct (at_notch c && negb (notchless_flag (c :: b :: a :: rest) n)) eqn:E1; cbn [orb].
  - rewrite (step_body_2 ips gates (turned c) (turned b) b a rest true true false
               (replicate (length rest) false) (notchless_flag (c :: b :: a :: rest) (n - 1)));
      try done.
    2:{ by rewrite Hips. }
    2:{ apply turned_notch. }
    2:{ by apply turned_in_range. }
    cbn [mbind result_bind].
    destruct (at_notch b && negb (notchless_flag (c :: b :: a :: rest) (n - 1))) eqn:E2.
    + rewrite Hidle by apply Hlen.
      cbn [mbind result_bind fst snd].
      change (-1) with (- Z.of_nat 1).
      rewrite getitem_neg, reverse_involutive. cbn [lookup list_lookup negb]. done.
    + rewrite Hidle by apply Hlen.
      cbn [mbind result_bind fst snd].
      change (-1) with (- Z.of_nat 1).
      rewrite getitem_neg, reverse_involutive. cbn [lookup list_lookup negb]. done.
  - rewrite (step_body_2 ips gates c b b a rest false false false
               (replicate (length rest) false) (notchless_flag (c :: b :: a :: rest) (n - 1)));
      try done.
    2:{ by rewrite Hips. }
    cbn [mbind result_bind].
    destruct (at_notch b && negb (notchless_flag (c :: b :: a :: rest) (n - 1))) eqn:E2.
    + rewrite Hidle by apply Hlen. by apply Hfinal.
    + rewrite Hidle by apply Hlen. by apply Hfinal.
Qed.

Lemma stepRotors_ok (rotors : list Rotor) :
  (3 <= length rotors)%nat ->
  Forall (fun r => in_range (currentPos r)) rotors ->
  stepRotors rotors = OK (reverse (stepped (reverse rotors))).
Proof.
  intros Hlen Hwf. rewrite <- (reverse_involutive rotors) at 1.
  apply Forall_reverse in Hwf. rewrite <- length_reverse in Hlen.
  destruct (reverse rotors) as [|c [|b [|a rest]]]; simpl in Hlen; try lia.
  by apply stepRotors_spec.
Qed.

Lemma stepped_Forall (P : Rotor -> Prop) (fromRight : list Rotor) :
  (forall r, P r -> P (turned r)) ->
  Forall P fromRight -> Forall P (stepped fromRight).
Proof.
  intros Hturn Hall. destruct fromRight as [|c [|b [|a rest]]]; try done.
  inversion_clear Hall as [|? ? Hc Hall']. inversion_clear Hall' as [|? ? Hb Hall''].
  inversion_clear Hall'' as [|? ? Ha Hrest].
  unfold stepped, step3. cbn [fst snd].
  repeat apply Forall_cons_2; try done.
  - by apply Hturn.
  - destruct (_ || _); [by apply Hturn|done].
  - destruct (_ && _); [by apply Hturn|done].
Qed.

Lemma stepped_length (fromRight : list Rotor) :
  length (stepped fromRight) = length fromRight.
Proof. by destruct fromRight as [|c [|b [|a rest]]]. Qed.

Lemma stepped_rightmost (rotors : list Rotor) (p : Z) :
  (3 <= length rotors)%nat ->
  rightmost_position rotors = Some p -> 0 <= p <= 25 ->
  rightmost_position (reverse (stepped (reverse rotors))) = Some ((p + 1) mod 26).
Proof.
  unfold rightmost_position. intros Hlen Hp Hrange.
  rewrite last_reverse. rewrite <- head_reverse in Hp.
  rewrite <- length_reverse in Hlen.
  destruct (reverse rotors) as [|c [|b [|a rest]]]; simpl in Hlen; try lia.
  simpl in Hp. cbn [stepped step3 fst snd head mbind option_bind].
  unfold turned. rewrite Hp. simpl. f_equal.
  apply positionLooper_mod_26. lia.
Qed.

Lemma notchless_flag_class (fromRight : list Rotor) (x : Z) :
  Forall class_rotor fromRight -> notchless_flag fromRight x = false.
Proof.
  intros Hall. unfold notchless_flag. destruct (x =? 1); [done|].
  destruct (fromRight !! Z.to_nat (x - 2)) as [r|] eqn:Hr; [|done].
  apply bool_decide_eq_false_2.
  eapply Forall_lookup_1 in Hall; [|exact Hr].
  destruct Hall as [-> | ->]; done.
Qed.

Lemma at_notch_letter (r : Rotor) (p : Z) (letter : string) :
  currentPos r = Some p -> genericMapping !! Z.to_nat p = Some letter ->
  at_notch r = bool_decide (NotchLetter letter ∈ notch r).
Proof. intros Hp Hl. unfold at_notch. by rewrite Hp, Hl. Qed.

(** ** One letter through the machine *)

Lemma fullEncode_steps (m m' : EnigmaMachine) (x out : string) :
  fullEncode m x = OK (m', out) ->
  stepRotors (rotorsList m) = OK (rotorsList m')
  /\ plugBoard m' = plugBoard m /\ reflector m' = reflector m.
Proof.
  unfold fullEncode. intros H.
  destruct (inputValidator _ _ _); [|done]. cbn [mbind result_bind] in H.
  destruct (attr_of (plugBoard m)); [|done]. cbn [mbind result_bind] in H.
  destruct (Plugboard_encode _ _); [|done]. cbn [mbind result_bind] in H.
  destruct (stepRotors (rotorsList m)) as [rotors|]; [|done]. cbn [mbind result_bind] in H.
  destruct (for_each _ _ (reverse rotors)); [|done]. cbn [mbind result_bind] in H.
  destruct (attr_of (reflector m)); [|done]. cbn [mbind result_bind] in H.
  destruct (Rotor_encode _ _ _); [|done]. cbn [mbind result_bind] in H.
  destruct (for_each _ _ rotors); [|done]. cbn [mbind result_bind] in H.
  destruct (Plugboard_encode _ _); [|done]. cbn [mbind result_bind] in H.
  by injection H as <- _.
Qed.

(** A ready machine encodes every letter: [fullEncode] returns a letter
    of the alphabet and leaves the machine ready for the next one. *)
Theorem fullEncode_total (m : EnigmaMachine) (x : string) :
  ready_machine m -> x ∈ letters ->
  exists m' out,
    fullEncode m x = OK (m', out) /\ out ∈ genericMapping /\ ready_machine m'.
Proof.
  intros (Hlen & Hrotors & (board & Hboard & Hproper) & (refl & Hrefl & Hwired)) Hx.
  assert (Hpos : Forall (fun r => in_range (currentPos r)) (rotorsList m)).
  { eapply Forall_impl; [exact Hrotors|]. by intros r (_ & _ & ? & _). }
  pose proof (stepRotors_ok _ Hlen Hpos) as Hstep.
  set (rotors := reverse (stepped (reverse (rotorsList m)))) in *.
  assert (Hrotors' : Forall wired_rotor rotors).
  { apply Forall_reverse, stepped_Forall; [apply turned_wired|by apply Forall_reverse]. }
  unfold fullEncode.
  destruct (letters_lowers "Element to encode" x Hx) as (Hl & -> & _).
  cbn [mbind result_bind]. rewrite Hboard. cbn [attr_of mbind result_bind].
  destruct (Plugboard_encode_total board (Py.lower x) Hproper) as (e1 & -> & He1).
  { by apply lower_letters. }
  cbn [mbind result_bind]. rewrite Hstep. cbn [mbind result_bind].
  destruct (rotors_pass_total (reverse rotors) e1 "right") as (e2 & -> & He2).
  { by apply Forall_reverse. }
  { by apply alphabet_letters. }
  cbn [mbind result_bind]. rewrite Hrefl. cbn [attr_of mbind result_bind].
  destruct (reflector_total refl e2 "left" Hwired He2) as (e3 & -> & He3).
  cbn [mbind result_bind].
  destruct (rotors_pass_total rotors e3 "left" Hrotors' He3) as (e4 & -> & He4).
  cbn [mbind result_bind].
  destruct (Plugboard_encode_total board e4 Hproper He4) as (e5 & -> & He5).
  cbn [mbind result_bind].
  eexists _, _. split; [reflexivity|]. split; [by rewrite alphabet_upper|].
  split; [|split; [done|split; by eexists]].
  cbn [rotorsList]. unfold rotors.
  by rewrite length_reverse, stepped_length, length_reverse.
Qed.

(** A known answer: rotors I, II, III at [AAA] with ring settings 1 and
    reflector B turn [AAAAA] into [BDZGO]. *)
Lemma serialEncode_known_answer :
  (m ← setup EnigmaMachine_init
         [mkRotorSpec "RotorI" 1 "A" 1 []; mkRotorSpec "RotorII" 1 "A" 2 [];
          mkRotorSpec "RotorIII" 1 "A" 3 []]
         (ReflectorName "ReflectorB") None 10;
   out ← serialEncode m "AAAAA";
   OK out.2)
  = OK "BDZGO".
Proof. vm_compute. reflexivity. Qed.

(** C6: in a machine with at least three rotors, all at positions
    [0..25], the stepping of one [fullEncode] call succeeds and every call
    that returns leaves the rightmost rotor at its old position plus one,
    modulo 26, whether or not it stood at a notch; and a ready machine
    returns for every letter. *)
Theorem rightmost_always_steps (m : EnigmaMachine) (p : Z) :
  (3 <= length (rotorsList m))%nat ->
  Forall (fun r => in_range (currentPos r)) (rotorsList m) ->
  rightmost_position (rotorsList m) = Some p ->
  (exists rotors,
      stepRotors (rotorsList m) = OK rotors
      /\ rightmost_position rotors = Some ((p + 1) mod 26))
  /\ (forall x m' out,
        fullEncode m x = OK (m', out) ->
        rightmost_position (rotorsList m') = Some ((p + 1) mod 26))
  /\ (ready_machine m ->
      forall x, x ∈ letters -> exists m' out, fullEncode m x = OK (m', out)).
Proof.
  intros Hlen Hwf Hp.
  assert (Hrange : 0 <= p <= 25).
  { unfold rightmost_position in Hp.
    destruct (last (rotorsList m)) as [c|] eqn:Hlast; [|done]. simpl in Hp.
    apply last_Some_elem_of in Hlast.
    rewrite Forall_forall in Hwf. destruct (Hwf c Hlast) as (z & Hz & Hr).
    congruence. }
  pose proof (stepRotors_ok _ Hlen Hwf) as Hstep.
  pose proof (stepped_rightmost _ p Hlen Hp Hrange) as Hright.
  split; [|split].
  - eexists. split; [exact Hstep|exact Hright].
  - intros x m' out Henc. apply fullEncode_steps in Henc as (Hs & _ & _).
    rewrite Hstep in Hs. injection Hs as <-. exact Hright.
  - intros Hready x Hx.
    destruct (fullEncode_total m x Hready Hx) as (m' & out & Henc & _).
    by exists m', out.
Qed.

Lemma rightmost_always_steps_witness :
  (m ← setup EnigmaMachine_init
         [mkRotorSpec "RotorI" 1 "A" 1 []; mkRotorSpec "RotorII" 1 "A" 2 [];
          mkRotorSpec "RotorIII" 1 "Z" 3 []]
         (ReflectorName "ReflectorB") None 10;
   out ← fullEncode m "A";
   OK (rightmost_position (rotorsList m), rightmost_position (rotorsList out.1)))
  = OK (Some 25, Some 0).
Proof.
  destruct (setup _ _ _ _ _) as [m|] eqn:Hm; [|vm_compute in Hm; discriminate].
  vm_compute in Hm. injection Hm as <-. cbn [mbind result_bind].
  destruct (fullEncode _ "A") as [[m' out]|] eqn:Henc; [|vm_compute in Henc; discriminate].
  cbn [mbind result_bind fst].
  match type of Henc with
  | fullEncode ?m _ = _ =>
      destruct (rightmost_always_steps m 25) as (_ & Hright & _);
        [| | |rewrite (Hright _ _ _ Henc); reflexivity]
  end.
  - simpl. lia.
  - repeat (apply Forall_cons_2; [eexists; split; [reflexivity|lia]|]).
    apply Forall_nil_2.
  - reflexivity.
Defined.

(** C1: in a three-rotor machine whose rightmost rotor has notch [Q] (and
    not [P]) and stands at 15, with the middle rotor not at a notch of its
    own, the first encoded character moves the rightmost rotor to 16 and
    nothing else; the second moves it to 17 and the middle rotor on by
    one, modulo 26.  A ready machine returns from both calls. *)
Theorem double_step (m : EnigmaMachine) (a b c : Rotor) (pb : Z) :
  rotorsList m = [a; b; c] ->
  Forall (fun r => class_rotor r /\ in_range (currentPos r)) [a; b; c] ->
  NotchLetter "Q" ∈ notch c -> NotchLetter "P" ∉ notch c ->
  currentPos c = Some 15 ->
  currentPos b = Some pb -> at_notch b = false ->
  let after1 := [a; b; set_currentPos c 16] in
  let after2 := [a; set_currentPos b ((pb + 1) mod 26); set_currentPos c 17] in
  (stepRotors [a; b; c] = OK after1 /\ stepRotors after1 = OK after2)
  /\ (forall x y m1 out1 m2 out2,
        fullEncode m x = OK (m1, out1) ->
        fullEncode m1 y = OK (m2, out2) ->
        rotorsList m1 = after1 /\ rotorsList m2 = after2)
  /\ (ready_machine m ->
      forall x y, x ∈ letters -> y ∈ letters ->
      exists m1 out1 m2 out2,
        fullEncode m x = OK (m1, out1) /\ fullEncode m1 y = OK (m2, out2)).
Proof.
  intros Hm Hwf HQ HP Hc Hb Hbn after1 after2.
  assert (Hclass : Forall class_rotor [a; b; c]).
  { eapply Forall_impl; [exact Hwf|]. by intros r [? _]. }
  assert (Hpos : Forall (fun r => in_range (currentPos r)) [a; b; c]).
  { eapply Forall_impl; [exact Hwf|]. by intros r [_ ?]. }
  assert (Hpb : 0 <= pb <= 25).
  { inversion_clear Hpos as [|? ? _ H]. inversion_clear H as [|? ? (z & Hz & Hr) _].
    congruence. }
  assert (H1 : stepRotors [a; b; c] = OK after1).
  { rewrite stepRotors_ok; [|simpl; lia|done]. f_equal.
    change (reverse [a; b; c]) with [c; b; a].
    unfold stepped, step3. cbn [fst snd].
    rewrite !notchless_flag_class by (by apply Forall_reverse in Hclass).
    rewrite (at_notch_letter c 15 "P") by done.
    rewrite (bool_decide_eq_false_2 _ HP), Hbn. cbn [andb orb].
    unfold turned. rewrite Hc. reflexivity. }
  assert (H2 : stepRotors after1 = OK after2).
  { unfold after1. rewrite stepRotors_ok; [|simpl; lia|].
    2:{ inversion_clear Hpos as [|? ? Ha H]. inversion_clear H as [|? ? Hb' _].
        repeat apply Forall_cons_2; try done. exists 16. split; [done|lia]. }
    f_equal. change (reverse [a; b; set_currentPos c 16]) with [set_currentPos c 16; b; a].
    unfold stepped, step3. cbn [fst snd].
    rewrite !notchless_flag_class.
    2,3: inversion_clear Hclass as [|? ? Ha H]; inversion_clear H as [|? ? Hb' H'];
         inversion_clear H' as [|? ? Hc' _]; by repeat apply Forall_cons_2.
    rewrite (at_notch_letter (set_currentPos c 16) 16 "Q") by done.
    cbn [notch set_currentPos]. rewrite (bool_decide_eq_true_2 _ HQ), Hbn. cbn [andb orb negb].
    unfold turned. cbn [currentPos set_currentPos]. rewrite Hb.
    rewrite !positionLooper_mod_26 by lia. reflexivity. }
  split; [done|]. split.
  - intros x y m1 out1 m2 out2 Hx Hy.
    apply fullEncode_steps in Hx as (Hs1 & _ & _).
    apply fullEncode_steps in Hy as (Hs2 & _ & _).
    rewrite Hm, H1 in Hs1. injection Hs1 as Hs1. rewrite <- Hs1 in *.
    rewrite H2 in Hs2. injection Hs2 as Hs2. done.
  - intros Hready x y Hx Hy.
    destruct (fullEncode_total m x Hready Hx) as (m1 & out1 & Henc1 & _ & Hready1).
    destruct (fullEncode_total m1 y Hready1 Hy) as (m2 & out2 & Henc2 & _).
    by exists m1, out1, m2, out2.
Qed.

Lemma double_step_witness :
  (m ← setup EnigmaMachine_init
         [mkRotorSpec "RotorI" 1 "A" 1 []; mkRotorSpec "RotorII" 1 "A" 2 [];
          mkRotorSpec "RotorI" 1 "P" 3 []]
         (ReflectorName "ReflectorB") None 10;
   first ← fullEncode m "A";
   second ← fullEncode first.1 "A";
   OK (currentPos <$> rotorsList m, currentPos <$> rotorsList first.1,
       currentPos <$> rotorsList second.1))
  = OK ([Some 0; Some 0; Some 15], [Some 0; Some 0; Some 16],
        [Some 0; Some 1; Some 17]).
Proof.
  destruct (setup _ _ _ _ _) as [m|] eqn:Hm; [|vm_compute in Hm; discriminate].
  vm_compute in Hm. injection Hm as <-. cbn [mbind result_bind].
  destruct (fullEncode _ "A") as [[m1 out1]|] eqn:H1; [|vm_compute in H1; discriminate].
  cbn [mbind result_bind fst].
  destruct (fullEncode m1 "A") as [[m2 out2]|] eqn:H2.
  2:{ pose proof H1 as H1'. vm_compute in H1'. injection H1' as <- _.
      vm_compute in H2. discriminate. }
  cbn [mbind result_bind fst].
  match type of H1 with
  | fullEncode ?m _ = _ =>
      match eval cbn in (rotorsList m) with
      | [?a; ?b; ?c] =>
          destruct (double_step m a b c 0) as (_ & Hboth & _);
            [| | | | | | |destruct (Hboth _ _ _ _ _ _ H1 H2) as [-> ->]; reflexivity]
      end
  end.
  - reflexivity.
  - repeat (apply Forall_cons_2;
            [split; [by left|eexists; split; [reflexivity|lia]]|]).
    apply Forall_nil_2.
  - by apply (bool_decide_unpack _).
  - by apply (bool_decide_unpack _).
  - reflexivity.
  - reflexivity.
  - reflexivity.
Defined.

(** C5 does not hold of the program: the gate compares [rotorType] with
    ['notchless'], but the notch-less classes store ['notchlessrotor'].  With
    Beta on the right and rotor II on its notch [E] in the middle, one
    character moves the middle rotor from 4 to 5 (and the left one with
    it). *)
Lemma notchless_neighbour_does_not_gate :
  (m ← setup EnigmaMachine_init
         [mkRotorSpec "RotorI" 1 "A" 1 []; mkRotorSpec "RotorII" 1 "E" 2 [];
          mkRotorSpec "RotorBeta" 1 "A" 3 []]
         (ReflectorName "ReflectorB") None 10;
   out ← fullEncode m "A";
   OK (rotorType <$> rotorsList m, currentPos <$> rotorsList m,
       currentPos <$> rotorsList out.1))
  = OK (["notchrotor"; "notchrotor"; "notchlessrotor"],
        [Some 0; Some 4; Some 0], [Some 1; Some 5; Some 1]).
Proof. vm_compute. reflexivity. Qed.

Lemma wired_from_A (w : list string) (y : string) :
  wired_to w "A" y -> w !! 0%nat = Some y.
Proof.
  intros (i & Hi & Hw).
  do 27 (destruct i as [|i]; [by (done || discriminate Hi)|]); done.
Qed.

Lemma wired_from_B (w : list string) (y : string) :
  wired_to w "B" y -> w !! 1%nat = Some y.
Proof.
  intros (i & Hi & Hw).
  do 27 (destruct i as [|i]; [by (done || discriminate Hi)|]); done.
Qed.

(** C2: a machine of three or more identity-wired notch-less rotors, an
    empty plugboard and a reflector whose wiring is a full pairing with
    [A <-> B] encodes ["A"] as ["B"] and, from the same settings, ["B"] as
    ["A"]. *)
Theorem reciprocity_A_B (m : EnigmaMachine) (board : Plugboard) (refl : Rotor) :
  (3 <= length (rotorsList m))%nat ->
  Forall identity_rotor (rotorsList m) ->
  plugBoard m = Some board -> plugLeadsLetters board = [] ->
  reflector m = Some refl -> rotorType refl = "reflector" ->
  fixed_point_free_involution (mapping refl) ->
  wired_to (mapping refl) "A" "B" ->
  (exists m', fullEncode m "A" = OK (m', "B"))
  /\ (exists m', fullEncode m "B" = OK (m', "A")).
Proof.
  intros Hlen Hid Hboard Hempty Hrefl Htype Hinv HAB.
  assert (HBA : wired_to (mapping refl) "B" "A") by (by apply Hinv).
  apply wired_from_A in HAB. apply wired_from_B in HBA.
  assert (Hpos : Forall (fun r => in_range (currentPos r)) (rotorsList m)).
  { eapply Forall_impl; [exact Hid|]. by intros r (_ & _ & _ & ? & _). }
  pose proof (stepRotors_ok _ Hlen Hpos) as Hstep.
  set (rotors := reverse (stepped (reverse (rotorsList m)))) in *.
  assert (Hid' : Forall identity_rotor rotors).
  { apply Forall_reverse, stepped_Forall; [apply turned_identity|].
    by apply Forall_reverse. }
  assert (Hne : rotors <> []).
  { intros Hnil. apply (f_equal length) in Hnil. unfold rotors in Hnil.
    rewrite length_reverse in Hnil. revert Hnil.
    rewrite <- length_reverse in Hlen.
    destruct (reverse (rotorsList m)) as [|c [|b [|a rest]]]; simpl in Hlen; try lia.
    done. }
  assert (Hleft : forall x, x ∈ ["A"; "B"] ->
            for_each (fun e r => Rotor_encode r e "left") (Py.lower x) rotors = OK x).
  { intros x Hx. destruct rotors as [|r rest]; [done|]. cbn [for_each].
    inversion_clear Hid' as [|? ? Hr Hrest].
    rewrite identity_rotor_passes_A_B; [|done|].
    2:{ apply elem_of_cons in Hx as [->|Hx]; [right; right; left|].
        apply list_elem_of_singleton in Hx as ->. do 3 right. left. }
    cbn [mbind result_bind].
    replace (Py.upper (Py.lower x)) with x.
    2:{ apply elem_of_cons in Hx as [->|Hx]; [done|].
        by apply list_elem_of_singleton in Hx as ->. }
    by apply identity_rotors_pass. }
  assert (Hreflect : forall i x y,
            Py.index genericMapping x = OK (Z.of_nat i) ->
            inputValidator encodingElement "" x = OK (Py.lower x) ->
            Py.upper (Py.lower x) = x ->
            mapping refl !! i = Some y ->
            Rotor_encode refl x "left" = OK (Py.lower y)).
  { intros i x y Hi Hv Hup Hy. unfold Rotor_encode. rewrite Hv. cbn [mbind result_bind].
    rewrite bool_decide_eq_true_2 by done. rewrite Hup, Hi. cbn [mbind result_bind].
    rewrite (getitem_nonneg _ _ y); [done|lia|]. by rewrite Nat2Z.id. }
  split.
  - eexists. unfold fullEncode.
    change (inputValidator encodingElement "Element to encode" "A") with (OK "a").
    cbn [mbind result_bind]. rewrite Hboard. cbn [attr_of mbind result_bind].
    rewrite Plugboard_encode_unwired by (done || (do 2 right; left)).
    cbn [mbind result_bind]. rewrite Hstep. cbn [mbind result_bind].
    change (Py.upper "a") with "A".
    rewrite identity_rotors_pass; [|by apply Forall_reverse|left].
    cbn [mbind result_bind]. rewrite Hrefl. cbn [attr_of mbind result_bind].
    rewrite (Hreflect 0%nat "A" "B") by done. cbn [mbind result_bind].
    rewrite (Hleft "B") by (right; left). cbn [mbind result_bind].
    rewrite Plugboard_encode_unwired by (done || (right; left)).
    cbn [mbind result_bind]. reflexivity.
  - eexists. unfold fullEncode.
    change (inputValidator encodingElement "Element to encode" "B") with (OK "b").
    cbn [mbind result_bind]. rewrite Hboard. cbn [attr_of mbind result_bind].
    rewrite Plugboard_encode_unwired by (done || (do 3 right; left)).
    cbn [mbind result_bind]. rewrite Hstep. cbn [mbind result_bind].
    change (Py.upper "b") with "B".
    rewrite identity_rotors_pass; [|by apply Forall_reverse|right; left].
    cbn [mbind result_bind]. rewrite Hrefl. cbn [attr_of mbind result_bind].
    rewrite (Hreflect 1%nat "B" "A") by done. cbn [mbind result_bind].
    rewrite (Hleft "A") by left. cbn [mbind result_bind].
    rewrite Plugboard_encode_unwired by (done || left).
    cbn [mbind result_bind]. reflexivity.
Qed.

Lemma reciprocity_A_B_witness :
  (m ← setup EnigmaMachine_init
         [mkRotorSpec "RotorCustom" 1 "A" 1 ["ABCDEFGHIJKLMNOPQRSTUVWXYZ"];
          mkRotorSpec "RotorCustom" 5 "Q" 2 ["ABCDEFGHIJKLMNOPQRSTUVWXYZ"];
          mkRotorSpec "RotorCustom" 26 "Z" 3 ["ABCDEFGHIJKLMNOPQRSTUVWXYZ"]]
         (ReflectorArgs ["ReflectorCustom"; "BADCFEHGJILKNMPORQTSVUXWZY"]) None 10;
   a ← fullEncode m "A";
   b ← fullEncode m "B";
   OK (a.2, b.2))
  = OK ("B", "A").
Proof.
  destruct (setup _ _ _ _ _) as [m|] eqn:Hm; [|vm_compute in Hm; discriminate].
  vm_compute in Hm. injection Hm as <-. cbn [mbind result_bind].
  match goal with
  | |- context [fullEncode ?m "A"] =>
      match eval cbn in (plugBoard m, reflector m) with
      | (Some ?board, Some ?refl) =>
          destruct (reciprocity_A_B m board refl) as [[m1 H1] [m2 H2]];
            [| | | | | | | |rewrite H1, H2; reflexivity]
      end
  end.
  - simpl. lia.
  - cbn [rotorsList].
    repeat (apply Forall_cons_2;
            [do 3 (split; [reflexivity|]);
             split; eexists; (split; [reflexivity|lia])|]).
    apply Forall_nil_2.
  - reflexivity.
  - reflexivity.
  - reflexivity.
  - reflexivity.
  - intros x y (i & Hi & Hw).
    do 26 (destruct i as [|i];
           [injection Hi as <-; injection Hw as <-;
            split; [done|];
            match goal with
            | |- wired_to _ ?y _ =>
                exists (Z.to_nat (match Py.index genericMapping y with
                                  | OK k => k
                                  | Raise _ => 0
                                  end))
            end; split; reflexivity|]).
    done.
  - exists 0%nat. split; reflexivity.
Defined.

(** ** What [setup] accepts and builds *)

(** C9, as stated, fails in its last part: a setup that asks for order 1
    twice is accepted. *)
Lemma setup_accepts_duplicate_order :
  exists m,
    setup EnigmaMachine_init
      [mkRotorSpec "RotorI" 1 "A" 1 []; mkRotorSpec "RotorII" 1 "A" 1 [];
       mkRotorSpec "RotorIII" 1 "A" 2 []]
      (ReflectorName "ReflectorB") None 10 = OK m
    /\ name <$> rotorsList m = ["II"; "III"; "I"].
Proof. eexists. split; vm_compute; reflexivity. Qed.

(** C9, amended: once the plugboard arguments are accepted, a setup with
    fewer than three rotors fails with the count error; an entry whose
    order is below 1 fails with the position error when the entries before
    it were accepted and its own rotor can be built; and an entry that asks
    for the order of the entry before it is accepted: its rotor is
    inserted at that position. *)
Theorem setup_rotor_count_and_order
  (self : EnigmaMachine) (reflectorSpec : ReflectorSpec) (plugleads : option string)
  (numPlugLeads : Z) (board : Plugboard) :
  setup_plugboard numPlugLeads plugleads = OK board ->
  (forall rotors,
      (length rotors < 3)%nat ->
      setup self rotors reflectorSpec plugleads numPlugLeads
      = Raise (ValueError "Minimum number of rotors is 3."))
  /\ (forall before i after m rotor,
        (3 <= length (before ++ i :: after))%nat ->
        for_each setup_rotor (addPlugBoard self board) before = OK m ->
        rotor_of_spec i = OK rotor ->
        spec_order i < 1 ->
        setup self (before ++ i :: after) reflectorSpec plugleads numPlugLeads
        = Raise (ValueError "Position {} is invalid for rotor {}"))
  /\ (forall m i j m1 rotor,
        setup_rotor m i = OK m1 ->
        rotor_of_spec j = OK rotor ->
        spec_order j = spec_order i ->
        setup_rotor m1 j
        = OK (mkEnigmaMachine
                (Py.insert (rotorsList m1) (spec_order j - 1) rotor)
                (plugBoard m1) (reflector m1))).
Proof.
  intros Hboard. split; [|split].
  - intros rotors Hlen. unfold setup. rewrite Hboard. cbn [mbind result_bind].
    destruct (Z.ltb_spec (Z.of_nat (length rotors)) 3); [done|lia].
  - intros before i after m rotor Hlen Hbefore Hrotor Horder.
    unfold setup. rewrite Hboard. cbn [mbind result_bind].
    destruct (Z.ltb_spec (Z.of_nat (length (before ++ i :: after))) 3); [lia|].
    rewrite for_each_app, Hbefore. cbn [mbind result_bind for_each].
    assert (Hi : setup_rotor m i = Raise (ValueError "Position {} is invalid for rotor {}")).
    { unfold setup_rotor. rewrite Hrotor. cbn [mbind result_bind].
      unfold addRotor. destruct (Z.ltb_spec (spec_order i) 1); [done|lia]. }
    by rewrite Hi.
  - intros m i j m1 rotor Hi Hj Horder. unfold setup_rotor in *. rewrite Hj.
    cbn [mbind result_bind].
    destruct (rotor_of_spec i) as [ri|]; [|done]. cbn [mbind result_bind] in Hi.
    unfold addRotor in *. rewrite Horder.
    destruct (Z.ltb_spec (spec_order i) 1); [done|].
    destruct (Z.gtb_spec (spec_order i - 1) (Z.of_nat (length (rotorsList m))));
      [done|].
    injection Hi as <-. cbn [rotorsList plugBoard reflector].
    destruct (Z.gtb_spec (spec_order i - 1)
                (Z.of_nat (length (Py.insert (rotorsList m) (spec_order i - 1) ri))));
      [|done].
    exfalso. unfold Py.insert in *. rewrite length_app in *. simpl in *.
    rewrite length_take, length_drop in *. unfold Py.norm_index in *.
    destruct (Z.ltb_spec (spec_order i - 1) 0); lia.
Qed.

Lemma setup_rotor_count_and_order_witness :
  setup EnigmaMachine_init
    [mkRotorSpec "RotorI" 1 "A" 1 []; mkRotorSpec "RotorII" 1 "A" 2 []]
    (ReflectorName "ReflectorB") None 10
  = Raise (ValueError "Minimum number of rotors is 3.")
  /\ setup EnigmaMachine_init
       [mkRotorSpec "RotorI" 1 "A" 0 []; mkRotorSpec "RotorII" 1 "A" 2 [];
        mkRotorSpec "RotorIII" 1 "A" 3 []]
       (ReflectorName "ReflectorB") None 10
     = Raise (ValueError "Position {} is invalid for rotor {}")
  /\ (m1 ← setup_rotor EnigmaMachine_init (mkRotorSpec "RotorI" 1 "A" 1 []);
      m2 ← setup_rotor m1 (mkRotorSpec "RotorII" 1 "A" 1 []);
      OK (name <$> rotorsList m2)) = OK ["II"; "I"].
Proof.
  destruct (setup_rotor_count_and_order EnigmaMachine_init
              (ReflectorName "ReflectorB") None 10 (mkPlugboard [] [] 10) eq_refl)
    as (Hcount & Horder & Hsame).
  split; [|split].
  - apply Hcount. simpl. lia.
  - destruct (rotor_of_spec (mkRotorSpec "RotorI" 1 "A" 0 [])) as [rotor|] eqn:Hrotor;
      [|vm_compute in Hrotor; discriminate].
    apply (Horder [] (mkRotorSpec "RotorI" 1 "A" 0 []) _
             (addPlugBoard EnigmaMachine_init (mkPlugboard [] [] 10)) rotor).
    + simpl. lia.
    + reflexivity.
    + exact Hrotor.
    + simpl. lia.
  - destruct (setup_rotor EnigmaMachine_init (mkRotorSpec "RotorI" 1 "A" 1 []))
      as [m1|] eqn:H1; [|vm_compute in H1; discriminate].
    destruct (rotor_of_spec (mkRotorSpec "RotorII" 1 "A" 1 [])) as [rotor|] eqn:H2;
      [|vm_compute in H2; discriminate].
    cbn [mbind result_bind].
    rewrite (Hsame _ _ _ _ _ H1 H2 eq_refl). cbn [mbind result_bind rotorsList].
    vm_compute in H1. vm_compute in H2.
    injection H1 as <-. injection H2 as <-. reflexivity.
Defined.

Lemma setup_rotors_wired (m0 m1 : EnigmaMachine) (specs : list RotorSpec) :
  for_each setup_rotor m0 specs = OK m1 ->
  Forall (fun i => spec_name i <> "RotorCustom") specs ->
  Forall wired_rotor (rotorsList m0) ->
  Forall wired_rotor (rotorsList m1)
  /\ length (rotorsList m1) = (length (rotorsList m0) + length specs)%nat
  /\ plugBoard m1 = plugBoard m0 /\ reflector m1 = reflector m0.
Proof.
  revert m0. induction specs as [|i specs IH]; intros m0 Hrun Hstock Hwired.
  - injection Hrun as <-. repeat split; try done; simpl; lia.
  - inversion_clear Hstock as [|? ? Hi Hspecs]. cbn [for_each] in Hrun.
    destruct (setup_rotor m0 i) as [m'|] eqn:Hadd; [|done].
    cbn [mbind result_bind] in Hrun.
    unfold setup_rotor in Hadd.
    destruct (rotor_of_spec i) as [rotor|] eqn:Hrotor; [|done].
    cbn [mbind result_bind] in Hadd. unfold addRotor in Hadd.
    destruct (spec_order i <? 1); [done|].
    destruct (_ >? _); [done|]. injection Hadd as <-.
    apply IH in Hrun as (Hw & Hlen & Hb & Hr); [|done|].
    + cbn [rotorsList plugBoard reflector] in *. rewrite insert_length in Hlen.
      repeat split; try done. simpl. lia.
    + cbn [rotorsList]. apply insert_Forall; [done|].
      by eapply rotor_of_spec_stock_wired.
Qed.

Lemma stock_reflector_wired (name : string) (r : Rotor) :
  setup_reflector (ReflectorName name) = OK r -> wired_reflector r.
Proof.
  unfold setup_reflector. destruct (bool_decide (name ∈ validReflectors)); [|done].
  unfold stock_reflector_class.
  repeat (destruct (bool_decide (name = _));
          [intros [= <-]; split; [done|split; [done|]];
           apply (bool_decide_unpack _); vm_compute; exact I|]).
  done.
Qed.

(** A machine that [setup] builds from stock rotors, a stock reflector
    and leads of two different letters each is ready to encode. *)
Theorem setup_ready (self m : EnigmaMachine) (rotors : list RotorSpec)
  (name : string) (plugleads : option string) (numPlugLeads : Z)
  (board : Plugboard) :
  rotorsList self = [] ->
  Forall (fun i => spec_name i <> "RotorCustom") rotors ->
  setup_plugboard numPlugLeads plugleads = OK board -> proper_board board ->
  setup self rotors (ReflectorName name) plugleads numPlugLeads = OK m ->
  ready_machine m.
Proof.
  intros Hempty Hstock Hboard Hproper. unfold setup. rewrite Hboard.
  cbn [mbind result_bind].
  destruct (Z.ltb_spec (Z.of_nat (length rotors)) 3) as [|Hlen]; [done|].
  destruct (for_each setup_rotor _ rotors) as [m1|] eqn:Hrun; [|done].
  cbn [mbind result_bind].
  destruct (setup_reflector (ReflectorName name)) as [refl|] eqn:Hrefl; [|done].
  cbn [mbind result_bind]. intros [= <-].
  apply setup_rotors_wired in Hrun as (Hw & Hl & Hb & _); [|done|].
  2:{ cbn. rewrite Hempty. apply Forall_nil_2. }
  cbn [addPlugBoard rotorsList plugBoard] in *. rewrite Hempty in Hl.
  split; [|split; [|split]]; cbn [addReflector rotorsList plugBoard reflector].
  - simpl in Hl. lia.
  - done.
  - exists board. by rewrite Hb.
  - exists refl. split; [done|]. by eapply stock_reflector_wired.
Qed.

(** ** What the validator lets through *)

Lemma letters_only_length (s : string) :
  Py.len (Py.letters_only s) <= Py.len s.
Proof.
  unfold Py.len. induction s as [|c s IH]; simpl; [lia|].
  destruct (Py.is_letter c); simpl; lia.
Qed.

Lemma letters_only_all (s : string) :
  all_letters s = true -> Py.letters_only s = s.
Proof.
  induction s as [|c s IH]; simpl; [done|].
  destruct (Py.is_letter c); simpl; [|done]. intros H. by rewrite IH.
Qed.

Lemma letters_only_shorter (s : string) :
  all_letters s = false -> Py.len (Py.letters_only s) < Py.len s.
Proof.
  unfold Py.len. induction s as [|c s IH]; simpl; [done|].
  pose proof (letters_only_length s) as Hle. unfold Py.len in Hle.
  destruct (Py.is_letter c); simpl; intros H; [specialize (IH H)|]; lia.
Qed.

Lemma single_letter_in_letters (c : ascii) :
  Py.is_letter c = true -> String c "" ∈ letters.
Proof.
  assert (H : implb (Py.is_letter c) (bool_decide (String c "" ∈ letters)) = true).
  { destruct c as [[] [] [] [] [] [] [] []]; vm_compute; reflexivity. }
  intros Hc. rewrite Hc in H. by apply bool_decide_eq_true_1 in H.
Qed.

Lemma letters_single (x : string) :
  x ∈ letters -> exists c, x = String c "" /\ Py.is_letter c = true.
Proof.
  revert x. apply Forall_forall.
  repeat (apply Forall_cons_2; [eexists; split; reflexivity|]). apply Forall_nil_2.
Qed.

Lemma validated_letter (element s l : string) :
  inputValidator encodingElement element s = OK l -> s ∈ letters.
Proof.
  unfold inputValidator.
  destruct (Z.gtb_spec (Py.len s) (Py.len (Py.letters_only s))) as [|Hle]; [done|].
  destruct (Z.eqb_spec (Py.len (Py.letters_only s)) 1) as [H1|]; [|done].
  intros _. destruct (all_letters s) eqn:Hall.
  - rewrite (letters_only_all s Hall) in H1.
    destruct s as [|c [|c' s]].
    + done.
    + apply single_letter_in_letters. simpl in Hall. by destruct (Py.is_letter c).
    + exfalso. revert H1. unfold Py.len. simpl. lia.
  - pose proof (letters_only_shorter s Hall). lia.
Qed.

(** X1: on an encoding input the validator returns the lower-cased input
    exactly when it is one ASCII letter; an input with any other character
    is refused with the only-letters message, and a string of letters of
    another length with the one-letter message. *)
Theorem inputValidator_encoding (element s : string) :
  inputValidator encodingElement element s =
    if negb (all_letters s) then
      Raise (InputError s ("[" +:+ element +:+ "] Input can only take letters [a-zA-Z]."))
    else if bool_decide (s ∈ letters) then OK (Py.lower s)
    else Raise (InputError s ("[" +:+ element +:+ "] Input must cointain ONE letter.")).
Proof.
  unfold inputValidator. destruct (all_letters s) eqn:Hall; cbn [negb].
  - rewrite (letters_only_all s Hall).
    destruct (Z.gtb_spec (Py.len s) (Py.len s)) as [|_]; [lia|].
    destruct (decide (s ∈ letters)) as [Hin|Hnin].
    + rewrite bool_decide_eq_true_2 by done.
      destruct (letters_single s Hin) as (c & -> & _). done.
    + rewrite bool_decide_eq_false_2 by done.
      destruct s as [|c [|c' s]]; [done| |].
      * exfalso. apply Hnin, single_letter_in_letters.
        simpl in Hall. by destruct (Py.is_letter c).
      * destruct (Z.eqb_spec (Py.len (String c (String c' s))) 1) as [H1|]; [|done].
        exfalso. revert H1. unfold Py.len. simpl. lia.
  - pose proof (letters_only_shorter s Hall).
    destruct (Z.gtb_spec (Py.len s) (Py.len (Py.letters_only s))); [done|lia].
Qed.

Lemma lower_char_idem (c : ascii) : Py.lower_char (Py.lower_char c) = Py.lower_char c.
Proof. destruct c as [[] [] [] [] [] [] [] []]; vm_compute; reflexivity. Qed.

(** X2: [PlugLead(s)] is built exactly when [s] is two ASCII letters that
    differ as characters, and then holds the two letters in lower case, in
    order; every other input is refused with the message of the first test
    it fails. *)
Theorem PlugLead_init_accepts (s : string) :
  PlugLead_init s =
    if negb (all_letters s) then
      Raise (InputError s "[PlugLead] Input can only take letters [a-zA-Z].")
    else
      match s with
      | String c1 (String c2 EmptyString) =>
          if bool_decide (c1 = c2) then
            Raise (InputError s "[PlugLead] Input letters must be different.")
          else
            OK (mkPlugLead [Py.lower (String c1 ""); Py.lower (String c2 "")])
      | _ => Raise (InputError s "[PlugLead] Input must cointain TWO letters.")
      end.
Proof.
  unfold PlugLead_init, inputValidator. destruct (all_letters s) eqn:Hall; cbn [negb].
  - rewrite (letters_only_all s Hall).
    destruct (Z.gtb_spec (Py.len s) (Py.len s)) as [|_]; [lia|].
    destruct s as [|c1 [|c2 [|c3 s]]]; try done.
    + cbn [Py.len String.length Z.eqb negb String.get].
      destruct (decide (c1 = c2)) as [->|Hne].
      * by rewrite !bool_decide_eq_true_2.
      * rewrite !bool_decide_eq_false_2 by congruence.
        unfold Py.lower, Py.chars. simpl. by rewrite !lower_char_idem.
    + destruct (Z.eqb_spec (Py.len (String c1 (String c2 (String c3 s)))) 2) as [H2|];
        [|done].
      exfalso. revert H2. unfold Py.len. simpl. lia.
  - pose proof (letters_only_shorter s Hall).
    destruct (Z.gtb_spec (Py.len s) (Py.len (Py.letters_only s))); [done|lia].
Qed.

(** ** A lead swaps its two letters *)

(** X3: a lead built from two letters that also differ once lowered sends
    each of its letters, in either case, to the other one in upper case,
    and every other letter to its own upper case. *)
Theorem PlugLead_swaps (s : string) (lead : PlugLead) :
  PlugLead_init s = OK lead -> NoDup (lettersList lead) ->
  exists a b,
    lettersList lead = [a; b] /\ a <> b
    /\ PlugLead_encode lead a = OK (Py.upper b)
    /\ PlugLead_encode lead b = OK (Py.upper a)
    /\ PlugLead_encode lead (Py.upper a) = OK (Py.upper b)
    /\ PlugLead_encode lead (Py.upper b) = OK (Py.upper a)
    /\ (forall x, x ∈ letters -> Py.lower x <> a -> Py.lower x <> b ->
          PlugLead_encode lead x = OK (Py.upper x)).
Proof.
  intros Hinit Hnd.
  destruct (PlugLead_init_proper s lead Hinit Hnd) as (a & b & Hab & Hne & Ha & Hb).
  assert (Hlow : forall x, x ∈ letters ->
            PlugLead_encode lead x = PlugLead_encode lead (Py.lower x)).
  { intros x Hx. unfold PlugLead_encode.
    destruct (letters_lowers "PlugLead" x Hx) as (Hl & -> & _).
    by destruct (lowers_validated "PlugLead" (Py.lower x) Hl) as (-> & _). }
  assert (Hswap_a : PlugLead_encode lead a = OK (Py.upper b)).
  { rewrite (PlugLead_encode_proper lead a b a Hab Hne Ha). by rewrite decide_True. }
  assert (Hswap_b : PlugLead_encode lead b = OK (Py.upper a)).
  { rewrite (PlugLead_encode_proper lead a b b Hab Hne Hb).
    rewrite decide_False by done. by rewrite decide_True. }
  destruct (lowers_validated "" a Ha) as (_ & Hla & _).
  destruct (lowers_validated "" b Hb) as (_ & Hlb & _).
  exists a, b. split; [done|]. split; [done|]. split; [done|]. split; [done|].
  split; [|split].
  - rewrite Hlow by (by apply upper_lowers_in_letters). by rewrite Hla.
  - rewrite Hlow by (by apply upper_lowers_in_letters). by rewrite Hlb.
  - intros x Hx Hxa Hxb. rewrite Hlow by done.
    destruct (letters_lowers "" x Hx) as (Hl & _ & Hup).
    rewrite (PlugLead_encode_proper lead a b (Py.lower x) Hab Hne Hl).
    rewrite !decide_False by done. by rewrite Hup.
Qed.

Lemma PlugLead_swaps_witness :
  (lead ← PlugLead_init "Qz";
   a ← PlugLead_encode lead "q";
   b ← PlugLead_encode lead "Z";
   c ← PlugLead_encode lead "m";
   OK (lettersList lead, a, b, c)) = OK (["q"; "z"], "Z", "Q", "M").
Proof.
  destruct (PlugLead_init "Qz") as [lead|] eqn:Hlead; [|vm_compute in Hlead; discriminate].
  destruct (PlugLead_swaps "Qz" lead Hlead) as (a & b & Hab & _ & Ha & _ & _ & Hb & Hc).
  - vm_compute in Hlead. injection Hlead as <-.
    apply (bool_decide_unpack _). vm_compute. exact I.
  - assert (Heq : lettersList lead = ["q"; "z"]).
    { vm_compute in Hlead. by injection Hlead as <-. }
    rewrite Hab in Heq. injection Heq as -> ->.
    cbn [mbind result_bind]. rewrite Ha. cbn [mbind result_bind].
    change "Z" with (Py.upper "z") at 1. rewrite Hb. cbn [mbind result_bind].
    rewrite (Hc "m"); [|by apply (bool_decide_unpack _)|done|done].
    cbn [mbind result_bind]. by rewrite Hab.
Defined.

(** ** Adding leads to a board *)

(** X4: on a board that is not full, adding a lead one of whose letters is
    already on the board fails with the already-assigned error, which names
    the first such letter of the lead in upper case. *)
Theorem Plugboard_add_conflict (board : Plugboard) (lead : PlugLead)
  (before after : list string) (x : string) :
  Z.of_nat (length (plugLeads board)) <> numPlugLeads board ->
  lettersList lead = before ++ x :: after ->
  (forall y, y ∈ before -> y ∉ plugLeadsLetters board) ->
  x ∈ plugLeadsLetters board ->
  Plugboard_add board lead =
    Raise (PlugboardError (Py.upper x)
             "Already assigned to another PlugLead.Please restart your Enigma Machine for including it.").
Proof.
  intros Hcap Hlead Hbefore Hx. unfold Plugboard_add.
  destruct (Z.eqb_spec (Z.of_nat (length (plugLeads board))) (numPlugLeads board));
    [done|].
  rewrite Hlead.
  assert (H : forall current,
    add_letters (plugLeadsLetters board) (before ++ x :: after) current =
    Raise (PlugboardError (Py.upper x)
             "Already assigned to another PlugLead.Please restart your Enigma Machine for including it.")).
  { clear Hlead. induction before as [|y before IH]; intros current; simpl.
    - by rewrite bool_decide_eq_true_2.
    - rewrite bool_decide_eq_false_2 by (apply Hbefore; left).
      apply IH. intros z Hz. apply Hbefore. by right. }
  by rewrite H.
Qed.

Lemma Plugboard_add_conflict_witness :
  Plugboard_add (mkPlugboard ["a"; "b"] [mkPlugLead ["a"; "b"]] 10)
                (mkPlugLead ["c"; "b"])
  = Raise (PlugboardError "B"
      "Already assigned to another PlugLead.Please restart your Enigma Machine for including it.").
Proof.
  apply (Plugboard_add_conflict _ _ ["c"] [] "b").
  - simpl. lia.
  - reflexivity.
  - intros y Hy. apply list_elem_of_singleton in Hy as ->.
    by apply (bool_decide_unpack _).
  - by apply (bool_decide_unpack _).
Defined.

Lemma add_run (board board' : Plugboard) (leads : list PlugLead) :
  for_each Plugboard_add board leads = OK board' ->
  plugLeads board' = plugLeads board ++ leads
  /\ numPlugLeads board' = numPlugLeads board
  /\ plugLeadsLetters board' = plugLeadsLetters board ++ concat (lettersList <$> leads)
  /\ (Z.of_nat (length (plugLeads board)) <= numPlugLeads board ->
      Z.of_nat (length (plugLeads board')) <= numPlugLeads board).
Proof.
  revert board. induction leads as [|lead leads IH]; intros board; cbn [for_each].
  - intros [= <-]. simpl. by rewrite !app_nil_r.
  - destruct (Plugboard_add board lead) as [b1|] eqn:Hadd; [|done].
    cbn [mbind result_bind]. intros Hrun.
    unfold Plugboard_add in Hadd.
    destruct (Z.eqb_spec (Z.of_nat (length (plugLeads board))) (numPlugLeads board))
      as [|Hne]; [done|].
    destruct (add_letters _ _ _) as [current|] eqn:Hletters; [|done].
    apply add_letters_ok in Hletters as [-> _]. injection Hadd as <-.
    apply IH in Hrun as (Hl & Hn & Hs & Hcap).
    cbn [plugLeads numPlugLeads plugLeadsLetters] in *.
    split; [by rewrite Hl, <- app_assoc|]. split; [done|].
    split; [by rewrite Hs, <- app_assoc|].
    intros Hle. apply Hcap. rewrite length_app. simpl. lia.
Qed.

Lemma add_run_overflow (board : Plugboard) (leads : list PlugLead) :
  Z.of_nat (length (plugLeads board)) <= numPlugLeads board ->
  numPlugLeads board < Z.of_nat (length (plugLeads board) + length leads) ->
  fresh_leads (plugLeadsLetters board) leads = true ->
  exists lead,
    leads !! Z.to_nat (numPlugLeads board - Z.of_nat (length (plugLeads board)))
      = Some lead
    /\ for_each Plugboard_add board leads =
         Raise (PlugboardError (Py.join (Py.upper <$> lettersList lead))
                               capacity_message).
Proof.
  revert board. induction leads as [|lead leads IH]; intros board Hle Hlt Hfresh.
  - simpl in Hlt. lia.
  - simpl in Hfresh. apply andb_prop in Hfresh as [Hlead Hrest].
    destruct (decide (Z.of_nat (length (plugLeads board)) = numPlugLeads board))
      as [Hfull|Hroom].
    + exists lead. rewrite <- Hfull, Z.sub_diag. split; [done|].
      cbn [for_each]. unfold Plugboard_add.
      destruct (Z.eqb_spec (Z.of_nat (length (plugLeads board))) (numPlugLeads board));
        [done|lia].
    + cbn [for_each]. rewrite Plugboard_add_fresh; [|done|].
      2:{ intros x Hx. rewrite forallb_forall in Hlead.
          apply list_elem_of_In, Hlead in Hx. by apply bool_decide_eq_true_1 in Hx. }
      cbn [mbind result_bind].
      set (b1 := mkPlugboard _ _ _).
      destruct (IH b1) as (l & Hl & Hrun).
      * subst b1. cbn [plugLeads numPlugLeads]. rewrite length_app. simpl. lia.
      * subst b1. cbn [plugLeads numPlugLeads]. rewrite length_app. simpl length in *. lia.
      * done.
      * exists l. split; [|done]. subst b1. cbn [plugLeads numPlugLeads] in Hl.
        rewrite length_app in Hl. simpl length in Hl.
        replace (Z.to_nat (numPlugLeads board - Z.of_nat (length (plugLeads board))))
          with (S (Z.to_nat (numPlugLeads board
                             - Z.of_nat (length (plugLeads board) + 1)))) by lia.
        done.
Qed.

(** X5: a board of capacity [n >= 0] never holds more than [n] leads.  A
    run of [add] that succeeds leaves the leads in the order they were added
    and at most [n] of them; a run of more than [n] leads with disjoint
    letters fails at lead number [n + 1] with the capacity error, which
    carries that lead's letters in upper case. *)
Theorem Plugboard_capacity (n : Z) (leads : list PlugLead) :
  0 <= n ->
  (forall board,
      for_each Plugboard_add (mkPlugboard [] [] n) leads = OK board ->
      plugLeads board = leads /\ Z.of_nat (length leads) <= n
      /\ numPlugLeads board = n
      /\ plugLeadsLetters board = concat (lettersList <$> leads))
  /\ (n < Z.of_nat (length leads) -> fresh_leads [] leads = true ->
      exists lead,
        leads !! Z.to_nat n = Some lead
        /\ for_each Plugboard_add (mkPlugboard [] [] n) leads =
             Raise (PlugboardError (Py.join (Py.upper <$> lettersList lead))
                                   capacity_message)).
Proof.
  intros Hn. split.
  - intros board Hrun. apply add_run in Hrun as (Hl & Hc & Hs & Hcap).
    cbn [plugLeads numPlugLeads plugLeadsLetters app] in *.
    rewrite Hl in Hcap. repeat split; try done. by apply Hcap.
  - intros Hlt Hfresh.
    destruct (add_run_overflow (mkPlugboard [] [] n) leads) as (lead & Hl & Hrun);
      cbn [plugLeads numPlugLeads plugLeadsLetters]; simpl length; try (done || lia).
    exists lead. split; [|done]. by rewrite Z.sub_0_r in Hl.
Qed.

Lemma Plugboard_capacity_witness :
  for_each Plugboard_add (mkPlugboard [] [] 1)
    [mkPlugLead ["a"; "b"]; mkPlugLead ["c"; "d"]]
  = Raise (PlugboardError "CD" capacity_message).
Proof.
  destruct (Plugboard_capacity 1 [mkPlugLead ["a"; "b"]; mkPlugLead ["c"; "d"]])
    as [_ H]; [lia|].
  destruct H as (lead & Hlead & Hrun); [simpl; lia|reflexivity|].
  injection Hlead as <-. exact Hrun.
Defined.

Lemma add_one (board board' : Plugboard) (lead : PlugLead) :
  Plugboard_add board lead = OK board' ->
  plugLeads board' = plugLeads board ++ [lead].
Proof.
  intros Hadd. apply (add_run board board' [lead]).
  cbn [for_each]. by rewrite Hadd.
Qed.

Lemma setup_leads_grow (board board' : Plugboard) (pairs : list string) :
  for_each (fun board i => lead ← PlugLead_init i; Plugboard_add board lead)
    board pairs = OK board' ->
  exists more, plugLeads board' = plugLeads board ++ more.
Proof.
  revert board. induction pairs as [|i pairs IH]; intros board; cbn [for_each].
  - intros [= <-]. exists []. by rewrite app_nil_r.
  - destruct (PlugLead_init i) as [lead|]; [|done]. cbn [mbind result_bind].
    destruct (Plugboard_add board lead) as [b1|] eqn:Hadd; [|done].
    cbn [mbind result_bind]. intros Hrun.
    apply IH in Hrun as [more Hmore].
    apply add_one in Hadd as Hl.
    exists (lead :: more). rewrite Hmore, Hl. by rewrite <- app_assoc.
Qed.

Lemma setup_leads_proper (board board' : Plugboard) (pairs : list string) :
  for_each (fun board i => lead ← PlugLead_init i; Plugboard_add board lead)
    board pairs = OK board' ->
  proper_board board ->
  Forall (fun lead => NoDup (lettersList lead)) (plugLeads board') ->
  proper_board board'.
Proof.
  revert board. induction pairs as [|i pairs IH]; intros board; cbn [for_each].
  - by intros [= <-].
  - destruct (PlugLead_init i) as [lead|] eqn:Hinit; [|done]. cbn [mbind result_bind].
    destruct (Plugboard_add board lead) as [b1|] eqn:Hadd; [|done].
    cbn [mbind result_bind]. intros Hrun Hproper Hnd.
    apply (IH b1); [done| |done].
    apply (Plugboard_add_proper board b1 lead); [done| |done].
    apply (PlugLead_init_proper i); [done|].
    destruct (setup_leads_grow _ _ _ Hrun) as [more Hmore].
    apply add_one in Hadd as Hl.
    rewrite Hmore, Hl in Hnd. rewrite Forall_forall in Hnd. apply Hnd.
    apply elem_of_app. left. apply elem_of_app. right. left.
Qed.

Lemma setup_plugboard_proper (n : Z) (plugleads : option string) (board : Plugboard) :
  setup_plugboard n plugleads = OK board ->
  Forall (fun lead => NoDup (lettersList lead)) (plugLeads board) ->
  proper_board board.
Proof.
  intros Hsetup Hnd. unfold setup_plugboard in Hsetup.
  destruct (Plugboard_init n) as [b0|] eqn:Hinit; [|done].
  cbn [mbind result_bind] in Hsetup. apply Plugboard_init_proper in Hinit.
  destruct plugleads as [s|]; [|by injection Hsetup as <-].
  by apply (setup_leads_proper b0 board (Py.split s)).
Qed.

(** X6: the plugboard [setup] builds is its own inverse.  When no lead
    holds the same letter twice, [encode] of a letter returns a letter of
    the alphabet, [encode] of that letter returns the first one in upper
    case, and a letter on no lead is returned in upper case. *)
Theorem setup_plugboard_reciprocal (n : Z) (plugleads : option string)
  (board : Plugboard) (x : string) :
  setup_plugboard n plugleads = OK board ->
  Forall (fun lead => NoDup (lettersList lead)) (plugLeads board) ->
  x ∈ letters ->
  exists y,
    Plugboard_encode board x = OK y /\ y ∈ genericMapping
    /\ Plugboard_encode board y = OK (Py.upper x)
    /\ (Py.lower x ∉ plugLeadsLetters board -> y = Py.upper x).
Proof.
  intros Hsetup Hnd Hx.
  pose proof (setup_plugboard_proper n plugleads board Hsetup Hnd) as Hproper.
  destruct (Plugboard_involution board x Hproper Hx) as (y & Hy & Hback & _ & Hfree).
  exists y. repeat split; try done.
  destruct (Plugboard_encode_total board x Hproper Hx) as (y' & Hy' & Hin).
  congruence.
Qed.

Lemma setup_plugboard_reciprocal_witness :
  (board ← setup_plugboard 10 (Some "HL MO AJ");
   y ← Plugboard_encode board "h";
   x ← Plugboard_encode board y;
   OK (y, x)) = OK ("L", "H").
Proof.
  destruct (setup_plugboard 10 (Some "HL MO AJ")) as [board|] eqn:H;
    [|vm_compute in H; discriminate].
  cbn [mbind result_bind].
  destruct (setup_plugboard_reciprocal 10 (Some "HL MO AJ") board "h" H)
    as (y & Hy & _ & Hback & _).
  - vm_compute in H. injection H as <-.
    repeat (apply Forall_cons_2; [apply (bool_decide_unpack _); vm_compute; exact I|]).
    apply Forall_nil_2.
  - apply (bool_decide_unpack _). vm_compute. exact I.
  - rewrite Hy. cbn [mbind result_bind]. rewrite Hback. cbn [mbind result_bind].
    vm_compute in H. injection H as <-. vm_compute in Hy. by injection Hy as <-.
Defined.

(** ** Building a rotor *)

Lemma Rotor_init_ok (ring : Z) (pos type name : string) :
  1 <= ring <= 26 -> pos ∈ letters ->
  exists p,
    0 <= p <= 25 /\ genericMapping !! Z.to_nat p = Some (Py.upper pos)
    /\ Rotor_init ring pos type name =
         OK (mkRotor type name [] (Some (ring - 1)) (Some p) (Some p) []).
Proof.
  intros Hring Hpos.
  destruct (letters_validated "Initial Position" pos Hpos) as (Hv & Hupl & _ & Hup).
  destruct (index_bounds _ _ Hup) as (p & Hp & Hb & Hl). simpl length in Hb.
  exists p. split; [lia|]. split; [done|].
  unfold Rotor_init, set_ring_setting, set_initial_pos, inputValidator_ringSetting.
  destruct (Z.ltb_spec (Z.abs ring) 1); [lia|].
  destruct (Z.gtb_spec (Z.abs ring) 26); [lia|].
  destruct (Z.ltb_spec ring 0); [lia|].
  cbn [orb mbind result_bind]. rewrite Hv. cbn [mbind result_bind].
  rewrite Hupl, Hp. cbn [mbind result_bind]. by rewrite Z.abs_eq by lia.
Qed.

(** X7: [Rotor.__init__] of a rotor that is not a reflector.  A ring
    setting outside 1..26 is refused with the ring-settings error; with a
    ring setting in range, a position that is not one letter is refused by
    the validator; otherwise the rotor holds the ring setting minus one and,
    as its initial and current position, the index of the position's upper
    case in the alphabet. *)
Theorem Rotor_init_accepts (ring : Z) (pos type name : string) :
  (~ 1 <= ring <= 26 ->
   exists c,
     Rotor_init ring pos type name =
       Raise (InputError c "[Ring Settings] Input can only take numbers between 1-26."))
  /\ (1 <= ring <= 26 -> pos ∉ letters ->
      exists msg, Rotor_init ring pos type name = Raise (InputError pos msg))
  /\ (1 <= ring <= 26 -> pos ∈ letters ->
      exists p,
        0 <= p <= 25 /\ genericMapping !! Z.to_nat p = Some (Py.upper pos)
        /\ Rotor_init ring pos type name =
             OK (mkRotor type name [] (Some (ring - 1)) (Some p) (Some p) [])).
Proof.
  split; [|split].
  - intros Hring.
    unfold Rotor_init, set_ring_setting, inputValidator_ringSetting.
    destruct (Z.ltb_spec (Z.abs ring) 1), (Z.gtb_spec (Z.abs ring) 26),
      (Z.ltb_spec ring 0); try (by eexists).
    lia.
  - intros Hring Hpos.
    unfold Rotor_init, set_ring_setting, set_initial_pos, inputValidator_ringSetting.
    destruct (Z.ltb_spec (Z.abs ring) 1); [lia|].
    destruct (Z.gtb_spec (Z.abs ring) 26); [lia|].
    destruct (Z.ltb_spec ring 0); [lia|].
    cbn [orb mbind result_bind].
    destruct (inputValidator encodingElement "Initial Position" pos) as [l|e] eqn:Hv.
    + exfalso. apply Hpos. by eapply validated_letter.
    + cbn [mbind result_bind]. revert Hv. unfold inputValidator.
      destruct (_ >? _); [intros [= <-]; by eexists|].
      destruct (negb _); [intros [= <-]; by eexists|done].
  - apply Rotor_init_ok.
Qed.

Lemma Rotor_init_accepts_witness :
  (exists c,
     Rotor_init 27 "A" "notchrotor" "I" =
       Raise (InputError c "[Ring Settings] Input can only take numbers between 1-26."))
  /\ (exists msg, Rotor_init 3 "AB" "notchrotor" "I" = Raise (InputError "AB" msg))
  /\ (exists p,
        0 <= p <= 25 /\ genericMapping !! Z.to_nat p = Some (Py.upper "q")
        /\ Rotor_init 3 "q" "notchrotor" "I" =
             OK (mkRotor "notchrotor" "I" [] (Some (3 - 1)) (Some p) (Some p) [])).
Proof.
  split; [|split].
  - apply (Rotor_init_accepts 27 "A" "notchrotor" "I"). lia.
  - apply (Rotor_init_accepts 3 "AB" "notchrotor" "I"); [lia|].
    apply (bool_decide_unpack _). vm_compute. exact I.
  - apply (Rotor_init_accepts 3 "q" "notchrotor" "I"); [lia|].
    by apply (bool_decide_unpack _).
Defined.

(** X8: [RotorCustom] accepts every non-empty wiring without a repeated
    character, whatever its length and characters, and every non-empty
    string of at most 26 notches without a repeated character; the rotor it
    builds holds the wiring and the notches as given, and is a notch rotor
    exactly when notches were passed. *)
Theorem RotorCustom_accepts (ring : Z) (pos wiring : string)
  (notches : option string) :
  1 <= ring <= 26 -> pos ∈ letters ->
  wiring <> "" -> NoDup (Py.chars wiring) ->
  match notches with
  | None => True
  | Some n => n <> "" /\ NoDup (Py.chars n) /\ Py.len n <= 26
  end ->
  exists p,
    0 <= p <= 25 /\ genericMapping !! Z.to_nat p = Some (Py.upper pos)
    /\ RotorCustom ring pos wiring notches =
         OK (mkRotor
               (match notches with None => "notchlessrotor" | Some _ => "notchrotor" end)
               "custom" (Py.chars wiring) (Some (ring - 1)) (Some p) (Some p)
               (match notches with
                | None => [NotchFalse]
                | Some n => NotchLetter <$> Py.chars n
                end)).
Proof.
  intros Hring Hpos Hne Hnd Hnotches.
  assert (Hchars : forall s, s <> "" -> Py.chars s <> []).
  { intros [|c s]; [done|]. by intros _ [=]. }
  assert (Hwiring : repeats_letters (Py.chars wiring) = OK false).
  { rewrite repeats_letters_spec by (by apply Hchars).
    f_equal. apply bool_decide_eq_false_2. by intros H. }
  unfold RotorCustom. destruct notches as [n|].
  - destruct Hnotches as (Hn & Hndn & Hlen).
    rewrite (repeats_letters_spec (Py.chars n)) by (by apply Hchars).
    rewrite (bool_decide_eq_false_2 (~ NoDup (Py.chars n))) by (by intros H).
    cbn [mbind result_bind].
    rewrite chars_length.
    destruct (Z.gtb_spec (Py.len n) 26); [lia|]. cbn [mbind result_bind fst snd].
    destruct (Rotor_init_ok ring pos "notchrotor" "custom" Hring Hpos)
      as (p & Hp & Hl & ->).
    exists p. split; [done|]. split; [done|].
    cbn [mbind result_bind]. by rewrite Hwiring.
  - cbn [mbind result_bind fst snd].
    destruct (Rotor_init_ok ring pos "notchlessrotor" "custom" Hring Hpos)
      as (p & Hp & Hl & ->).
    exists p. split; [done|]. split; [done|].
    cbn [mbind result_bind]. by rewrite Hwiring.
Qed.

Lemma RotorCustom_accepts_witness :
  exists p,
    0 <= p <= 25 /\ genericMapping !! Z.to_nat p = Some (Py.upper "c")
    /\ RotorCustom 2 "c" "QW" (Some "x") =
         OK (mkRotor "notchrotor" "custom" ["Q"; "W"] (Some (2 - 1)) (Some p) (Some p)
               [NotchLetter "x"]).
Proof.
  apply (RotorCustom_accepts 2 "c" "QW" (Some "x")).
  - lia.
  - by apply (bool_decide_unpack _).
  - done.
  - apply (bool_decide_unpack _). vm_compute. exact I.
  - split; [done|]. split; [|done]. apply (bool_decide_unpack _). vm_compute. exact I.
Defined.

(** X9: what [RotorCustom] refuses.  A notch string with a repeated
    character fails with the notches error and an empty one with
    [IndexError], both before the ring setting and the position are looked
    at; with these valid, a wiring with a repeated character fails with the
    mapping error and an empty wiring with [IndexError]. *)
Theorem RotorCustom_rejects (ring : Z) (pos wiring : string) :
  (forall n, ~ NoDup (Py.chars n) ->
     RotorCustom ring pos wiring (Some n) =
       Raise (ValueError "Notches cannot repeat letters."))
  /\ RotorCustom ring pos wiring (Some "") = Raise IndexError
  /\ (1 <= ring <= 26 -> pos ∈ letters -> ~ NoDup (Py.chars wiring) ->
      RotorCustom ring pos wiring None =
        Raise (ValueError "Mapping cannot repeat letters."))
  /\ (1 <= ring <= 26 -> pos ∈ letters ->
      RotorCustom ring pos "" None = Raise IndexError).
Proof.
  split; [|split; [|split]].
  - intros n Hnd. unfold RotorCustom.
    rewrite (repeats_letters_spec (Py.chars n)).
    + by rewrite (bool_decide_eq_true_2 (~ NoDup (Py.chars n))).
    + intros Hnil. apply Hnd. rewrite Hnil. constructor.
  - done.
  - intros Hring Hpos Hnd. unfold RotorCustom. cbn [mbind result_bind fst snd].
    destruct (Rotor_init_ok ring pos "notchlessrotor" "custom" Hring Hpos)
      as (p & _ & _ & ->).
    cbn [mbind result_bind]. rewrite repeats_letters_spec.
    + by rewrite bool_decide_eq_true_2.
    + intros Hnil. apply Hnd. rewrite Hnil. constructor.
  - intros Hring Hpos. unfold RotorCustom. cbn [mbind result_bind fst snd].
    destruct (Rotor_init_ok ring pos "notchlessrotor" "custom" Hring Hpos)
      as (p & _ & _ & ->).
    done.
Qed.

Lemma RotorCustom_rejects_witness :
  RotorCustom 1 "A" "ABCDEFGHIJKLMNOPQRSTUVWXYA" (Some "QQ") =
    Raise (ValueError "Notches cannot repeat letters.")
  /\ RotorCustom 1 "A" "ABCDEFGHIJKLMNOPQRSTUVWXYA" None =
       Raise (ValueError "Mapping cannot repeat letters.")
  /\ RotorCustom 1 "A" "" None = Raise IndexError.
Proof.
  destruct (RotorCustom_rejects 1 "A" "ABCDEFGHIJKLMNOPQRSTUVWXYA")
    as (Hnotch & _ & Hwiring & Hempty).
  assert (Hpos : "A" ∈ letters) by (by apply (bool_decide_unpack _)).
  split; [|split].
  - apply Hnotch. apply (bool_decide_unpack _). vm_compute. exact I.
  - apply Hwiring; [lia|done|]. apply (bool_decide_unpack _). vm_compute. exact I.
  - apply Hempty; [lia|done].
Defined.

(** ** The stepping law *)

(** X10: one round of stepping on a stack of rotors built by the rotor
    classes, [c] rightmost.  The rightmost rotor always turns; the second
    turns when the rightmost or the second itself shows a notch; the third
    turns when the second shows a notch; the rotors further left never
    move.  A turn changes the position alone, to the next one modulo 26. *)
Theorem stepping_law (rest : list Rotor) (a b c : Rotor) :
  Forall (fun r => class_rotor r /\ in_range (currentPos r)) (rest ++ [a; b; c]) ->
  stepRotors (rest ++ [a; b; c]) =
    OK (rest ++ [if at_notch b then turned a else a;
                 if at_notch c || at_notch b then turned b else b;
                 turned c])
  /\ (forall r p, r ∈ [a; b; c] -> currentPos r = Some p ->
        turned r = set_currentPos r ((p + 1) mod 26)).
Proof.
  intros Hall. split.
  - assert (Hrev : rest ++ [a; b; c] = reverse (c :: b :: a :: reverse rest)).
    { by rewrite !reverse_cons, reverse_involutive, <- !app_assoc. }
    assert (Hclass : Forall class_rotor (c :: b :: a :: reverse rest)).
    { apply Forall_reverse. rewrite <- Hrev.
      eapply Forall_impl; [exact Hall|]. by intros r [? _]. }
    rewrite Hrev, stepRotors_spec.
    2:{ apply Forall_reverse. rewrite <- Hrev.
        eapply Forall_impl; [exact Hall|]. by intros r [_ ?]. }
    f_equal. unfold stepped. cbv zeta.
    rewrite !(notchless_flag_class _ _ Hclass). unfold step3.
    cbn [negb fst snd]. rewrite !andb_true_r.
    by rewrite !reverse_cons, reverse_involutive, <- !app_assoc.
  - intros r p Hr Hp.
    assert (Hp' : 0 <= p <= 25).
    { rewrite Forall_forall in Hall. destruct (Hall r) as [_ (z & Hz & Hb)].
      - apply elem_of_app. by right.
      - congruence. }
    unfold turned. rewrite Hp. f_equal. apply positionLooper_mod_26. lia.
Qed.

Lemma stepping_law_witness :
  (a ← RotorI 1 "A"; b ← RotorII 1 "E"; c ← RotorIII 1 "K";
   rotors ← stepRotors [a; b; c];
   OK (currentPos <$> (rotors : list Rotor))) = OK [Some 1; Some 5; Some 11].
Proof.
  destruct (RotorI 1 "A") as [a|] eqn:Ha; [|vm_compute in Ha; discriminate].
  destruct (RotorII 1 "E") as [b|] eqn:Hb; [|vm_compute in Hb; discriminate].
  destruct (RotorIII 1 "K") as [c|] eqn:Hc; [|vm_compute in Hc; discriminate].
  vm_compute in Ha, Hb, Hc. injection Ha as <-. injection Hb as <-. injection Hc as <-.
  cbn [mbind result_bind].
  match goal with
  | |- context [stepRotors [?a; ?b; ?c]] =>
      destruct (stepping_law [] a b c) as [Hstep _]
  end.
  - repeat (apply Forall_cons_2;
            [split; [by left|eexists; split; [reflexivity|lia]]|]).
    apply Forall_nil_2.
  - cbn [app] in Hstep. rewrite Hstep. reflexivity.
Defined.

(** ** A rotor as a permutation *)

Lemma alphabet_NoDup : NoDup genericMapping.
Proof. apply (bool_decide_unpack _). vm_compute. exact I. Qed.

Lemma lookup_unique (l : list string) (a b : Z) (x : string) :
  NoDup l -> 0 <= a -> 0 <= b ->
  l !! Z.to_nat a = Some x -> l !! Z.to_nat b = Some x -> a = b.
Proof.
  intros Hnd Ha Hb H1 H2.
  pose proof (NoDup_lookup l _ _ x Hnd H1 H2). lia.
Qed.

Lemma index_lookup (l : list string) (i : Z) (x : string) :
  NoDup l -> 0 <= i -> l !! Z.to_nat i = Some x -> Py.index l x = OK i.
Proof.
  intros Hnd Hi Hx.
  destruct (index_bounds l x) as (j & Hj & Hb & Hl); [by eapply list_elem_of_lookup_2|].
  rewrite Hj. f_equal. apply (lookup_unique l j i x); (done || lia).
Qed.

Lemma getitem_wrapped (j : Z) :
  -25 <= j <= 49 ->
  exists letter,
    genericMapping !! Z.to_nat (j mod 26) = Some letter
    /\ Py.getitem genericMapping (positionLooper j 25) = OK letter.
Proof.
  intros Hj. rewrite positionLooper_mod_26 by done.
  apply genericMapping_getitem.
  pose proof (Z.mod_pos_bound j 26). lia.
Qed.

(** The steps of [encode] on a letter of the alphabet, from the right. *)
Lemma Rotor_encode_right (r : Rotor) (pos ring i : Z) (X : string) :
  wired_rotor r -> currentPos r = Some pos -> ringSetting r = Some ring ->
  -24 <= pos - ring <= 24 ->
  0 <= i <= 25 -> genericMapping !! Z.to_nat i = Some X ->
  exists M j Y,
    0 <= j <= 25
    /\ mapping r !! Z.to_nat ((i + (pos - ring)) mod 26) = Some M
    /\ genericMapping !! Z.to_nat j = Some M
    /\ genericMapping !! Z.to_nat ((j - (pos - ring)) mod 26) = Some Y
    /\ Rotor_encode r X "right" = OK Y.
Proof.
  intros (Hclass & Hperm & (pos' & Hp & Hpos) & _) Hcp Hrs Hoff Hi HX.
  rewrite Hcp in Hp. injection Hp as <-.
  assert (Hlen : length (mapping r) = 26%nat) by (by rewrite Hperm).
  assert (HXin : X ∈ genericMapping) by (by eapply list_elem_of_lookup_2).
  pose proof (Z.mod_pos_bound (i + (pos - ring)) 26 ltac:(lia)) as Hk.
  destruct (lookup_lt_is_Some_2 (mapping r) (Z.to_nat ((i + (pos - ring)) mod 26)))
    as [M HM]; [lia|].
  assert (HMin : M ∈ genericMapping).
  { rewrite <- Hperm. by eapply list_elem_of_lookup_2. }
  destruct (index_bounds _ _ HMin) as (j & Hj & Hjb & HjM). simpl length in Hjb.
  destruct (getitem_wrapped (j - (pos - ring))) as (Y & HY & HgY); [lia|].
  exists M, j, Y. repeat split; try (done || lia).
  unfold Rotor_encode.
  destruct (letters_validated "" X (alphabet_letters X HXin)) as (-> & Hupl & _ & _).
  cbn [mbind result_bind]. rewrite Hupl, (alphabet_upper X HXin).
  rewrite bool_decide_eq_false_2 by (by destruct Hclass as [-> | ->]).
  rewrite Hcp, Hrs. cbn [int_of mbind result_bind].
  destruct (genericMapping_getitem pos Hpos) as (l0 & _ & ->). cbn [mbind result_bind].
  rewrite (index_lookup genericMapping i X alphabet_NoDup); [|lia|exact HX].
  cbn [mbind result_bind].
  destruct (getitem_wrapped (i + (pos - ring))) as (L & HL & ->); [lia|].
  cbn [mbind result_bind]. rewrite bool_decide_eq_true_2 by done.
  rewrite (index_lookup genericMapping ((i + (pos - ring)) mod 26) L alphabet_NoDup);
    [|lia|exact HL].
  cbn [mbind result_bind].
  rewrite (getitem_nonneg _ ((i + (pos - ring)) mod 26) M); [|lia|exact HM]. cbn [mbind result_bind].
  rewrite Hj. cbn [mbind result_bind]. rewrite HgY. cbn [mbind result_bind].
  f_equal. apply alphabet_upper. by eapply list_elem_of_lookup_2.
Qed.

(** The steps of [encode] on a letter of the alphabet, from the left. *)
Lemma Rotor_encode_left (r : Rotor) (pos ring i : Z) (X d : string) :
  wired_rotor r -> currentPos r = Some pos -> ringSetting r = Some ring ->
  -24 <= pos - ring <= 24 -> d <> "right" ->
  0 <= i <= 25 -> genericMapping !! Z.to_nat i = Some X ->
  exists L k Y,
    0 <= k <= 25
    /\ genericMapping !! Z.to_nat ((i + (pos - ring)) mod 26) = Some L
    /\ mapping r !! Z.to_nat k = Some L
    /\ genericMapping !! Z.to_nat ((k - (pos - ring)) mod 26) = Some Y
    /\ Rotor_encode r X d = OK Y.
Proof.
  intros (Hclass & Hperm & (pos' & Hp & Hpos) & _) Hcp Hrs Hoff Hd Hi HX.
  rewrite Hcp in Hp. injection Hp as <-.
  assert (Hlen : length (mapping r) = 26%nat) by (by rewrite Hperm).
  assert (HXin : X ∈ genericMapping) by (by eapply list_elem_of_lookup_2).
  destruct (getitem_wrapped (i + (pos - ring))) as (L & HL & HgL); [lia|].
  assert (HLin : L ∈ mapping r).
  { rewrite Hperm. by eapply list_elem_of_lookup_2. }
  destruct (index_bounds _ _ HLin) as (k & Hk & Hkb & HkL). rewrite Hlen in Hkb.
  destruct (getitem_wrapped (k - (pos - ring))) as (Y & HY & HgY); [lia|].
  exists L, k, Y. repeat split; try (done || lia).
  unfold Rotor_encode.
  destruct (letters_validated "" X (alphabet_letters X HXin)) as (-> & Hupl & _ & _).
  cbn [mbind result_bind]. rewrite Hupl, (alphabet_upper X HXin).
  rewrite bool_decide_eq_false_2 by (by destruct Hclass as [-> | ->]).
  rewrite Hcp, Hrs. cbn [int_of mbind result_bind].
  destruct (genericMapping_getitem pos Hpos) as (l0 & _ & ->). cbn [mbind result_bind].
  rewrite (index_lookup genericMapping i X alphabet_NoDup); [|lia|exact HX].
  cbn [mbind result_bind]. rewrite HgL. cbn [mbind result_bind].
  rewrite bool_decide_eq_false_2 by done.
  rewrite Hk. cbn [mbind result_bind].
  destruct (genericMapping_getitem k) as (K & HK & ->); [lia|]. cbn [mbind result_bind].
  rewrite (index_lookup genericMapping k K alphabet_NoDup); [|lia|exact HK].
  cbn [mbind result_bind]. rewrite HgY. cbn [mbind result_bind].
  f_equal. apply alphabet_upper. by eapply list_elem_of_lookup_2.
Qed.

Lemma wired_NoDup (r : Rotor) : wired_rotor r -> NoDup (mapping r).
Proof. intros (_ & Hperm & _). rewrite Hperm. apply alphabet_NoDup. Qed.

Lemma within_wrap_offset (r : Rotor) :
  within_wrap r ->
  exists pos ring, currentPos r = Some pos /\ ringSetting r = Some ring
                   /\ -24 <= pos - ring <= 24.
Proof.
  unfold within_wrap. destruct (currentPos r) as [pos|]; [|done].
  destruct (ringSetting r) as [ring|]; [|done]. by exists pos, ring.
Qed.

Lemma alphabet_position (X : string) :
  X ∈ genericMapping ->
  exists i, 0 <= i <= 25 /\ genericMapping !! Z.to_nat i = Some X.
Proof.
  intros HX. destruct (index_bounds _ _ HX) as (i & _ & Hi & HiX).
  simpl length in Hi. exists i. split; [lia|done].
Qed.

Lemma right_then_left (r : Rotor) (X Y d : string) :
  wired_rotor r -> within_wrap r -> d <> "right" -> X ∈ genericMapping ->
  Rotor_encode r X "right" = OK Y ->
  Y ∈ genericMapping /\ Rotor_encode r Y d = OK X.
Proof.
  intros Hr Hw Hd HX Hright.
  destruct (within_wrap_offset r Hw) as (pos & ring & Hcp & Hrs & Hoff).
  destruct (alphabet_position X HX) as (i & Hi & HiX).
  destruct (Rotor_encode_right r pos ring i X Hr Hcp Hrs Hoff Hi HiX)
    as (M & j & Y' & Hj & HM & HjM & HY & Henc).
  rewrite Henc in Hright. injection Hright as ->.
  split; [by eapply list_elem_of_lookup_2|].
  pose proof (Z.mod_pos_bound (j - (pos - ring)) 26 ltac:(lia)) as Hb.
  destruct (Rotor_encode_left r pos ring ((j - (pos - ring)) mod 26) Y d
              Hr Hcp Hrs Hoff Hd ltac:(lia) HY)
    as (L & k & Z' & Hk & HL & HkL & HZ & ->).
  f_equal.
  assert (Hj' : ((j - (pos - ring)) mod 26 + (pos - ring)) mod 26 = j).
  { rewrite Zplus_mod_idemp_l. replace (j - (pos - ring) + (pos - ring)) with j by lia.
    apply Z.mod_small. lia. }
  rewrite Hj' in HL. assert (L = M) as -> by congruence.
  pose proof (Z.mod_pos_bound (i + (pos - ring)) 26 ltac:(lia)) as Hb'.
  assert (k = (i + (pos - ring)) mod 26) as ->.
  { apply (lookup_unique (mapping r) _ _ M); (by apply wired_NoDup) || lia || done. }
  assert (Hi' : ((i + (pos - ring)) mod 26 - (pos - ring)) mod 26 = i).
  { rewrite Zminus_mod_idemp_l. replace (i + (pos - ring) - (pos - ring)) with i by lia.
    apply Z.mod_small. lia. }
  rewrite Hi' in HZ. congruence.
Qed.

Lemma left_then_right (r : Rotor) (X Y d : string) :
  wired_rotor r -> within_wrap r -> d <> "right" -> X ∈ genericMapping ->
  Rotor_encode r X d = OK Y ->
  Y ∈ genericMapping /\ Rotor_encode r Y "right" = OK X.
Proof.
  intros Hr Hw Hd HX Hleft.
  destruct (within_wrap_offset r Hw) as (pos & ring & Hcp & Hrs & Hoff).
  destruct (alphabet_position X HX) as (i & Hi & HiX).
  destruct (Rotor_encode_left r pos ring i X d Hr Hcp Hrs Hoff Hd Hi HiX)
    as (L & k & Y' & Hk & HL & HkL & HY & Henc).
  rewrite Henc in Hleft. injection Hleft as ->.
  split; [by eapply list_elem_of_lookup_2|].
  pose proof (Z.mod_pos_bound (k - (pos - ring)) 26 ltac:(lia)) as Hb.
  destruct (Rotor_encode_right r pos ring ((k - (pos - ring)) mod 26) Y
              Hr Hcp Hrs Hoff ltac:(lia) HY)
    as (M & j & Z' & Hj & HM & HjM & HZ & ->).
  f_equal.
  assert (Hk' : ((k - (pos - ring)) mod 26 + (pos - ring)) mod 26 = k).
  { rewrite Zplus_mod_idemp_l. replace (k - (pos - ring) + (pos - ring)) with k by lia.
    apply Z.mod_small. lia. }
  rewrite Hk' in HM. assert (M = L) as -> by congruence.
  pose proof (Z.mod_pos_bound (i + (pos - ring)) 26 ltac:(lia)) as Hb'.
  assert (j = (i + (pos - ring)) mod 26) as ->.
  { apply (lookup_unique genericMapping _ _ L); (by apply alphabet_NoDup) || lia || done. }
  assert (Hi' : ((i + (pos - ring)) mod 26 - (pos - ring)) mod 26 = i).
  { rewrite Zminus_mod_idemp_l. replace (i + (pos - ring) - (pos - ring)) with i by lia.
    apply Z.mod_small. lia. }
  rewrite Hi' in HZ. congruence.
Qed.

(** X11: a rotor whose wiring is a permutation of the alphabet and whose
    position and ring setting differ by at most 24 encodes every letter,
    and the two directions undo each other: right then left, and left then
    right, give the letter back in upper case. *)
Theorem Rotor_encode_round_trip (r : Rotor) (x : string) :
  wired_rotor r -> within_wrap r -> x ∈ letters ->
  (exists y, Rotor_encode r x "right" = OK y /\ y ∈ genericMapping
             /\ Rotor_encode r y "left" = OK (Py.upper x))
  /\ (exists y, Rotor_encode r x "left" = OK y /\ y ∈ genericMapping
                /\ Rotor_encode r y "right" = OK (Py.upper x)).
Proof.
  intros Hr Hw Hx.
  destruct (letters_validated "" x Hx) as (_ & _ & _ & Hup).
  split.
  - destruct (Rotor_encode_total r x "right" Hr Hx) as (y & Hy & _).
    exists y. split; [done|]. rewrite Rotor_encode_upper in Hy by done.
    by apply (right_then_left r (Py.upper x) y "left").
  - destruct (Rotor_encode_total r x "left" Hr Hx) as (y & Hy & _).
    exists y. split; [done|]. rewrite Rotor_encode_upper in Hy by done.
    by apply (left_then_right r (Py.upper x) y "left").
Qed.

Lemma Rotor_encode_round_trip_witness :
  (r ← RotorIII 11 "U";
   y ← Rotor_encode r "g" "right";
   x ← Rotor_encode r y "left";
   OK (y, x)) = OK ("Y", "G").
Proof.
  destruct (RotorIII 11 "U") as [r|] eqn:Hr; [|vm_compute in Hr; discriminate].
  cbn [mbind result_bind].
  destruct (Rotor_encode_round_trip r "g") as [(y & Hy & _ & Hback) _].
  - vm_compute in Hr. injection Hr as <-. split; [by left|].
    split; [apply (bool_decide_unpack _); vm_compute; exact I|].
    split; eexists; (split; [reflexivity|lia]).
  - vm_compute in Hr. injection Hr as <-. unfold within_wrap. cbn. lia.
  - by apply (bool_decide_unpack _).
  - rewrite Hy. cbn [mbind result_bind]. rewrite Hback. cbn [mbind result_bind].
    vm_compute in Hr. injection Hr as <-. vm_compute in Hy. by injection Hy as <-.
Defined.

(** ** The reflectors *)

Lemma pairs_letters_sound (w : list string) :
  pairs_letters w = true -> fixed_point_free_involution w.
Proof.
  intros Hcheck x y (i & Hi & Hw).
  assert (Hlt : (i < 26)%nat).
  { apply lookup_lt_Some in Hi. simpl in Hi. lia. }
  unfold pairs_letters in Hcheck. rewrite forallb_forall in Hcheck.
  specialize (Hcheck i ltac:(apply in_seq; lia)). rewrite Hi, Hw in Hcheck.
  apply andb_prop in Hcheck as [Hne Hback].
  apply bool_decide_eq_true_1 in Hne. split; [done|].
  apply existsb_exists in Hback as (j & _ & Hj).
  apply bool_decide_eq_true_1 in Hj. by exists j.
Qed.

(** X12: every reflector [setup] builds from a name alone is wired with a
    permutation of the alphabet that pairs the letters: no letter is wired
    to itself and each is wired back from the letter it is wired to.  The
    reflector built for the name ['ReflectorCThin'] is the one built for
    ['ReflectorBThin'], name and wiring. *)
Theorem stock_reflectors_pair (name : string) (r : Rotor) :
  setup_reflector (ReflectorName name) = OK r ->
  rotorType r = "reflector"
  /\ mapping r ≡ₚ genericMapping
  /\ fixed_point_free_involution (mapping r)
  /\ (name = "ReflectorCThin" -> r = ReflectorBThin).
Proof.
  unfold setup_reflector. destruct (bool_decide (name ∈ validReflectors)); [|done].
  unfold stock_reflector_class.
  repeat match goal with
         | |- context [if bool_decide (name = ?s) then _ else _] =>
             destruct (decide (name = s)) as [->|?];
               [rewrite (bool_decide_eq_true_2 (s = s)) by done;
                intros [= <-]; split; [done|]; split;
                [apply (bool_decide_unpack _); vm_compute; exact I|];
                split; [apply pairs_letters_sound; vm_compute; reflexivity|];
                (by intros [=]) || (by intros _)
               |rewrite (bool_decide_eq_false_2 (name = s)) by done]
         end.
  done.
Qed.

Lemma stock_reflectors_pair_witness :
  rotorType ReflectorCThin = "reflector"
  /\ mapping ReflectorCThin ≡ₚ genericMapping
  /\ fixed_point_free_involution (mapping ReflectorCThin)
  /\ ("ReflectorCThin" = "ReflectorCThin" -> ReflectorCThin = ReflectorBThin).
Proof. apply (stock_reflectors_pair "ReflectorCThin"). reflexivity. Defined.

(** X13: the reflector part of [setup] succeeds in two cases only: on the
    name of one of the five stock reflectors, and on the pair of
    ['ReflectorCustom'] and a wiring of 26 characters none of which repeats.
    A stock name with a wiring, ['ReflectorCustom'] without one, and every
    other argument fail. *)
Theorem setup_reflector_accepts (spec : ReflectorSpec) (r : Rotor) :
  setup_reflector spec = OK r <->
  (exists name, spec = ReflectorName name /\ stock_reflector_class name = Some r)
  \/ (exists wiring,
        spec = ReflectorArgs ["ReflectorCustom"; wiring]
        /\ Py.len wiring = 26 /\ NoDup (Py.chars wiring)
        /\ r = set_notch_mapping (Rotor_init_reflector "custom") [NotchFalse]
                 (Py.chars wiring)).
Proof.
  assert (Hcustom : forall wiring, Py.len wiring = 26 ->
    ReflectorCustom wiring =
      if bool_decide (NoDup (Py.chars wiring))
      then OK (set_notch_mapping (Rotor_init_reflector "custom") [NotchFalse]
                 (Py.chars wiring))
      else Raise (ValueError "Mapping cannot repeat letters.")).
  { intros wiring Hlen. unfold ReflectorCustom. rewrite repeats_letters_spec.
    2:{ intros Hnil. rewrite <- chars_length, Hnil in Hlen. done. }
    cbn [mbind result_bind].
    destruct (decide (NoDup (Py.chars wiring))) as [Hnd|Hnd].
    - rewrite bool_decide_eq_false_2 by (by intros H).
      by rewrite bool_decide_eq_true_2.
    - rewrite bool_decide_eq_true_2 by done. by rewrite bool_decide_eq_false_2. }
  split.
  - destruct spec as [name|items]; cbn [setup_reflector].
    + destruct (bool_decide (name ∈ validReflectors)); [|done].
      destruct (stock_reflector_class name) as [r'|] eqn:Hclass; [|done].
      intros [= <-]. left. by exists name.
    + destruct items as [|name [|wiring [|? ?]]]; try done.
      destruct (bool_decide (name ∈ validReflectors)); [|done].
      destruct (Z.eqb_spec (Py.len wiring) 26) as [Hlen|]; [|done]. cbn [andb].
      destruct (decide (name = "ReflectorCustom")) as [->|Hne].
      * rewrite bool_decide_eq_true_2 by done. rewrite Hcustom by done.
        destruct (decide (NoDup (Py.chars wiring))) as [Hnd|Hnd].
        -- rewrite bool_decide_eq_true_2 by done. intros [= <-].
           right. by exists wiring.
        -- by rewrite bool_decide_eq_false_2.
      * by rewrite bool_decide_eq_false_2.
  - intros [(name & -> & Hclass)|(wiring & -> & Hlen & Hnd & ->)]; cbn [setup_reflector].
    + rewrite Hclass. rewrite bool_decide_eq_true_2; [done|].
      revert Hclass. unfold stock_reflector_class.
      repeat match goal with
             | |- context [if bool_decide (name = ?s) then _ else _] =>
                 destruct (decide (name = s)) as [->|?];
                   [intros _; by apply (bool_decide_unpack _)
                   |rewrite (bool_decide_eq_false_2 (name = s)) by done]
             end.
      done.
    + rewrite bool_decide_eq_true_2 by (by apply (bool_decide_unpack _)).
      rewrite Hlen. cbn [Z.eqb Pos.eqb andb].
      rewrite bool_decide_eq_true_2 by done. rewrite Hcustom by done.
      by rewrite bool_decide_eq_true_2.
Qed.

(** ** [setup] with the rotors in order *)

Lemma insert_at_end {A} (l : list A) (x : A) :
  Py.insert l (Z.of_nat (length l)) x = l ++ [x].
Proof.
  unfold Py.insert, Py.norm_index.
  destruct (Z.ltb_spec (Z.of_nat (length l)) 0); [lia|].
  rewrite Z.max_r, Z.min_id, Nat2Z.id by lia.
  by rewrite take_ge, drop_ge.
Qed.

Lemma stock_spec_rotor (i : RotorSpec) :
  stock_spec i -> exists r, rotor_of_spec i = OK r /\ wired_rotor r.
Proof.
  intros (Hvalid & Hcustom & Hrest & Hring & Hpos).
  assert (exists r, rotor_of_spec i = OK r) as [r Hr].
  { unfold rotor_of_spec. rewrite bool_decide_eq_true_2 by done.
    rewrite bool_decide_eq_false_2 by done. rewrite Hrest.
    assert (Hstock : forall type nm notch wiring,
      exists r, stock type nm notch wiring (spec_ringSetting i) (spec_initialPos i)
                = OK r).
    { intros type nm notch wiring. unfold stock.
      destruct (Rotor_init_ok (spec_ringSetting i) (spec_initialPos i) type nm Hring Hpos)
        as (p & _ & _ & ->).
      by eexists. }
    unfold stock_rotor_class.
    repeat match goal with
           | |- context [if bool_decide (spec_name i = ?s) then _ else _] =>
               destruct (bool_decide (spec_name i = s)) eqn:?; [apply Hstock|]
           end.
    exfalso. unfold validRotors in Hvalid.
    repeat match goal with
           | H : bool_decide _ = false |- _ => apply bool_decide_eq_false_1 in H
           end.
    repeat (apply elem_of_cons in Hvalid as [Hvalid|Hvalid]; [done|]).
    by apply elem_of_nil in Hvalid. }
  exists r. split; [done|]. by apply (rotor_of_spec_stock_wired i).
Qed.

Lemma setup_rotors_in_order (specs : list RotorSpec) (m : EnigmaMachine) :
  Forall stock_spec specs ->
  (forall k i, specs !! k = Some i ->
     spec_order i = Z.of_nat (S (length (rotorsList m) + k))) ->
  exists rotors,
    for_each setup_rotor m specs =
      OK (mkEnigmaMachine (rotorsList m ++ rotors) (plugBoard m) (reflector m))
    /\ Forall2 (fun i r => rotor_of_spec i = OK r) specs rotors.
Proof.
  intros Hstock. revert m. induction Hstock as [|i specs Hi _ IH]; intros m Horder.
  - exists []. rewrite app_nil_r. split; [by destruct m|constructor].
  - destruct (stock_spec_rotor i Hi) as (r & Hr & _).
    pose proof (Horder 0%nat i eq_refl) as Ho. rewrite Nat.add_0_r in Ho.
    assert (Hstep : setup_rotor m i =
      OK (mkEnigmaMachine (rotorsList m ++ [r]) (plugBoard m) (reflector m))).
    { unfold setup_rotor. rewrite Hr. cbn [mbind result_bind].
      unfold addRotor. destruct (Z.ltb_spec (spec_order i) 1); [lia|].
      destruct (Z.gtb_spec (spec_order i - 1) (Z.of_nat (length (rotorsList m))));
        [lia|].
      replace (spec_order i - 1) with (Z.of_nat (length (rotorsList m))) by lia.
      by rewrite insert_at_end. }
    cbn [for_each]. rewrite Hstep. cbn [mbind result_bind].
    destruct (IH (mkEnigmaMachine (rotorsList m ++ [r]) (plugBoard m) (reflector m)))
      as (rotors & -> & Hall).
    { intros k j Hj. cbn [rotorsList]. rewrite length_app. simpl length.
      rewrite (Horder (S k) j Hj). f_equal. lia. }
    exists (r :: rotors). cbn [rotorsList plugBoard reflector].
    rewrite <- app_assoc. split; [done|by constructor].
Qed.

(** X14: [setup] on three or more stock rotors listed from left to right
    with the orders 1, 2, 3, ..., ring settings in 1..26 and letters as
    positions, a stock reflector, and plugboard arguments that are accepted
    with no lead holding a letter twice: it succeeds, the stack holds the
    rotors in the order listed, the board and the reflector are the ones
    asked for, and the machine is ready to encode. *)
Theorem setup_in_order (specs : list RotorSpec) (name : string)
  (plugleads : option string) (n : Z) (board : Plugboard) :
  (3 <= length specs)%nat ->
  Forall stock_spec specs ->
  (forall k i, specs !! k = Some i -> spec_order i = Z.of_nat (S k)) ->
  name ∈ validReflectors -> name <> "ReflectorCustom" ->
  setup_plugboard n plugleads = OK board ->
  Forall (fun lead => NoDup (lettersList lead)) (plugLeads board) ->
  exists m,
    setup EnigmaMachine_init specs (ReflectorName name) plugleads n = OK m
    /\ Forall2 (fun i r => rotor_of_spec i = OK r) specs (rotorsList m)
    /\ plugBoard m = Some board
    /\ (exists refl, reflector m = Some refl
                     /\ setup_reflector (ReflectorName name) = OK refl)
    /\ ready_machine m.
Proof.
  intros Hlen Hstock Horder Hname Hcustom Hboard Hleads.
  pose proof (setup_plugboard_proper n plugleads board Hboard Hleads) as Hproper.
  destruct (setup_rotors_in_order specs (addPlugBoard EnigmaMachine_init board) Hstock)
    as (rotors & Hrun & Hall).
  { intros k i Hi. cbn. by apply Horder. }
  assert (exists refl, setup_reflector (ReflectorName name) = OK refl) as [refl Hrefl].
  { unfold setup_reflector. rewrite bool_decide_eq_true_2 by done.
    unfold stock_reflector_class.
    repeat match goal with
           | |- context [if bool_decide (name = ?s) then _ else _] =>
               destruct (bool_decide (name = s)) eqn:?; [by eexists|]
           end.
    exfalso. unfold validReflectors in Hname.
    repeat match goal with
           | H : bool_decide _ = false |- _ => apply bool_decide_eq_false_1 in H
           end.
    repeat (apply elem_of_cons in Hname as [Hname|Hname]; [done|]).
    by apply elem_of_nil in Hname. }
  assert (Hsetup : setup EnigmaMachine_init specs (ReflectorName name) plugleads n
                   = OK (mkEnigmaMachine rotors (Some board) (Some refl))).
  { unfold setup. rewrite Hboard. cbn [mbind result_bind].
    destruct (Z.ltb_spec (Z.of_nat (length specs)) 3); [lia|].
    rewrite Hrun. cbn [mbind result_bind]. rewrite Hrefl. done. }
  eexists. split; [exact Hsetup|]. cbn [rotorsList plugBoard reflector].
  split; [done|]. split; [done|]. split; [by exists refl|].
  apply (setup_ready EnigmaMachine_init _ specs name plugleads n board); try done.
  eapply Forall_impl; [exact Hstock|]. by intros i (_ & ? & _).
Qed.

Lemma sample_ready (m : EnigmaMachine) :
  sample_setup = OK m ->
  ready_machine m
  /\ reflector m = Some ReflectorB
  /\ fixed_point_free_involution (mapping ReflectorB)
  /\ Forall middle_ring (rotorsList m).
Proof.
  intros Hm. split; [|split; [|split]].
  - destruct (setup_plugboard 10 (Some "HL MO AJ")) as [board|] eqn:Hb;
      [|vm_compute in Hb; discriminate].
    apply (setup_ready EnigmaMachine_init m
             [mkRotorSpec "RotorI" 2 "A" 1 []; mkRotorSpec "RotorII" 5 "D" 2 [];
              mkRotorSpec "RotorIII" 11 "U" 3 []]
             "ReflectorB" (Some "HL MO AJ") 10 board); try done.
    + by repeat constructor.
    + apply (setup_plugboard_proper 10 (Some "HL MO AJ")); [done|].
      vm_compute in Hb. injection Hb as <-.
      repeat (apply Forall_cons_2; [apply (bool_decide_unpack _); vm_compute; exact I|]).
      apply Forall_nil_2.
  - vm_compute in Hm. by injection Hm as <-.
  - apply pairs_letters_sound. vm_compute. reflexivity.
  - vm_compute in Hm. injection Hm as <-. cbn [rotorsList].
    repeat (apply Forall_cons_2; [eexists; split; [reflexivity|lia]|]).
    apply Forall_nil_2.
Qed.

Lemma setup_in_order_witness :
  exists m board,
    setup_plugboard 10 (Some "HL MO AJ") = OK board
    /\ sample_setup = OK m
    /\ Forall2 (fun i r => rotor_of_spec i = OK r)
         [mkRotorSpec "RotorI" 2 "A" 1 []; mkRotorSpec "RotorII" 5 "D" 2 [];
          mkRotorSpec "RotorIII" 11 "U" 3 []] (rotorsList m)
    /\ plugBoard m = Some board
    /\ (exists refl, reflector m = Some refl
                     /\ setup_reflector (ReflectorName "ReflectorB") = OK refl)
    /\ ready_machine m.
Proof.
  destruct (setup_plugboard 10 (Some "HL MO AJ")) as [board|] eqn:Hb;
    [|vm_compute in Hb; discriminate].
  destruct (setup_in_order
              [mkRotorSpec "RotorI" 2 "A" 1 []; mkRotorSpec "RotorII" 5 "D" 2 [];
               mkRotorSpec "RotorIII" 11 "U" 3 []]
              "ReflectorB" (Some "HL MO AJ") 10 board) as (m & Hm & H).
  - simpl. lia.
  - repeat (apply Forall_cons_2;
            [split; [by apply (bool_decide_unpack _)|];
             split; [done|]; split; [done|];
             split; [simpl; lia|by apply (bool_decide_unpack _)]|]).
    apply Forall_nil_2.
  - intros k i Hi. do 3 (destruct k as [|k]; [by injection Hi as <-|]). done.
  - by apply (bool_decide_unpack _).
  - done.
  - done.
  - vm_compute in Hb. injection Hb as <-.
    repeat (apply Forall_cons_2; [apply (bool_decide_unpack _); vm_compute; exact I|]).
    apply Forall_nil_2.
  - by exists m, board.
Defined.

(** ** One letter, there and back *)

Lemma pass_right_then_left (rotors : list Rotor) (X Y : string) :
  Forall wired_rotor rotors -> Forall within_wrap rotors -> X ∈ genericMapping ->
  for_each (fun e r => Rotor_encode r e "right") X (reverse rotors) = OK Y ->
  Y ∈ genericMapping
  /\ for_each (fun e r => Rotor_encode r e "left") Y rotors = OK X.
Proof.
  intros Hwired. revert X Y.
  induction Hwired as [|r rotors Hr _ IH]; intros X Y Hwrap HX.
  - by intros [= <-].
  - inversion_clear Hwrap as [|? ? Hw Hws].
    rewrite reverse_cons, for_each_app.
    destruct (for_each _ X (reverse rotors)) as [X'|] eqn:Hpass; [|done].
    cbn [mbind result_bind for_each].
    destruct (Rotor_encode r X' "right") as [Y'|] eqn:Henc; [|done].
    cbn [mbind result_bind]. intros [= ->].
    destruct (IH X X' Hws HX Hpass) as [HX' Hback].
    destruct (right_then_left r X' Y "left" Hr Hw ltac:(done) HX' Henc) as [HY ->].
    by cbn [mbind result_bind].
Qed.

Lemma pass_left_then_right (rotors : list Rotor) (X Y : string) :
  Forall wired_rotor rotors -> Forall within_wrap rotors -> X ∈ genericMapping ->
  for_each (fun e r => Rotor_encode r e "left") X rotors = OK Y ->
  Y ∈ genericMapping
  /\ for_each (fun e r => Rotor_encode r e "right") Y (reverse rotors) = OK X.
Proof.
  intros Hwired. revert X Y.
  induction Hwired as [|r rotors Hr _ IH]; intros X Y Hwrap HX.
  - by intros [= <-].
  - inversion_clear Hwrap as [|? ? Hw Hws]. cbn [for_each].
    destruct (Rotor_encode r X "left") as [X'|] eqn:Henc; [|done].
    cbn [mbind result_bind]. intros Hpass.
    destruct (left_then_right r X X' "left" Hr Hw ltac:(done) HX Henc) as [HX' Hback].
    destruct (IH X' Y Hws HX' Hpass) as [HY Hrest].
    split; [done|].
    rewrite reverse_cons, for_each_app, Hrest. cbn [mbind result_bind for_each].
    rewrite Hback. by cbn [mbind result_bind].
Qed.

Lemma pass_upper (rotors : list Rotor) (x d : string) :
  rotors <> [] -> x ∈ letters ->
  for_each (fun e r => Rotor_encode r e d) x rotors
  = for_each (fun e r => Rotor_encode r e d) (Py.upper x) rotors.
Proof.
  intros Hne Hx. destruct rotors as [|r rotors]; [done|].
  cbn [for_each]. by rewrite Rotor_encode_upper.
Qed.

Lemma reflector_pairs (refl : Rotor) (X y d : string) :
  wired_reflector refl -> fixed_point_free_involution (mapping refl) ->
  X ∈ genericMapping ->
  Rotor_encode refl X d = OK y ->
  y ∈ letters /\ Py.upper y ∈ genericMapping /\ Py.upper y <> X
  /\ Py.lower (Py.upper y) = y
  /\ Rotor_encode refl (Py.upper y) d = OK (Py.lower X).
Proof.
  intros (Htype & Hlen & Hall) Hinv HX.
  destruct (alphabet_position X HX) as (i & Hi & HiX).
  destruct (lookup_lt_is_Some_2 (mapping refl) (Z.to_nat i)) as [W HW]; [lia|].
  destruct (Hinv X W) as (Hne & j & HjW & HjX); [by exists (Z.to_nat i)|].
  assert (HWin : W ∈ genericMapping) by (by eapply list_elem_of_lookup_2).
  assert (Hj : (j < 26)%nat).
  { apply lookup_lt_Some in HjW. simpl in HjW. lia. }
  assert (Hstep : forall (A B : string) (k : Z),
    A ∈ genericMapping -> 0 <= k ->
    genericMapping !! Z.to_nat k = Some A -> mapping refl !! Z.to_nat k = Some B ->
    Rotor_encode refl A d = OK (Py.lower B)).
  { intros A B k HA Hk HkA HkB. unfold Rotor_encode.
    destruct (letters_validated "" A (alphabet_letters A HA)) as (-> & Hupl & _ & _).
    cbn [mbind result_bind]. rewrite Hupl, (alphabet_upper A HA).
    rewrite bool_decide_eq_true_2 by done.
    rewrite (index_lookup genericMapping k A alphabet_NoDup); [|lia|exact HkA].
    cbn [mbind result_bind].
    rewrite (getitem_nonneg _ k B); [|lia|exact HkB]. done. }
  rewrite (Hstep X W i HX ltac:(lia) HiX HW). intros [= <-].
  destruct (letters_validated "" W (alphabet_letters W HWin)) as (_ & Hupl & _ & _).
  rewrite Hupl, (alphabet_upper W HWin).
  split; [apply lower_letters; by apply alphabet_letters|].
  split; [done|]. split; [congruence|]. split; [done|].
  apply (Hstep W X (Z.of_nat j)); [done|lia| |]; by rewrite Nat2Z.id.
Qed.

Lemma fullEncode_path (m m' : EnigmaMachine) (refl : Rotor) (x y : string) :
  ready_machine m ->
  reflector m = Some refl -> fixed_point_free_involution (mapping refl) ->
  fullEncode m x = OK (m', y) ->
  Forall within_wrap (rotorsList m') ->
  exists board x1 x2 x3 x4,
    x ∈ letters /\ y ∈ genericMapping
    /\ x1 ∈ genericMapping /\ x2 ∈ genericMapping
    /\ x3 ∈ genericMapping /\ x4 ∈ genericMapping
    /\ plugBoard m = Some board
    /\ m' = mkEnigmaMachine (rotorsList m') (plugBoard m) (reflector m)
    /\ stepRotors (rotorsList m) = OK (rotorsList m')
    /\ rotorsList m' <> []
    /\ Plugboard_encode board x = OK x1
    /\ Plugboard_encode board x1 = OK (Py.upper x)
    /\ for_each (fun e r => Rotor_encode r e "right") x1 (reverse (rotorsList m')) = OK x2
    /\ for_each (fun e r => Rotor_encode r e "left") x2 (rotorsList m') = OK x1
    /\ Rotor_encode refl x2 "left" = OK (Py.lower x3)
    /\ Rotor_encode refl x3 "left" = OK (Py.lower x2)
    /\ x3 <> x2
    /\ for_each (fun e r => Rotor_encode r e "left") x3 (rotorsList m') = OK x4
    /\ for_each (fun e r => Rotor_encode r e "right") x4 (reverse (rotorsList m')) = OK x3
    /\ Plugboard_encode board x4 = OK y
    /\ Plugboard_encode board y = OK x4.
Proof.
  intros Hready Hrefl Hinv Henc Hwrap.
  pose proof Hready as (_ & _ & (board & Hboard & Hproper) & (refl' & Hrefl' & Hwr)).
  rewrite Hrefl in Hrefl'. injection Hrefl' as <-.
  pose proof Henc as Hrun. unfold fullEncode in Hrun.
  destruct (inputValidator encodingElement "Element to encode" x) as [l|] eqn:Hv;
    [|done].
  assert (Hx : x ∈ letters) by (by eapply validated_letter).
  destruct (letters_validated "Element to encode" x Hx) as (Hv' & _ & _ & _).
  rewrite Hv in Hv'. injection Hv' as ->.
  destruct (fullEncode_total m x Hready Hx) as (m'' & out & Henc' & _ & Hready').
  rewrite Henc in Henc'. injection Henc' as <- <-.
  destruct Hready' as (Hlen' & Hwired & _).
  cbn [mbind result_bind] in Hrun. rewrite Hboard, Hrefl in Hrun.
  cbn [attr_of mbind result_bind] in Hrun.
  destruct (Plugboard_involution board x Hproper Hx) as (x1 & Hp1 & Hp1' & _).
  rewrite <- Plugboard_encode_lower in Hrun by done. rewrite Hp1 in Hrun.
  cbn [mbind result_bind] in Hrun.
  assert (Hx1 : x1 ∈ genericMapping).
  { destruct (Plugboard_encode_total board x Hproper Hx) as (? & ? & ?). congruence. }
  destruct (stepRotors (rotorsList m)) as [rotors|] eqn:Hstep; [|done].
  cbn [mbind result_bind] in Hrun.
  destruct (for_each _ x1 (reverse rotors)) as [x2|] eqn:Hright; [|done].
  cbn [mbind result_bind] in Hrun.
  destruct (Rotor_encode refl x2 "left") as [y3|] eqn:Hre; [|done].
  cbn [mbind result_bind] in Hrun.
  destruct (for_each _ y3 rotors) as [x4|] eqn:Hleft; [|done].
  cbn [mbind result_bind] in Hrun.
  destruct (Plugboard_encode board x4) as [x5|] eqn:Hp2; [|done].
  cbn [mbind result_bind] in Hrun. injection Hrun as Hm' Hy.
  assert (Hrotors : rotorsList m' = rotors) by (by rewrite <- Hm').
  rewrite Hrotors in *.
  assert (Hne : rotors <> []).
  { intros ->. simpl in Hlen'. lia. }
  destruct (pass_right_then_left rotors x1 x2 Hwired Hwrap Hx1 Hright) as [Hx2 Hback].
  destruct (reflector_pairs refl x2 y3 "left" Hwr Hinv Hx2 Hre)
    as (Hy3 & Hx3 & Hne3 & Hlow & Hre').
  rewrite (pass_upper rotors y3 "left" Hne Hy3) in Hleft.
  destruct (pass_left_then_right rotors (Py.upper y3) x4 Hwired Hwrap Hx3 Hleft)
    as [Hx4 Hback'].
  destruct (Plugboard_involution board x4 Hproper (alphabet_letters x4 Hx4))
    as (x5' & Hp2' & Hp2'' & _).
  rewrite Hp2 in Hp2'. injection Hp2' as <-.
  assert (Hx5 : x5 ∈ genericMapping).
  { destruct (Plugboard_encode_total board x4 Hproper (alphabet_letters x4 Hx4))
      as (? & ? & ?). congruence. }
  rewrite (alphabet_upper x5 Hx5) in Hy. subst y.
  rewrite (alphabet_upper x4 Hx4) in Hp2''.
  exists board, x1, x2, (Py.upper y3), x4.
  rewrite Hlow. repeat split; try done.
  by rewrite Hboard, Hrefl.
Qed.

Lemma fullEncode_back (m m' : EnigmaMachine) (refl : Rotor) (x y : string) :
  ready_machine m ->
  reflector m = Some refl -> fixed_point_free_involution (mapping refl) ->
  fullEncode m x = OK (m', y) ->
  Forall within_wrap (rotorsList m') ->
  fullEncode m y = OK (m', Py.upper x).
Proof.
  intros Hready Hrefl Hinv Henc Hwrap.
  destruct (fullEncode_path m m' refl x y Hready Hrefl Hinv Henc Hwrap)
    as (board & x1 & x2 & x3 & x4 & Hx & Hy & Hx1 & Hx2 & Hx3 & Hx4 & Hboard & Hm'
        & Hstep & Hne & Hp1 & Hp1' & Hright & Hback & Hre & Hre' & _ & Hleft & Hback'
        & Hp2 & Hp2').
  unfold fullEncode.
  destruct (letters_validated "Element to encode" y (alphabet_letters y Hy))
    as (-> & _ & _ & _).
  cbn [mbind result_bind]. rewrite Hboard, Hrefl. cbn [attr_of mbind result_bind].
  rewrite <- Plugboard_encode_lower by (by apply alphabet_letters).
  rewrite Hp2'. cbn [mbind result_bind]. rewrite Hstep. cbn [mbind result_bind].
  rewrite Hback'. cbn [mbind result_bind]. rewrite Hre'. cbn [mbind result_bind].
  assert (Hlow : Py.lower x2 ∈ letters) by (by apply lower_letters, alphabet_letters).
  rewrite (pass_upper _ _ "left" Hne Hlow).
  destruct (letters_validated "" x2 (alphabet_letters x2 Hx2)) as (_ & -> & _ & _).
  rewrite (alphabet_upper x2 Hx2), Hback. cbn [mbind result_bind].
  rewrite Hp1'. cbn [mbind result_bind].
  destruct (letters_validated "" x Hx) as (_ & _ & _ & Hup).
  rewrite (alphabet_upper _ Hup). by rewrite <- Hboard, <- Hrefl, <- Hm'.
Qed.

(** X15: reciprocity of one letter.  On a ready machine whose reflector
    pairs the letters, if [fullEncode] turns [x] into [y], with every rotor
    of the stepped stack within the wrap, then from the same settings it
    turns [y] into [x], reaching the same settings; and [y] is never [x]
    itself. *)
Theorem fullEncode_pairs_letters (m m' : EnigmaMachine) (refl : Rotor) (x y : string) :
  ready_machine m ->
  reflector m = Some refl -> fixed_point_free_involution (mapping refl) ->
  fullEncode m x = OK (m', y) ->
  Forall within_wrap (rotorsList m') ->
  fullEncode m y = OK (m', Py.upper x) /\ y <> Py.upper x.
Proof.
  intros Hready Hrefl Hinv Henc Hwrap.
  split; [by apply (fullEncode_back m m' refl)|].
  destruct (fullEncode_path m m' refl x y Hready Hrefl Hinv Henc Hwrap)
    as (board & x1 & x2 & x3 & x4 & Hx & Hy & Hx1 & Hx2 & Hx3 & Hx4 & Hboard & Hm'
        & Hstep & Hne & Hp1 & Hp1' & Hright & Hback & Hre & Hre' & Hne3 & Hleft
        & Hback' & Hp2 & Hp2').
  intros ->.
  rewrite Plugboard_encode_lower in Hp2' by (by apply upper_in_letters).
  destruct (letters_validated "" x Hx) as (_ & _ & Hlow & _).
  rewrite Hlow, <- Plugboard_encode_lower, Hp1 in Hp2' by done.
  injection Hp2' as ->. congruence.
Qed.

Lemma fullEncode_pairs_letters_witness :
  (m ← sample_setup;
   a ← fullEncode m "h";
   b ← fullEncode m (snd a);
   OK (snd a, snd b, bool_decide (snd a <> "H"))) = OK ("K", "H", true).
Proof.
  destruct sample_setup as [m|] eqn:Hm; [|vm_compute in Hm; discriminate].
  destruct (sample_ready m Hm) as (Hready & Hrefl & Hinv & Hmid).
  cbn [mbind result_bind].
  destruct (fullEncode m "h") as [[m' y]|] eqn:Henc.
  2:{ vm_compute in Hm. injection Hm as <-. vm_compute in Henc. discriminate. }
  cbn [mbind result_bind snd].
  destruct (fullEncode_pairs_letters m m' ReflectorB "h" y Hready Hrefl Hinv Henc)
    as [Hback Hne].
  - vm_compute in Hm. injection Hm as <-. vm_compute in Henc. injection Henc as <- <-.
    repeat (apply Forall_cons_2; [unfold within_wrap; cbn; lia|]). apply Forall_nil_2.
  - rewrite Hback. cbn [mbind result_bind snd].
    rewrite (bool_decide_eq_true_2 _ Hne).
    vm_compute in Hm. injection Hm as <-. vm_compute in Henc. by injection Henc as <- <-.
Defined.

(** ** Messages *)

Lemma upper_char_idem (c : ascii) : Py.upper_char (Py.upper_char c) = Py.upper_char c.
Proof. destruct c as [[] [] [] [] [] [] [] []]; vm_compute; reflexivity. Qed.

Lemma upper_idem (s : string) : Py.upper (Py.upper s) = Py.upper s.
Proof.
  unfold Py.upper. induction s as [|c s IH]; simpl; [done|].
  by rewrite upper_char_idem, IH.
Qed.

Lemma join_upper_chars (s : string) : Py.join (Py.upper <$> Py.chars s) = Py.upper s.
Proof.
  unfold Py.join, Py.upper. induction s as [|c s IH]; simpl; [done|].
  f_equal. exact IH.
Qed.

Lemma alphabet_single (Y : string) :
  Y ∈ genericMapping -> exists c, Y = String c "" /\ Py.upper_char c = c.
Proof.
  revert Y. apply Forall_forall.
  repeat (apply Forall_cons_2; [eexists; split; reflexivity|]). apply Forall_nil_2.
Qed.

Lemma join_alphabet (ys : list string) :
  Forall (fun y => y ∈ genericMapping) ys ->
  Py.chars (Py.join ys) = ys /\ Py.upper (Py.join ys) = Py.join ys
  /\ Py.len (Py.join ys) = Z.of_nat (length ys).
Proof.
  unfold Py.join, Py.upper, Py.len. induction 1 as [|y ys Hy _ (IH1 & IH2 & IH3)]; [done|].
  destruct (alphabet_single y Hy) as (c & -> & Hc). split; [|split].
  - change (String c "" :: Py.chars (foldr String.append "" ys) = String c "" :: ys).
    by f_equal.
  - change (String (Py.upper_char c) (Py.smap Py.upper_char (foldr String.append "" ys))
            = String c (foldr String.append "" ys)).
    by f_equal.
  - change (Z.of_nat (S (String.length (foldr String.append "" ys)))
            = Z.of_nat (S (length ys))).
    lia.
Qed.

Lemma chars_letters (s : string) :
  all_letters s = true -> Forall (fun x => x ∈ letters) (Py.chars s).
Proof.
  induction s as [|c s IH]; simpl; [constructor|].
  intros [Hc Hs]%andb_prop. constructor; [by apply single_letter_in_letters|by apply IH].
Qed.

Lemma append_join (acc y : string) (ys : list string) :
  (acc +:+ y) +:+ Py.join ys = acc +:+ Py.join (y :: ys).
Proof.
  unfold Py.join. cbn [foldr]. induction acc as [|c acc IH]; [done|].
  change (String c ((acc +:+ y) +:+ foldr String.append "" ys)
          = String c (acc +:+ (y +:+ foldr String.append "" ys))).
  f_equal. exact IH.
Qed.

Lemma append_empty (acc : string) : acc +:+ "" = acc.
Proof.
  induction acc as [|c acc IH]; [done|].
  change (String c (acc +:+ "") = String c acc). by f_equal.
Qed.

Lemma next_machine (m m' : EnigmaMachine) (x y : string) :
  ready_machine m -> fullEncode m x = OK (m', y) ->
  x ∈ letters /\ y ∈ genericMapping /\ ready_machine m'
  /\ reflector m' = reflector m
  /\ rotorsList m' = reverse (stepped (reverse (rotorsList m))).
Proof.
  intros Hready Henc.
  assert (Hx : x ∈ letters).
  { unfold fullEncode in Henc.
    destruct (inputValidator encodingElement "Element to encode" x) eqn:Hv; [|done].
    by eapply validated_letter. }
  destruct (fullEncode_total m x Hready Hx) as (m'' & out & Henc' & Hout & Hready').
  rewrite Henc in Henc'. injection Henc' as <- <-.
  destruct (fullEncode_steps m m' x y Henc) as (Hstep & _ & Hrefl).
  destruct Hready as (Hlen & Hwired & _).
  rewrite stepRotors_ok in Hstep.
  - injection Hstep as Hstep. done.
  - done.
  - eapply Forall_impl; [exact Hwired|]. by intros r (_ & _ & ? & _).
Qed.

Lemma turned_ring (r : Rotor) : ringSetting (turned r) = ringSetting r.
Proof. unfold turned. by destruct (currentPos r). Qed.

Lemma stepped_middle (rotors : list Rotor) :
  Forall middle_ring rotors ->
  Forall middle_ring (reverse (stepped (reverse rotors))).
Proof.
  intros H. apply Forall_reverse, stepped_Forall; [|by apply Forall_reverse].
  intros r (ring & Hr & Hb). exists ring. by rewrite turned_ring.
Qed.

Lemma middle_within (rotors : list Rotor) :
  Forall wired_rotor rotors -> Forall middle_ring rotors -> Forall within_wrap rotors.
Proof.
  intros Hw Hm. rewrite Forall_forall in Hw, Hm. apply Forall_forall. intros r Hr.
  destruct (Hw r Hr) as (_ & _ & (pos & Hp & Hpos) & _).
  destruct (Hm r Hr) as (ring & Hg & Hring).
  unfold within_wrap. rewrite Hp, Hg. lia.
Qed.

Section Serial.
Variable refl : Rotor.
Hypothesis Hinv : fixed_point_free_involution (mapping refl).

Lemma serial_run_back (cs : list string) (m m' : EnigmaMachine) (acc acc' : string) :
  ready_machine m -> reflector m = Some refl ->
  Forall middle_ring (rotorsList m) ->
  for_each (fun (st : EnigmaMachine * string) (s : string) =>
              out ← fullEncode (fst st) s; OK (fst out, snd st +:+ snd out))
    (m, acc) cs = OK (m', acc') ->
  exists ys,
    acc' = acc +:+ Py.join ys
    /\ Forall (fun y => y ∈ genericMapping) ys
    /\ forall acc2,
         for_each (fun (st : EnigmaMachine * string) (s : string) =>
              out ← fullEncode (fst st) s; OK (fst out, snd st +:+ snd out))
           (m, acc2) ys = OK (m', acc2 +:+ Py.join (Py.upper <$> cs)).
Proof.
  revert m acc. induction cs as [|c cs IH]; intros m acc Hready Hrefl Hmid.
  - intros [= <- <-]. exists []. split; [by rewrite append_empty|].
    split; [constructor|]. intros acc2. cbn. by rewrite append_empty.
  - cbn [for_each fst snd].
    destruct (fullEncode m c) as [[m1 y]|] eqn:Henc; [|done].
    cbn [mbind result_bind fst snd]. intros Hrun.
    destruct (next_machine m m1 c y Hready Henc) as (Hc & Hy & Hready1 & Hrefl1 & Hrotors).
    assert (Hmid1 : Forall middle_ring (rotorsList m1)).
    { rewrite Hrotors. by apply stepped_middle. }
    assert (Hwrap : Forall within_wrap (rotorsList m1)).
    { apply middle_within; [|done]. by destruct Hready1 as (_ & ? & _). }
    pose proof (fullEncode_back m m1 refl c y Hready Hrefl Hinv Henc Hwrap) as Hback.
    rewrite Hrefl in Hrefl1.
    destruct (IH m1 (acc +:+ y) Hready1 Hrefl1 Hmid1 Hrun) as (ys & -> & Hys & Hrest).
    exists (y :: ys). split; [by rewrite append_join|]. split; [by constructor|].
    intros acc2. cbn [for_each fst snd]. rewrite Hback. cbn [mbind result_bind fst snd].
    rewrite Hrest. cbn [fmap list_fmap]. by rewrite append_join.
Qed.

End Serial.

(** X16: reciprocity of a message.  On a ready machine whose reflector
    pairs the letters and whose ring settings are between 2 and 25, if
    [serialEncode] turns a message into [out], then from the same settings
    it turns [out] back into the message in upper case, reaching the same
    settings. *)
Theorem serialEncode_reciprocal (m m' : EnigmaMachine) (refl : Rotor)
  (s out : string) :
  ready_machine m ->
  reflector m = Some refl -> fixed_point_free_involution (mapping refl) ->
  Forall middle_ring (rotorsList m) ->
  serialEncode m s = OK (m', out) ->
  serialEncode m out = OK (m', Py.upper s).
Proof.
  intros Hready Hrefl Hinv Hmid. unfold serialEncode.
  destruct (for_each _ (m, "") (Py.chars s)) as [[m1 acc]|] eqn:Hrun; [|done].
  cbn [mbind result_bind fst snd]. intros [= <- <-].
  destruct (serial_run_back refl Hinv _ _ _ _ _ Hready Hrefl Hmid Hrun)
    as (ys & -> & Hys & Hback).
  destruct (join_alphabet ys Hys) as (Hchars & Hup & _).
  change ("" +:+ Py.join ys) with (Py.join ys). rewrite Hup, Hchars, Hback.
  cbn [mbind result_bind fst snd].
  change ("" +:+ Py.join (Py.upper <$> Py.chars s))
    with (Py.join (Py.upper <$> Py.chars s)).
  by rewrite join_upper_chars, upper_idem.
Qed.

Lemma serialEncode_reciprocal_witness :
  (m ← sample_setup;
   a ← serialEncode m "attackatdawn";
   b ← serialEncode m (snd a);
   OK (snd b)) = OK "ATTACKATDAWN".
Proof.
  destruct sample_setup as [m|] eqn:Hm; [|vm_compute in Hm; discriminate].
  destruct (sample_ready m Hm) as (Hready & Hrefl & Hinv & Hmid).
  cbn [mbind result_bind].
  destruct (serialEncode m "attackatdawn") as [[m' out]|] eqn:Henc.
  2:{ vm_compute in Hm. injection Hm as <-. vm_compute in Henc. discriminate. }
  cbn [mbind result_bind snd].
  by rewrite (serialEncode_reciprocal m m' ReflectorB "attackatdawn" out
                Hready Hrefl Hinv Hmid Henc).
Defined.

Lemma serial_run_total (cs : list string) (m : EnigmaMachine) (acc : string) (p : Z) :
  ready_machine m -> Forall (fun x => x ∈ letters) cs ->
  rightmost_position (rotorsList m) = Some p -> 0 <= p <= 25 ->
  exists m' ys,
    for_each (fun (st : EnigmaMachine * string) (s : string) =>
                out ← fullEncode (fst st) s; OK (fst out, snd st +:+ snd out))
      (m, acc) cs = OK (m', acc +:+ Py.join ys)
    /\ Forall (fun y => y ∈ genericMapping) ys
    /\ length ys = length cs
    /\ ready_machine m'
    /\ rightmost_position (rotorsList m') = Some ((p + Z.of_nat (length cs)) mod 26).
Proof.
  intros Hready Hcs. revert m acc p Hready.
  induction Hcs as [|c cs Hc _ IH]; intros m acc p Hready Hp Hrange.
  - exists m, []. cbn. rewrite append_empty, Z.add_0_r, Z.mod_small by lia.
    split; [done|]. split; [constructor|]. split; [done|]. by split.
  - destruct (fullEncode_total m c Hready Hc) as (m1 & y & Henc & Hy & Hready1).
    destruct (next_machine m m1 c y Hready Henc) as (_ & _ & _ & _ & Hrotors).
    assert (Hp1 : rightmost_position (rotorsList m1) = Some ((p + 1) mod 26)).
    { rewrite Hrotors. apply stepped_rightmost; [|done|done]. by destruct Hready. }
    pose proof (Z.mod_pos_bound (p + 1) 26 ltac:(lia)) as Hb.
    destruct (IH m1 (acc +:+ y) _ Hready1 Hp1 ltac:(lia))
      as (m' & ys & Hrun & Hys & Hlen & Hready' & Hp').
    exists m', (y :: ys). cbn [for_each fst snd]. rewrite Henc.
    cbn [mbind result_bind fst snd]. rewrite Hrun, append_join.
    split; [done|]. split; [by constructor|]. split; [simpl; by rewrite Hlen|].
    split; [done|].
    rewrite Hp'. f_equal. rewrite Zplus_mod_idemp_l. f_equal. simpl length. lia.
Qed.

(** X17: a ready machine encodes every message of letters: the result has
    the length of the message and holds upper-case letters only, the
    machine stays ready, and the rightmost rotor has advanced by the length
    of the message modulo 26. *)
Theorem serialEncode_letters (m : EnigmaMachine) (s : string) (p : Z) :
  ready_machine m -> all_letters s = true ->
  rightmost_position (rotorsList m) = Some p ->
  exists m' out,
    serialEncode m s = OK (m', out)
    /\ Py.len out = Py.len s
    /\ Forall (fun y => y ∈ genericMapping) (Py.chars out)
    /\ ready_machine m'
    /\ rightmost_position (rotorsList m') = Some ((p + Py.len s) mod 26).
Proof.
  intros Hready Hs Hp.
  assert (Hrange : 0 <= p <= 25).
  { unfold rightmost_position in Hp.
    destruct (last (rotorsList m)) as [c|] eqn:Hlast; [|done]. simpl in Hp.
    apply last_Some_elem_of in Hlast. destruct Hready as (_ & Hw & _).
    rewrite Forall_forall in Hw. destruct (Hw c Hlast) as (_ & _ & (z & Hz & Hr) & _).
    congruence. }
  destruct (serial_run_total (Py.chars s) m "" p Hready (chars_letters s Hs) Hp Hrange)
    as (m' & ys & Hrun & Hys & Hlen & Hready' & Hp').
  destruct (join_alphabet ys Hys) as (Hchars & Hup & Hl).
  exists m', (Py.join ys). unfold serialEncode. rewrite Hrun.
  cbn [mbind result_bind fst snd].
  change ("" +:+ Py.join ys) with (Py.join ys). rewrite Hup, Hchars, Hl, Hlen.
  rewrite <- chars_length. done.
Qed.

Lemma serialEncode_letters_witness :
  exists m m' out,
    sample_setup = OK m
    /\ serialEncode m "Hello" = OK (m', out)
    /\ Py.len out = Py.len "Hello"
    /\ Forall (fun y => y ∈ genericMapping) (Py.chars out)
    /\ ready_machine m'
    /\ rightmost_position (rotorsList m') = Some ((20 + Py.len "Hello") mod 26).
Proof.
  destruct sample_setup as [m|] eqn:Hm; [|vm_compute in Hm; discriminate].
  destruct (sample_ready m Hm) as (Hready & _).
  destruct (serialEncode_letters m "Hello" 20 Hready) as (m' & out & H);
    [reflexivity| |by exists m, m', out].
  vm_compute in Hm. by injection Hm as <-.
Defined.

(** X18: a message with a character that is no letter, a space included,
    is refused: after the letters before it, [serialEncode] raises the
    only-letters error of [fullEncode] for that character. *)
Theorem serialEncode_rejects (m : EnigmaMachine) (pre post : string) (c : ascii) :
  ready_machine m -> all_letters pre = true -> Py.is_letter c = false ->
  serialEncode m (pre +:+ String c post) =
    Raise (InputError (String c "")
             "[Element to encode] Input can only take letters [a-zA-Z].").
Proof.
  intros Hready Hpre Hc.
  assert (Hp : exists p, rightmost_position (rotorsList m) = Some p /\ 0 <= p <= 25).
  { destruct Hready as (Hlen & Hw & _). unfold rightmost_position.
    destruct (last (rotorsList m)) as [r|] eqn:Hlast.
    - apply last_Some_elem_of in Hlast. rewrite Forall_forall in Hw.
      destruct (Hw r Hlast) as (_ & _ & (z & Hz & Hr) & _). by exists z.
    - apply last_None in Hlast. rewrite Hlast in Hlen. simpl in Hlen. lia. }
  destruct Hp as (p & Hp & Hrange).
  destruct (serial_run_total (Py.chars pre) m "" p Hready (chars_letters pre Hpre)
              Hp Hrange) as (m' & ys & Hrun & _).
  assert (Hchars : Py.chars (pre +:+ String c post)
                   = Py.chars pre ++ String c "" :: Py.chars post).
  { clear. induction pre as [|a pre IH]; simpl; [done|]. by rewrite IH. }
  unfold serialEncode. rewrite Hchars, for_each_app, Hrun.
  cbn [mbind result_bind for_each fst snd].
  assert (Hfail : fullEncode m' (String c "") =
    Raise (InputError (String c "")
             "[Element to encode] Input can only take letters [a-zA-Z].")).
  { unfold fullEncode, inputValidator. cbn [Py.letters_only]. rewrite Hc. done. }
  by rewrite Hfail.
Qed.

Lemma serialEncode_rejects_witness :
  (m ← sample_setup; serialEncode m "at dawn") =
    Raise (InputError " " "[Element to encode] Input can only take letters [a-zA-Z].").
Proof.
  destruct sample_setup as [m|] eqn:Hm; [|vm_compute in Hm; discriminate].
  destruct (sample_ready m Hm) as (Hready & _). cbn [mbind result_bind].
  by apply (serialEncode_rejects m "at" "dawn" " "%char).
Defined.

(** ** A machine that lacks a part *)


